(** * Pong on the STM32L4: a shallow embedding of the frame-update engine

    The development follows the C sources file by file:
    - [Joystick.c]   : [Joystick_GetDirection]
    - [Utils.h]      : [AABB_Collides], [Random_U16]
    - [Ball.c], [Paddle.c] : the two entities
    - [Buzzer.c]     : [buzzer_tone], [buzzer_off]
    - [PongEngine.c] : the per-frame state machine and the one-shot beep
    - [LCD.c]        : the packed 4-bit framebuffer with dirty rows

    C integers are [Z] with the wrap-around of their width written out,
    [float] is IEEE binary32 through [SpecFloat], C arrays are lists that
    are read and written by index, and the HAL (tick counter, random number
    generator, timer registers) is an explicit world that the functions
    thread through a small state monad. *)

From Stdlib Require Import ZArith Bool Lia.
From Stdlib Require Import Floats.SpecFloat.
From stdpp Require Import base list.

Local Open Scope Z_scope.

(** ** Machine integers *)

Definition wrap_u8 (z : Z) : Z := z mod 256.
Definition wrap_u16 (z : Z) : Z := z mod 65536.
Definition wrap_u32 (z : Z) : Z := z mod 4294967296.
Definition wrap_i16 (z : Z) : Z := (z + 32768) mod 65536 - 32768.
Definition wrap_i32 (z : Z) : Z := (z + 2147483648) mod 4294967296 - 2147483648.

Definition in_i16 (z : Z) : Prop := -32768 <= z <= 32767.

(** ** binary32 floats *)

Definition f32_prec : Z := 24.
Definition f32_emax : Z := 128.

Definition f32_of_Z (z : Z) : spec_float :=
  binary_normalize f32_prec f32_emax z 0 false.
Definition f32_mul : spec_float -> spec_float -> spec_float :=
  SFmul f32_prec f32_emax.
Definition f32_neg : spec_float -> spec_float := SFopp.
Definition f32_lt : spec_float -> spec_float -> bool := SFltb.
Definition f32_ge (a b : spec_float) : bool := SFleb b a.

(** A decimal literal [num/den] with the [f] suffix: the binary32 value
    nearest to the quotient (correctly rounded division of two exactly
    representable integers). *)
Definition f32_lit (num den : Z) : spec_float :=
  SFdiv f32_prec f32_emax (f32_of_Z num) (f32_of_Z den).

(** [(int16_t)f] as the Cortex-M4F computes it: [vcvt.s32.f32] truncates
    towards zero and saturates to 32 bits (NaN gives 0), then the low 16
    bits are sign-extended.  For values that fit in 16 bits this is the
    truncation that ISO C prescribes. *)
Definition f32_trunc (f : spec_float) : Z :=
  match f with
  | S754_zero _ => 0
  | S754_nan => 0
  | S754_infinity s => if s then -2147483648 else 2147483647
  | S754_finite s m e =>
      let a := if 0 <=? e then Z.pos m * 2 ^ e else Z.pos m / 2 ^ (- e) in
      let v := if s then - a else a in
      Z.max (-2147483648) (Z.min 2147483647 v)
  end.
Definition f32_to_i16 (f : spec_float) : Z := wrap_i16 (f32_trunc f).

(** ** Joystick.h / Joystick.c *)

Inductive Direction : Type :=
  | CENTRE | N | NE | E | SE | S | SW | W | NW.

Record Vector2D : Type := mkVector2D { vec_x : spec_float; vec_y : spec_float }.

Record UserInput : Type := mkUserInput {
  direction : Direction;
  magnitude : spec_float;
  angle : spec_float }.

Definition Joystick_GetDirection (angle magnitude : spec_float) : Direction :=
  if f32_lt angle (f32_of_Z 0) || f32_lt magnitude (f32_lit 5 100) then CENTRE
  else if f32_ge angle (f32_lit 3375 10) || f32_lt angle (f32_lit 225 10) then N
  else if f32_ge angle (f32_lit 225 10) && f32_lt angle (f32_lit 675 10) then NE
  else if f32_ge angle (f32_lit 675 10) && f32_lt angle (f32_lit 1125 10) then E
  else if f32_ge angle (f32_lit 1125 10) && f32_lt angle (f32_lit 1575 10) then SE
  else if f32_ge angle (f32_lit 1575 10) && f32_lt angle (f32_lit 2025 10) then S
  else if f32_ge angle (f32_lit 2025 10) && f32_lt angle (f32_lit 2475 10) then SW
  else if f32_ge angle (f32_lit 2475 10) && f32_lt angle (f32_lit 2925 10) then W
  else NW.

(** ** Utils.h *)

Record Position2D : Type := mkPosition2D { pos_x : Z; pos_y : Z }.

Record AABB : Type := mkAABB {
  box_x : Z; box_y : Z; box_width : Z; box_height : Z }.

(** The operands are [int16_t] promoted to [int]: the sums cannot wrap. *)
Definition AABB_Collides (a b : AABB) : bool :=
  (box_x a <? box_x b + box_width b) &&
  (box_x b <? box_x a + box_width a) &&
  (box_y a <? box_y b + box_height b) &&
  (box_y b <? box_y a + box_height a).

(** ** The hardware world

    [hal_tick k] is what the [k]-th call of [HAL_GetTick] returns and
    [hal_rng k] what the [k]-th call of [HAL_RNG_GenerateRandomNumber]
    produces ([None] when its status is not [HAL_OK]); both are arbitrary.
    The timer that drives the buzzer is kept by its registers. *)

Record TIM_HandleTypeDef : Type := mkTIM {
  tim_arr : Z;          (* auto-reload register *)
  tim_cnt : Z;          (* counter *)
  tim_ccr : Z;          (* compare register of the buzzer channel *)
  tim_pwm_on : bool     (* channel output enabled *) }.

Record Buzzer_cfg_t : Type := mkBuzzer_cfg {
  htim : TIM_HandleTypeDef;
  tick_freq_hz : Z;
  min_freq_hz : Z;
  max_freq_hz : Z;
  setup_done : bool;
  pwm_started : bool }.

Record World : Type := mkWorld {
  buzzer_cfg : Buzzer_cfg_t;
  buzzer_stop_tick : Z;
  hal_tick : nat -> Z;
  tick_reads : nat;
  hal_rng : nat -> option Z;
  rng_reads : nat }.

Definition M (A : Type) : Type := World -> A * World.
Definition ret {A} (a : A) : M A := fun w => (a, w).
Definition bind {A B} (c : M A) (k : A -> M B) : M B :=
  fun w => let (a, w') := c w in k a w'.

Declare Scope hal_scope.
Delimit Scope hal_scope with hal.
Notation "x <- c ;; k" := (bind c (fun x => k))
  (at level 100, c at next level, right associativity) : hal_scope.
Notation "c ;;; k" := (bind c (fun _ => k))
  (at level 100, right associativity) : hal_scope.
Local Open Scope hal_scope.

Definition exec {A} (c : M A) (w : World) : World := snd (c w).
Definition eval {A} (c : M A) (w : World) : A := fst (c w).

Definition HAL_GetTick : M Z := fun w =>
  (wrap_u32 (hal_tick w (tick_reads w)),
   mkWorld (buzzer_cfg w) (buzzer_stop_tick w)
           (hal_tick w) (Datatypes.S (tick_reads w)) (hal_rng w) (rng_reads w)).

Definition HAL_RNG_GenerateRandomNumber : M (option Z) := fun w =>
  (option_map wrap_u32 (hal_rng w (rng_reads w)),
   mkWorld (buzzer_cfg w) (buzzer_stop_tick w)
           (hal_tick w) (tick_reads w) (hal_rng w) (Datatypes.S (rng_reads w))).

Definition get_buzzer_cfg : M Buzzer_cfg_t := fun w => (buzzer_cfg w, w).
Definition put_buzzer_cfg (c : Buzzer_cfg_t) : M unit := fun w =>
  (tt, mkWorld c (buzzer_stop_tick w)
               (hal_tick w) (tick_reads w) (hal_rng w) (rng_reads w)).
Definition get_stop_tick : M Z := fun w => (buzzer_stop_tick w, w).
Definition put_stop_tick (t : Z) : M unit := fun w =>
  (tt, mkWorld (buzzer_cfg w) t
               (hal_tick w) (tick_reads w) (hal_rng w) (rng_reads w)).

Definition Random_U16 (max : Z) : M Z :=
  r <- HAL_RNG_GenerateRandomNumber ;;
  match r with
  | None => ret 0
  | Some rnd => if max =? 0 then ret 0 else ret (wrap_u16 (rnd mod max))
  end.

(** ** Buzzer.c *)

Definition clamp_u32 (x lo hi : Z) : Z :=
  if x <? lo then lo else if hi <? x then hi else x.

Definition buzzer_init (cfg : Buzzer_cfg_t) : Buzzer_cfg_t :=
  if setup_done cfg then cfg
  else mkBuzzer_cfg (htim cfg) (tick_freq_hz cfg) (min_freq_hz cfg)
                    (max_freq_hz cfg) true false.

Definition buzzer_off (cfg : Buzzer_cfg_t) : Buzzer_cfg_t :=
  if pwm_started cfg then
    let t := htim cfg in
    mkBuzzer_cfg (mkTIM (tim_arr t) (tim_cnt t) 0 false)
                 (tick_freq_hz cfg) (min_freq_hz cfg) (max_freq_hz cfg)
                 (setup_done cfg) false
  else cfg.

(** The division is C's unsigned division; a frequency clamped to 0 (a
    configuration with [max_freq_hz = 0]) divides by zero in C and is 0
    here. *)
Definition buzzer_tone (cfg : Buzzer_cfg_t) (freq_hz volume_percent : Z)
  : Buzzer_cfg_t :=
  let cfg := if setup_done cfg then cfg else buzzer_init cfg in
  if (volume_percent =? 0) || (freq_hz =? 0) then buzzer_off cfg
  else
    let freq_hz := clamp_u32 freq_hz (min_freq_hz cfg) (max_freq_hz cfg) in
    let t := htim cfg in
    let on := if pwm_started cfg then tim_pwm_on t else true in
    let arr := wrap_u32 (tick_freq_hz cfg / freq_hz - 1) in
    let arr := clamp_u32 arr 1 4294967295 in
    let volume_percent := wrap_u8 (clamp_u32 volume_percent 0 100) in
    let half_period := wrap_u32 (arr + 1) / 2 in
    let ccr := wrap_u32 (half_period * volume_percent) / 100 in
    mkBuzzer_cfg (mkTIM arr 0 ccr on)
                 (tick_freq_hz cfg) (min_freq_hz cfg) (max_freq_hz cfg)
                 (setup_done cfg) true.

(** ** Ball.h / Ball.c *)

Definition SCREEN_WIDTH : Z := 240.
Definition SCREEN_HEIGHT : Z := 240.

Record Ball_t : Type := mkBall {
  ball_x : Z; ball_y : Z; ball_size : Z; ball_velocity : Vector2D }.

Definition Ball_Init (size : Z) (speed : spec_float) : Ball_t :=
  mkBall (wrap_i16 (Z.quot (SCREEN_WIDTH - size) 2))
         (wrap_i16 (Z.quot (SCREEN_HEIGHT - size) 2))
         size
         (mkVector2D (f32_mul speed (f32_lit 707 1000))
                     (f32_mul speed (f32_lit 707 1000))).

Definition Ball_Update (ball : Ball_t) : Ball_t :=
  mkBall (wrap_i16 (ball_x ball + f32_to_i16 (vec_x (ball_velocity ball))))
         (wrap_i16 (ball_y ball + f32_to_i16 (vec_y (ball_velocity ball))))
         (ball_size ball) (ball_velocity ball).

Definition Ball_GetAABB (ball : Ball_t) : AABB :=
  mkAABB (ball_x ball) (ball_y ball) (ball_size ball) (ball_size ball).

Definition Ball_SetVelocity (ball : Ball_t) (vx vy : spec_float) : Ball_t :=
  mkBall (ball_x ball) (ball_y ball) (ball_size ball) (mkVector2D vx vy).

Definition Ball_GetPos (ball : Ball_t) : Position2D :=
  mkPosition2D (ball_x ball) (ball_y ball).

Definition Ball_SetPos (ball : Ball_t) (pos : Position2D) : Ball_t :=
  mkBall (pos_x pos) (pos_y pos) (ball_size ball) (ball_velocity ball).

Definition Ball_GetVelocity (ball : Ball_t) : Vector2D := ball_velocity ball.

Definition Ball_GetSize (ball : Ball_t) : Z := ball_size ball.

(** Field assignments [ball->x = v] and [ball->y = v] of the engine. *)
Definition ball_set_x (ball : Ball_t) (v : Z) : Ball_t :=
  mkBall v (ball_y ball) (ball_size ball) (ball_velocity ball).
Definition ball_set_y (ball : Ball_t) (v : Z) : Ball_t :=
  mkBall (ball_x ball) v (ball_size ball) (ball_velocity ball).

(** ** Paddle.h / Paddle.c *)

Record Paddle_t : Type := mkPaddle {
  paddle_x : Z; paddle_y : Z; paddle_width : Z; paddle_height : Z;
  paddle_speed : Z; paddle_score : Z }.

Definition Paddle_Init (x y width height speed : Z) : Paddle_t :=
  mkPaddle x y width height speed 0.

Definition paddle_set_y (paddle : Paddle_t) (v : Z) : Paddle_t :=
  mkPaddle (paddle_x paddle) v (paddle_width paddle) (paddle_height paddle)
           (paddle_speed paddle) (paddle_score paddle).

Definition moves_up (d : Direction) : bool :=
  match d with N | NE | NW => true | _ => false end.
Definition moves_down (d : Direction) : bool :=
  match d with S | SE | SW => true | _ => false end.

Definition Paddle_Update (paddle : Paddle_t) (input : UserInput) : Paddle_t :=
  let paddle :=
    if moves_up (direction input) then
      paddle_set_y paddle (wrap_i16 (paddle_y paddle - paddle_speed paddle))
    else if moves_down (direction input) then
      paddle_set_y paddle (wrap_i16 (paddle_y paddle + paddle_speed paddle))
    else paddle in
  let paddle :=
    if paddle_y paddle <? 0 then paddle_set_y paddle 0 else paddle in
  let paddle_bottom := wrap_i16 (paddle_y paddle + paddle_height paddle) in
  if SCREEN_HEIGHT <? paddle_bottom then
    paddle_set_y paddle (wrap_i16 (SCREEN_HEIGHT - paddle_height paddle))
  else paddle.

Definition Paddle_GetAABB (paddle : Paddle_t) : AABB :=
  mkAABB (paddle_x paddle) (paddle_y paddle)
         (paddle_width paddle) (paddle_height paddle).

Definition Paddle_AddScore (paddle : Paddle_t) : Paddle_t :=
  mkPaddle (paddle_x paddle) (paddle_y paddle) (paddle_width paddle)
           (paddle_height paddle) (paddle_speed paddle)
           (wrap_u16 (paddle_score paddle + 1)).

Definition Paddle_GetScore (paddle : Paddle_t) : Z := paddle_score paddle.

(** ** PongEngine.h / PongEngine.c *)

Definition BALL_RESET_OFFSET : Z := 20.
Definition BUZZER_WALL_FREQ_HZ : Z := 1200.
Definition BUZZER_PADDLE_FREQ_HZ : Z := 800.
Definition BUZZER_VOLUME : Z := 50.
Definition BUZZER_BEEP_MS : Z := 40.

Record PongEngine_t : Type := mkEngine {
  ball : Ball_t; paddle : Paddle_t; lives : Z }.

Definition PongEngine_Beep (freq_hz : Z) : M unit :=
  cfg <- get_buzzer_cfg ;;
  put_buzzer_cfg (buzzer_tone cfg freq_hz BUZZER_VOLUME) ;;;
  now <- HAL_GetTick ;;
  put_stop_tick (wrap_u32 (now + BUZZER_BEEP_MS)).

(** [&&] short-circuits: the tick is read only while a beep is pending. *)
Definition PongEngine_UpdateBuzzer : M unit :=
  stop <- get_stop_tick ;;
  if stop =? 0 then ret tt
  else
    now <- HAL_GetTick ;;
    if 0 <=? wrap_i32 (now - stop) then
      cfg <- get_buzzer_cfg ;;
      put_buzzer_cfg (buzzer_off cfg) ;;;
      put_stop_tick 0
    else ret tt.

Definition PongEngine_CheckWallCollision (engine : PongEngine_t)
  : M PongEngine_t :=
  let b := ball engine in
  let vel := Ball_GetVelocity b in
  b <- (if ball_y b <=? 0 then
          let b := ball_set_y b 2 in
          let b := Ball_SetVelocity b (vec_x vel) (f32_neg (vec_y vel)) in
          PongEngine_Beep BUZZER_WALL_FREQ_HZ ;;; ret b
        else if SCREEN_HEIGHT <=? ball_y b + ball_size b then
          let b := ball_set_y b (wrap_i16 (SCREEN_HEIGHT - ball_size b - 2)) in
          let b := Ball_SetVelocity b (vec_x vel) (f32_neg (vec_y vel)) in
          PongEngine_Beep BUZZER_WALL_FREQ_HZ ;;; ret b
        else ret b) ;;
  b <- (if SCREEN_WIDTH <=? ball_x b + ball_size b then
          let b := ball_set_x b (wrap_i16 (SCREEN_WIDTH - ball_size b - 2)) in
          let b := Ball_SetVelocity b (f32_neg (vec_x vel)) (vec_y vel) in
          PongEngine_Beep BUZZER_WALL_FREQ_HZ ;;; ret b
        else ret b) ;;
  ret (mkEngine b (paddle engine) (lives engine)).

Definition PongEngine_CheckPaddleCollision (engine : PongEngine_t)
  : M PongEngine_t :=
  let b := ball engine in
  let p := paddle engine in
  let vel := Ball_GetVelocity b in
  let ball_box := Ball_GetAABB b in
  let paddle_box := Paddle_GetAABB p in
  if AABB_Collides ball_box paddle_box then
    let b := Ball_SetVelocity b (f32_neg (vec_x vel)) (vec_y vel) in
    let b := ball_set_x b (wrap_i16 (box_x paddle_box + box_width paddle_box)) in
    let p := Paddle_AddScore p in
    PongEngine_Beep BUZZER_PADDLE_FREQ_HZ ;;;
    ret (mkEngine b p (lives engine))
  else ret engine.

(** The velocity every goal resets to: [8.0f * 0.707f] on both axes. *)
Definition reset_speed : spec_float := f32_mul (f32_of_Z 8) (f32_lit 707 1000).

Definition PongEngine_CheckGoal (engine : PongEngine_t) : M PongEngine_t :=
  let b := ball engine in
  if ball_x b <? 0 then
    let lives' := wrap_u8 (lives engine - 1) in
    let cx := wrap_i16 (Z.quot (SCREEN_WIDTH - ball_size b) 2) in
    let cy := wrap_i16 (Z.quot (SCREEN_HEIGHT - ball_size b) 2) in
    rx <- Random_U16 (wrap_u16 (2 * BALL_RESET_OFFSET + 1)) ;;
    let dx := wrap_i16 (wrap_i16 rx - BALL_RESET_OFFSET) in
    ry <- Random_U16 (wrap_u16 (2 * BALL_RESET_OFFSET + 1)) ;;
    let dy := wrap_i16 (wrap_i16 ry - BALL_RESET_OFFSET) in
    let center_pos := mkPosition2D (wrap_i16 (cx + dx)) (wrap_i16 (cy + dy)) in
    let b := Ball_SetPos b center_pos in
    let b := Ball_SetVelocity b reset_speed reset_speed in
    ret (mkEngine b (paddle engine) lives')
  else ret engine.

Definition PongEngine_Init
  (paddle_x paddle_y paddle_width paddle_height ball_size : Z)
  (ball_speed : spec_float) : PongEngine_t :=
  mkEngine (Ball_Init ball_size ball_speed)
           (Paddle_Init paddle_x paddle_y paddle_width paddle_height 6)
           4.

(** Returns the remaining lives together with the updated engine. *)
Definition PongEngine_Update (engine : PongEngine_t) (input : UserInput)
  : M (Z * PongEngine_t) :=
  let engine := mkEngine (ball engine)
                         (Paddle_Update (paddle engine) input)
                         (lives engine) in
  let engine := mkEngine (Ball_Update (ball engine))
                         (paddle engine) (lives engine) in
  engine <- PongEngine_CheckWallCollision engine ;;
  engine <- PongEngine_CheckPaddleCollision engine ;;
  engine <- PongEngine_CheckGoal engine ;;
  PongEngine_UpdateBuzzer ;;;
  ret (lives engine, engine).

Definition PongEngine_GetLives (engine : PongEngine_t) : Z := lives engine.
Definition PongEngine_GetScore (engine : PongEngine_t) : Z :=
  Paddle_GetScore (paddle engine).

(** A session: [PongEngine_Update] once per input, in order. *)
Fixpoint run_updates (inputs : list UserInput) (engine : PongEngine_t)
  : M PongEngine_t :=
  match inputs with
  | [] => ret engine
  | i :: rest =>
      r <- PongEngine_Update engine i ;;
      run_updates rest (snd r)
  end.

(** ** ST7789V2_Driver.h / LCD.h / LCD.c *)

Definition ST7789V2_WIDTH : Z := 240.
Definition ST7789V2_HEIGHT : Z := 240.
Definition BUFFER_LENGTH : Z := ST7789V2_HEIGHT * ST7789V2_WIDTH / 2.

Definition PALETTE_DEFAULT : Z := 0.
Definition PALETTE_GREYSCALE : Z := 1.
Definition PALETTE_VINTAGE : Z := 2.
Definition PALETTE_CUSTOM : Z := 3.

(** [colour_map] points to one of four constant tables. *)
Inductive palette_table : Type :=
  | palette_default | palette_greyscale | palette_vintage | palette_custom.

Definition palette_entries (p : palette_table) : list Z :=
  match p with
  | palette_default =>
      [0x0000; 0xFFFF; 0x00F8; 0xE007; 0x1F00; 0x20FD; 0xE0FF; 0x18FC;
       0x0F78; 0x0F00; 0xA0FE; 0x5C91; 0x45A1; 0x1084; 0xFF07; 0x1FF8]
  | palette_greyscale =>
      [0x0000; 0xC318; 0x4529; 0xC739; 0x2842; 0xAA52; 0x2C63; 0x8E73;
       0xEF7B; 0x718C; 0xD39C; 0x55AD; 0xF7BD; 0x9AD6; 0x3CE7; 0xFFFF]
  | palette_vintage =>
      [0x0000; 0xF39C; 0xFFFF; 0x26B9; 0x71E3; 0xE549; 0x24A3; 0x46EC;
       0x0DF7; 0x492A; 0x4344; 0x64A6; 0x2619; 0xB002; 0x1E35; 0xFDB6]
  | palette_custom =>
      [0x0000; 0xF8A7; 0xA93D; 0x5FD8; 0xB6F5; 0x3804; 0xE8B9; 0x7D86;
       0xD9FD; 0x7D86; 0xFF07; 0x24A3; 0x5AF8; 0xBE44; 0xD244; 0xBE44]
  end.

(** An access of one of the two static arrays at an index outside it. *)
Inductive mem_access : Type :=
  | Write_track_changes (i : Z)
  | Write_image_buffer (i : Z)
  | Read_image_buffer (i : Z).

(** The file-level state of LCD.c.  C gives no meaning to an access outside
    an array: such an access is recorded in [faults] and leaves the arrays
    as they are (a read yields 0). *)
Record LCD_t : Type := mkLCD {
  image_buffer : list Z;
  track_changes : list Z;
  colour_map : palette_table;
  faults : list mem_access }.

Definition in_bounds (l : list Z) (i : Z) : bool :=
  (0 <=? i) && (i <? Z.of_nat (length l)).

Definition track_changes_store (i v : Z) (s : LCD_t) : LCD_t :=
  if in_bounds (track_changes s) i then
    mkLCD (image_buffer s) (<[Z.to_nat i := v]> (track_changes s))
          (colour_map s) (faults s)
  else
    mkLCD (image_buffer s) (track_changes s) (colour_map s)
          (faults s ++ [Write_track_changes i]).

Definition image_buffer_store (i v : Z) (s : LCD_t) : LCD_t :=
  if in_bounds (image_buffer s) i then
    mkLCD (<[Z.to_nat i := v]> (image_buffer s)) (track_changes s)
          (colour_map s) (faults s)
  else
    mkLCD (image_buffer s) (track_changes s) (colour_map s)
          (faults s ++ [Write_image_buffer i]).

Definition image_buffer_load (i : Z) (s : LCD_t) : Z * LCD_t :=
  if in_bounds (image_buffer s) i then
    (default 0 (image_buffer s !! Z.to_nat i), s)
  else
    (0, mkLCD (image_buffer s) (track_changes s) (colour_map s)
              (faults s ++ [Read_image_buffer i])).

(** The two arrays have their declared sizes and hold bytes. *)
Definition lcd_wf (s : LCD_t) : Prop :=
  Z.of_nat (length (image_buffer s)) = BUFFER_LENGTH /\
  Z.of_nat (length (track_changes s)) = ST7789V2_HEIGHT /\
  Forall (fun b => 0 <= b < 256) (image_buffer s).

(** [for (int y = 0; y < ST7789V2_HEIGHT; y++) track_changes[y] = 1;] *)
Definition mark_all_rows (s : LCD_t) : LCD_t :=
  fold_left (fun s y => track_changes_store y 1 s)
            (map Z.of_nat (seq 0 (Z.to_nat ST7789V2_HEIGHT))) s.

Definition LCD_Set_Palette (palette : Z) (s : LCD_t) : LCD_t :=
  let table :=
    if palette =? PALETTE_GREYSCALE then palette_greyscale
    else if palette =? PALETTE_VINTAGE then palette_vintage
    else if palette =? PALETTE_CUSTOM then palette_custom
    else palette_default in
  mark_all_rows
    (mkLCD (image_buffer s) (track_changes s) table (faults s)).

(** [x], [y] are [uint16_t], [colour] is [uint8_t]. *)
Definition LCD_Set_Pixel (x y colour : Z) (s : LCD_t) : LCD_t :=
  let s := track_changes_store y 1 s in
  let index := wrap_u16 (Z.shiftr (ST7789V2_WIDTH * y + x) 1) in
  if (x <? ST7789V2_WIDTH) && (y <? ST7789V2_HEIGHT) then
    if negb (Z.land x 1 =? 0) then
      let (old, s) := image_buffer_load index s in
      image_buffer_store index
        (wrap_u8 (Z.lor (Z.shiftl colour 4) (Z.land old 0x0F))) s
    else
      let (old, s) := image_buffer_load index s in
      image_buffer_store index
        (wrap_u8 (Z.lor colour (Z.land old 0xF0))) s
  else s.

Definition LCD_Get_Pixel (x y : Z) (s : LCD_t) : Z * LCD_t :=
  let pixel := wrap_u16 (x * y) in
  if negb (Z.land pixel 1 =? 0) then
    let (b, s) := image_buffer_load (Z.shiftr pixel 1) s in
    (Z.shiftr (Z.land b 0xF0) 4, s)
  else
    let (b, s) := image_buffer_load (Z.shiftr pixel 1) s in
    (Z.land b 0x0F, s).

(** The palette index that [LCD_Refresh] decodes for pixel [(x, y)]: row
    [y] starts at byte [120 * y]; byte [j] of the row holds pixel [2j] in
    its low nibble and pixel [2j + 1] in its high nibble. *)
Definition refresh_cell (buf : list Z) (x y : Z) : Z :=
  let double_pixel := default 0 (buf !! Z.to_nat (120 * y + x / 2)) in
  if x mod 2 =? 0 then Z.land double_pixel 0x0F else Z.shiftr double_pixel 4.

(** A cleared framebuffer, as after start-up. *)
Definition lcd_blank : LCD_t :=
  mkLCD (replicate (Z.to_nat BUFFER_LENGTH) 0)
        (replicate (Z.to_nat ST7789V2_HEIGHT) 0)
        palette_default [].

(** * Vocabulary of the properties *)

(** [f] is the positive binary32 value [num / den], exactly. *)
Definition f32_is (f : spec_float) (num den : Z) : Prop :=
  match f with
  | S754_finite false m e => e <= 0 /\ Z.pos m * den = num * 2 ^ (- e)
  | _ => False
  end.

(** The call sequences in which no update is invoked at 0 lives: one
    update per input, in order, for as long as the lives returned are
    not 0. *)
Fixpoint updates_until_game_over (inputs : list UserInput) (engine : PongEngine_t)
  : M PongEngine_t :=
  match inputs with
  | [] => ret engine
  | i :: rest =>
      r <- PongEngine_Update engine i ;;
      if fst r =? 0 then ret (snd r) else updates_until_game_over rest (snd r)
  end.

Definition paddle_on_screen (p : Paddle_t) : Prop :=
  0 <= paddle_y p /\ paddle_y p + paddle_height p <= SCREEN_HEIGHT.

(** The paddle fits the screen and neither the move nor the 16-bit
    [paddle_bottom] can overflow. *)
Definition paddle_sane (p : Paddle_t) : Prop :=
  0 <= paddle_height p <= SCREEN_HEIGHT /\
  Z.abs (paddle_speed p) <= 32767 - SCREEN_HEIGHT /\
  -32768 <= paddle_y p - Z.abs (paddle_speed p) /\
  paddle_y p + Z.abs (paddle_speed p) + paddle_height p <= 32767.

Definition same_paddle_but_y (p q : Paddle_t) : Prop :=
  paddle_x q = paddle_x p /\ paddle_width q = paddle_width p /\
  paddle_height q = paddle_height p /\ paddle_speed q = paddle_speed p /\
  paddle_score q = paddle_score p.

(** [n] frames in which only the buzzer timer runs. *)
Fixpoint buzzer_ticks (n : nat) : M unit :=
  match n with
  | O => ret tt
  | Datatypes.S k => PongEngine_UpdateBuzzer ;;; buzzer_ticks k
  end.

Definition world_at_rollover : World :=
  mkWorld (mkBuzzer_cfg (mkTIM 0 0 0 false) 1000000 100 10000 true false) 0
          (fun k => 4294967256 + 50 * Z.of_nat k) 0%nat
          (fun _ => Some 0) 0%nat.

(** The ball in the top-right corner, moving up and to the right. *)
Definition engine_in_corner : PongEngine_t :=
  mkEngine (mkBall 236 0 6 (mkVector2D reset_speed (f32_neg reset_speed)))
           (Paddle_Init 10 100 5 40 6) 4.

Definition world_quiet : World :=
  mkWorld (mkBuzzer_cfg (mkTIM 0 0 0 false) 1000000 100 10000 true false) 0
          (fun k => 1000 + 16 * Z.of_nat k) 0%nat
          (fun _ => Some 12345) 0%nat.

(** Steps 1 and 2 of [PongEngine_Update]: paddle, then ball position. *)
Definition after_motion (engine : PongEngine_t) (input : UserInput)
  : PongEngine_t :=
  mkEngine (Ball_Update (ball engine))
           (Paddle_Update (paddle engine) input)
           (lives engine).

(** Both components keep their absolute value. *)
Definition same_speed (v v' : Vector2D) : Prop :=
  SFabs (vec_x v') = SFabs (vec_x v) /\ SFabs (vec_y v') = SFabs (vec_y v).

Definition reset_velocity : Vector2D := mkVector2D reset_speed reset_speed.

(** The offset that [PongEngine_CheckGoal] derives from one outcome of the
    random number generator. *)
Definition reset_offset (r : option Z) : Z :=
  let u := match r with
           | None => 0
           | Some rnd => wrap_u16 (wrap_u32 rnd mod 41)
           end in
  wrap_i16 (wrap_i16 u - BALL_RESET_OFFSET).

Definition idle : UserInput := mkUserInput CENTRE (f32_of_Z 0) (f32_of_Z (-1)).

(** The ball is about to cross the left edge in front of a paddle that
    stands at the edge. *)
Definition engine_ball_on_paddle : PongEngine_t :=
  mkEngine (mkBall 4 110 6 (mkVector2D (f32_neg reset_speed) reset_speed))
           (mkPaddle 0 100 5 40 6 0) 4.

(** No lives left, and the ball is about to cross the left edge. *)
Definition engine_game_over : PongEngine_t :=
  mkEngine (mkBall 1 110 6 (mkVector2D (f32_neg reset_speed) reset_speed))
           (Paddle_Init 10 100 5 40 6) 0.

(** A fresh game with a ball of speed [4.0f]. *)
Definition engine_slow_ball : PongEngine_t :=
  PongEngine_Init 10 100 5 40 6 (f32_of_Z 4).

(** What the two nibble updates of [LCD_Set_Pixel] must achieve on a byte
    [old] for a palette index [c]; checked over all bytes and indices. *)
Definition nibble_update_ok (old c : Z) : bool :=
  let hi := wrap_u8 (Z.lor (Z.shiftl c 4) (Z.land old 0x0F)) in
  let lo := wrap_u8 (Z.lor c (Z.land old 0xF0)) in
  (Z.shiftr hi 4 =? c) && (Z.land hi 0x0F =? Z.land old 0x0F) &&
  (Z.land lo 0x0F =? c) && (Z.shiftr lo 4 =? Z.shiftr old 4) &&
  (Z.shiftr (Z.land old 0xF0) 4 =? Z.shiftr old 4).

Definition Z_range (n : Z) : list Z := map Z.of_nat (seq 0 (Z.to_nat n)).

(** * More of the code *)

(** ** Buzzer.c, the remaining entry points *)

Definition buzzer_is_running (cfg : Buzzer_cfg_t) : Z :=
  if pwm_started cfg then 1 else 0.

(** A note of [Buzzer_Note_t] is its frequency in Hz. *)
Definition buzzer_note (cfg : Buzzer_cfg_t) (note volume_percent : Z)
  : Buzzer_cfg_t :=
  buzzer_tone cfg (wrap_u32 note) volume_percent.

(** ** PWM.h / PWM.c *)

Record PWM_cfg_t : Type := mkPWM_cfg {
  pwm_htim : TIM_HandleTypeDef;
  pwm_tick_freq_hz : Z;
  pwm_min_freq_hz : Z;
  pwm_max_freq_hz : Z;
  pwm_setup_done : bool;
  pwm_running : bool;        (* the field [pwm_started] *)
  last_duty : Z }.

Definition PWM_Init (cfg : PWM_cfg_t) : PWM_cfg_t :=
  if pwm_setup_done cfg then cfg
  else mkPWM_cfg (pwm_htim cfg) (pwm_tick_freq_hz cfg) (pwm_min_freq_hz cfg)
                 (pwm_max_freq_hz cfg) true false 0.

Definition PWM_IsRunning (cfg : PWM_cfg_t) : Z :=
  if pwm_running cfg then 1 else 0.

Definition PWM_Off (cfg : PWM_cfg_t) : PWM_cfg_t :=
  let t := pwm_htim cfg in
  let t := if pwm_running cfg
           then mkTIM (tim_arr t) (tim_cnt t) 0 false else t in
  mkPWM_cfg t (pwm_tick_freq_hz cfg) (pwm_min_freq_hz cfg)
            (pwm_max_freq_hz cfg) (pwm_setup_done cfg) false 0.

Definition apply_duty_at_current_frequency (cfg : PWM_cfg_t)
    (duty_percent : Z) : PWM_cfg_t :=
  let t := pwm_htim cfg in
  let arr := tim_arr t in
  let top := wrap_u32 (arr + 1) in
  let duty_percent := wrap_u8 (clamp_u32 duty_percent 0 100) in
  let ccr := wrap_u32 (top * duty_percent) / 100 in
  let ccr := if arr <? ccr then arr else ccr in
  mkPWM_cfg (mkTIM (tim_arr t) (tim_cnt t) ccr (tim_pwm_on t))
            (pwm_tick_freq_hz cfg) (pwm_min_freq_hz cfg) (pwm_max_freq_hz cfg)
            (pwm_setup_done cfg) (pwm_running cfg) (last_duty cfg).

(** As in [buzzer_tone], a frequency clamped to 0 divides by zero in C and
    is 0 here. *)
Definition PWM_SetFreq (cfg : PWM_cfg_t) (freq_hz : Z) : PWM_cfg_t :=
  let cfg := if pwm_setup_done cfg then cfg else PWM_Init cfg in
  let freq_hz := clamp_u32 freq_hz (pwm_min_freq_hz cfg) (pwm_max_freq_hz cfg) in
  let arr := wrap_u32 (pwm_tick_freq_hz cfg / freq_hz - 1) in
  let arr := clamp_u32 arr 1 65535 in
  let t := pwm_htim cfg in
  let cfg := mkPWM_cfg (mkTIM arr 0 (tim_ccr t) (tim_pwm_on t))
                       (pwm_tick_freq_hz cfg) (pwm_min_freq_hz cfg)
                       (pwm_max_freq_hz cfg) (pwm_setup_done cfg)
                       (pwm_running cfg) (last_duty cfg) in
  if pwm_running cfg && (0 <? last_duty cfg)
  then apply_duty_at_current_frequency cfg (last_duty cfg)
  else cfg.

Definition PWM_SetDuty (cfg : PWM_cfg_t) (duty_percent : Z) : PWM_cfg_t :=
  let cfg := if pwm_setup_done cfg then cfg else PWM_Init cfg in
  if duty_percent =? 0 then PWM_Off cfg
  else
    let t := pwm_htim cfg in
    let t := if pwm_running cfg then t
             else mkTIM (tim_arr t) (tim_cnt t) (tim_ccr t) true in
    let cfg := mkPWM_cfg t (pwm_tick_freq_hz cfg) (pwm_min_freq_hz cfg)
                         (pwm_max_freq_hz cfg) (pwm_setup_done cfg)
                         true duty_percent in
    apply_duty_at_current_frequency cfg duty_percent.

Definition PWM_Set (cfg : PWM_cfg_t) (freq_hz duty_percent : Z) : PWM_cfg_t :=
  if (duty_percent =? 0) || (freq_hz =? 0) then PWM_Off cfg
  else PWM_SetDuty (PWM_SetFreq cfg freq_hz) duty_percent.

Definition PWM_SetTicks (cfg : PWM_cfg_t) (on_ticks off_ticks : Z)
  : PWM_cfg_t :=
  let cfg := if pwm_setup_done cfg then cfg else PWM_Init cfg in
  if on_ticks =? 0 then PWM_Off cfg
  else
    let on_ticks := clamp_u32 on_ticks 1 65535 in
    let off_ticks := clamp_u32 off_ticks 1 65535 in
    let total_ticks := wrap_u32 (on_ticks + off_ticks) in
    let arr := wrap_u32 (total_ticks - 1) in
    let arr := clamp_u32 arr 1 65535 in
    let t := pwm_htim cfg in
    let on := if pwm_running cfg then tim_pwm_on t else true in
    let ccr := clamp_u32 (wrap_u32 (on_ticks - 1)) 0 arr in
    let duty_percent_approx := wrap_u32 (100 * on_ticks) / total_ticks in
    mkPWM_cfg (mkTIM arr 0 ccr on)
              (pwm_tick_freq_hz cfg) (pwm_min_freq_hz cfg) (pwm_max_freq_hz cfg)
              (pwm_setup_done cfg) true
              (wrap_u8 (clamp_u32 duty_percent_approx 0 100)).

(** ** Joystick.c: normalisation *)

Definition f32_div : spec_float -> spec_float -> spec_float :=
  SFdiv f32_prec f32_emax.

(** [x], [y] are [int16_t], the centres [uint16_t]; a zero centre makes the
    division one by zero, as in the source. *)
Definition Joystick_GetCoord (x y center_x center_y : Z) : Vector2D :=
  let norm_x := f32_div (f32_of_Z x) (f32_of_Z center_x) in
  let norm_y := f32_div (f32_of_Z y) (f32_of_Z center_y) in
  let norm_x := if f32_lt (f32_of_Z 1) norm_x then f32_of_Z 1 else norm_x in
  let norm_x := if f32_lt norm_x (f32_of_Z (-1)) then f32_of_Z (-1) else norm_x in
  let norm_y := if f32_lt (f32_of_Z 1) norm_y then f32_of_Z 1 else norm_y in
  let norm_y := if f32_lt norm_y (f32_of_Z (-1)) then f32_of_Z (-1) else norm_y in
  mkVector2D norm_x (f32_neg norm_y).

(** ** LCD.c: clearing and filling *)

(** The 4 bytes of the [i]-th 32-bit word of the buffer. *)
Definition image_buffer_store_word (i v : Z) (s : LCD_t) : LCD_t :=
  image_buffer_store (4 * i + 3) v
    (image_buffer_store (4 * i + 2) v
       (image_buffer_store (4 * i + 1) v
          (image_buffer_store (4 * i) v s))).

Definition LCD_clear (s : LCD_t) : LCD_t :=
  fold_left (fun s i => image_buffer_store_word i 0 s)
            (Z_range (Z.shiftr BUFFER_LENGTH 2))
            (mark_all_rows s).

Definition LCD_Fill_Buffer (colour : Z) (s : LCD_t) : LCD_t :=
  fold_left (fun s i =>
               image_buffer_store i
                 (wrap_u8 (Z.lor colour (Z.shiftl colour 4))) s)
            (Z_range BUFFER_LENGTH)
            (mark_all_rows s).

(** ** LCD.c: lines, rectangles, circles *)

(** The values of a loop variable that runs from [a] to [b] inclusive. *)
Definition Z_interval (a b : Z) : list Z :=
  map (fun k => a + Z.of_nat k) (seq 0 (Z.to_nat (b - a + 1))).

(** All coordinates are [uint16_t]; the ranges are [int16_t]. *)
Definition LCD_Draw_Line (x0 y0 x1 y1 colour : Z) (s : LCD_t) : LCD_t :=
  let y_range := wrap_i16 (y1 - y0) in
  let x_range := wrap_i16 (x1 - x0) in
  if (x_range =? 0) && (y_range =? 0) then LCD_Set_Pixel x0 y0 colour s
  else if Z.abs y_range <? Z.abs x_range then
    let start := if 0 <? x_range then x0 else x1 in
    let stop := if 0 <? x_range then x1 else x0 in
    fold_left (fun s x =>
                 let dx := wrap_i16 (x - x0) in
                 let y := wrap_u16 (y0 + Z.quot (y_range * dx) x_range) in
                 LCD_Set_Pixel (wrap_u16 x) y colour s)
              (Z_interval start stop) s
  else
    let start := if 0 <? y_range then y0 else y1 in
    let stop := if 0 <? y_range then y1 else y0 in
    fold_left (fun s y =>
                 let dy := wrap_i16 (y - y0) in
                 let x := wrap_u16 (x0 + Z.quot (x_range * dy) y_range) in
                 LCD_Set_Pixel x (wrap_u16 y) colour s)
              (Z_interval start stop) s.

Definition LCD_Draw_Rect (x0 y0 width height colour fill : Z) (s : LCD_t)
  : LCD_t :=
  if negb (fill =? 0) then
    fold_left (fun s y =>
                 LCD_Draw_Line x0 (wrap_u16 y)
                               (wrap_u16 (x0 + (width - 1))) (wrap_u16 y)
                               colour s)
              (Z_interval y0 (y0 + height - 1)) s
  else
    let s := LCD_Draw_Line x0 y0 (wrap_u16 (x0 + (width - 1))) y0 colour s in
    let s := LCD_Draw_Line x0 (wrap_u16 (y0 + (height - 1)))
                           (wrap_u16 (x0 + (width - 1)))
                           (wrap_u16 (y0 + (height - 1))) colour s in
    let s := LCD_Draw_Line x0 y0 x0 (wrap_u16 (y0 + (height - 1))) colour s in
    LCD_Draw_Line (wrap_u16 (x0 + (width - 1))) y0
                  (wrap_u16 (x0 + (width - 1)))
                  (wrap_u16 (y0 + (height - 1))) colour s.

(** One pass through the body of the [while (x >= y)] loop. *)
Definition circle_body (x0 y0 colour fill x y : Z) (s : LCD_t) : LCD_t :=
  if fill =? 0 then
    let s := LCD_Set_Pixel (wrap_u16 (x + x0)) (wrap_u16 (y + y0)) colour s in
    let s := LCD_Set_Pixel (wrap_u16 (- x + x0)) (wrap_u16 (y + y0)) colour s in
    let s := LCD_Set_Pixel (wrap_u16 (y + x0)) (wrap_u16 (x + y0)) colour s in
    let s := LCD_Set_Pixel (wrap_u16 (- y + x0)) (wrap_u16 (x + y0)) colour s in
    let s := LCD_Set_Pixel (wrap_u16 (- y + x0)) (wrap_u16 (- x + y0)) colour s in
    let s := LCD_Set_Pixel (wrap_u16 (y + x0)) (wrap_u16 (- x + y0)) colour s in
    let s := LCD_Set_Pixel (wrap_u16 (x + x0)) (wrap_u16 (- y + y0)) colour s in
    LCD_Set_Pixel (wrap_u16 (- x + x0)) (wrap_u16 (- y + y0)) colour s
  else
    let s := LCD_Draw_Line (wrap_u16 (x + x0)) (wrap_u16 (y + y0))
                           (wrap_u16 (- x + x0)) (wrap_u16 (y + y0)) colour s in
    let s := LCD_Draw_Line (wrap_u16 (y + x0)) (wrap_u16 (x + y0))
                           (wrap_u16 (- y + x0)) (wrap_u16 (x + y0)) colour s in
    let s := LCD_Draw_Line (wrap_u16 (y + x0)) (wrap_u16 (- x + y0))
                           (wrap_u16 (- y + x0)) (wrap_u16 (- x + y0)) colour s in
    LCD_Draw_Line (wrap_u16 (x + x0)) (wrap_u16 (- y + y0))
                  (wrap_u16 (- x + x0)) (wrap_u16 (- y + y0)) colour s.

(** The [while (x >= y)] loop of the midpoint algorithm; [x - y] drops by
    at least 1 per pass, so [radius + 1] passes are always enough. *)
Fixpoint circle_loop (fuel : nat) (x0 y0 colour fill x y radiusError : Z)
    (s : LCD_t) : LCD_t :=
  match fuel with
  | O => s
  | Datatypes.S fuel =>
      if x <? y then s
      else
        let s := circle_body x0 y0 colour fill x y s in
        let y := y + 1 in
        if radiusError <? 0 then
          circle_loop fuel x0 y0 colour fill x y (radiusError + (2 * y + 1)) s
        else
          let x := x - 1 in
          circle_loop fuel x0 y0 colour fill x y
                      (radiusError + (2 * (y - x) + 1)) s
  end.

Definition LCD_Draw_Circle (x0 y0 radius colour fill : Z) (s : LCD_t) : LCD_t :=
  circle_loop (Datatypes.S (Z.to_nat radius)) x0 y0 colour fill
              radius 0 (1 - radius) s.

(** ** LCD.c: sprites *)

(** A sprite is the caller's array of [nrows * ncols] bytes, row by row; a
    read past its end has no meaning in C and yields 0 here. *)
Definition sprite_at (sprite : list Z) (i : Z) : Z :=
  default 0 (sprite !! Z.to_nat i).

Definition LCD_Draw_Sprite_Scaled (x0 y0 nrows ncols : Z) (sprite : list Z)
    (scale : Z) (s : LCD_t) : LCD_t :=
  if scale =? 0 then s
  else
    fold_left (fun s i =>
      fold_left (fun s j =>
        let pixel := sprite_at sprite (i * ncols + j) in
        if negb (pixel =? 255) then
          let base_x := wrap_u16 (x0 + j * scale) in
          let base_y := wrap_u16 (y0 + i * scale) in
          fold_left (fun s dy =>
            fold_left (fun s dx =>
              LCD_Set_Pixel (wrap_u16 (base_x + dx)) (wrap_u16 (base_y + dy))
                            (wrap_u8 pixel) s)
              (Z_range scale) s)
            (Z_range scale) s
        else s)
        (Z_range ncols) s)
      (Z_range nrows) s.

Definition LCD_Draw_Sprite (x0 y0 nrows ncols : Z) (sprite : list Z)
    (s : LCD_t) : LCD_t :=
  LCD_Draw_Sprite_Scaled x0 y0 nrows ncols sprite 1 s.

Definition LCD_Draw_Sprite_Colour (x0 y0 nrows ncols : Z) (sprite : list Z)
    (colour : Z) (s : LCD_t) : LCD_t :=
  fold_left (fun s i =>
    fold_left (fun s j =>
      let pixel := sprite_at sprite (i * ncols + j) in
      if negb (pixel =? 255) then
        LCD_Set_Pixel (wrap_u16 (x0 + j)) (wrap_u16 (y0 + i)) colour s
      else s)
      (Z_range ncols) s)
    (Z_range nrows) s.

Definition LCD_Draw_Sprite_Colour_Scaled (x0 y0 nrows ncols : Z)
    (sprite : list Z) (colour scale : Z) (s : LCD_t) : LCD_t :=
  if scale =? 0 then s
  else
    fold_left (fun s i =>
      fold_left (fun s j =>
        let pixel := sprite_at sprite (i * ncols + j) in
        if negb (pixel =? 255) then
          let base_x := wrap_u16 (x0 + j * scale) in
          let base_y := wrap_u16 (y0 + i * scale) in
          fold_left (fun s dy =>
            fold_left (fun s dx =>
              LCD_Set_Pixel (wrap_u16 (base_x + dx)) (wrap_u16 (base_y + dy))
                            colour s)
              (Z_range scale) s)
            (Z_range scale) s
        else s)
        (Z_range ncols) s)
      (Z_range nrows) s.

(** ** LCD.c: text *)

Definition font5x7_ : list Z :=
  [0x00; 0x00; 0x00; 0x00; 0x00; 0x00; 0x00; 0x5F; 0x00; 0x00;
   0x00; 0x07; 0x00; 0x07; 0x00; 0x14; 0x7F; 0x14; 0x7F; 0x14;
   0x24; 0x2A; 0x7F; 0x2A; 0x12; 0x23; 0x13; 0x08; 0x64; 0x62;
   0x36; 0x49; 0x55; 0x22; 0x50; 0x00; 0x05; 0x03; 0x00; 0x00;
   0x00; 0x1C; 0x22; 0x41; 0x00; 0x00; 0x41; 0x22; 0x1C; 0x00;
   0x08; 0x2A; 0x1C; 0x2A; 0x08; 0x08; 0x08; 0x3E; 0x08; 0x08;
   0x00; 0x50; 0x30; 0x00; 0x00; 0x08; 0x08; 0x08; 0x08; 0x08;
   0x00; 0x60; 0x60; 0x00; 0x00; 0x20; 0x10; 0x08; 0x04; 0x02;
   0x3E; 0x51; 0x49; 0x45; 0x3E; 0x00; 0x42; 0x7F; 0x40; 0x00;
   0x42; 0x61; 0x51; 0x49; 0x46; 0x21; 0x41; 0x45; 0x4B; 0x31;
   0x18; 0x14; 0x12; 0x7F; 0x10; 0x27; 0x45; 0x45; 0x45; 0x39;
   0x3C; 0x4A; 0x49; 0x49; 0x30; 0x01; 0x71; 0x09; 0x05; 0x03;
   0x36; 0x49; 0x49; 0x49; 0x36; 0x06; 0x49; 0x49; 0x29; 0x1E;
   0x00; 0x36; 0x36; 0x00; 0x00; 0x00; 0x56; 0x36; 0x00; 0x00;
   0x00; 0x08; 0x14; 0x22; 0x41; 0x14; 0x14; 0x14; 0x14; 0x14;
   0x41; 0x22; 0x14; 0x08; 0x00; 0x02; 0x01; 0x51; 0x09; 0x06;
   0x32; 0x49; 0x79; 0x41; 0x3E; 0x7E; 0x11; 0x11; 0x11; 0x7E;
   0x7F; 0x49; 0x49; 0x49; 0x36; 0x3E; 0x41; 0x41; 0x41; 0x22;
   0x7F; 0x41; 0x41; 0x22; 0x1C; 0x7F; 0x49; 0x49; 0x49; 0x41;
   0x7F; 0x09; 0x09; 0x01; 0x01; 0x3E; 0x41; 0x41; 0x51; 0x32;
   0x7F; 0x08; 0x08; 0x08; 0x7F; 0x00; 0x41; 0x7F; 0x41; 0x00;
   0x20; 0x40; 0x41; 0x3F; 0x01; 0x7F; 0x08; 0x14; 0x22; 0x41;
   0x7F; 0x40; 0x40; 0x40; 0x40; 0x7F; 0x02; 0x04; 0x02; 0x7F;
   0x7F; 0x04; 0x08; 0x10; 0x7F; 0x3E; 0x41; 0x41; 0x41; 0x3E;
   0x7F; 0x09; 0x09; 0x09; 0x06; 0x3E; 0x41; 0x51; 0x21; 0x5E;
   0x7F; 0x09; 0x19; 0x29; 0x46; 0x46; 0x49; 0x49; 0x49; 0x31;
   0x01; 0x01; 0x7F; 0x01; 0x01; 0x3F; 0x40; 0x40; 0x40; 0x3F;
   0x1F; 0x20; 0x40; 0x20; 0x1F; 0x7F; 0x20; 0x18; 0x20; 0x7F;
   0x63; 0x14; 0x08; 0x14; 0x63; 0x03; 0x04; 0x78; 0x04; 0x03;
   0x61; 0x51; 0x49; 0x45; 0x43; 0x00; 0x00; 0x7F; 0x41; 0x41;
   0x02; 0x04; 0x08; 0x10; 0x20; 0x41; 0x41; 0x7F; 0x00; 0x00;
   0x04; 0x02; 0x01; 0x02; 0x04; 0x40; 0x40; 0x40; 0x40; 0x40;
   0x00; 0x01; 0x02; 0x04; 0x00; 0x20; 0x54; 0x54; 0x54; 0x78;
   0x7F; 0x48; 0x44; 0x44; 0x38; 0x38; 0x44; 0x44; 0x44; 0x20;
   0x38; 0x44; 0x44; 0x48; 0x7F; 0x38; 0x54; 0x54; 0x54; 0x18;
   0x08; 0x7E; 0x09; 0x01; 0x02; 0x08; 0x14; 0x54; 0x54; 0x3C;
   0x7F; 0x08; 0x04; 0x04; 0x78; 0x00; 0x44; 0x7D; 0x40; 0x00;
   0x20; 0x40; 0x44; 0x3D; 0x00; 0x00; 0x7F; 0x10; 0x28; 0x44;
   0x00; 0x41; 0x7F; 0x40; 0x00; 0x7C; 0x04; 0x18; 0x04; 0x78;
   0x7C; 0x08; 0x04; 0x04; 0x78; 0x38; 0x44; 0x44; 0x44; 0x38;
   0x7C; 0x14; 0x14; 0x14; 0x08; 0x08; 0x14; 0x14; 0x18; 0x7C;
   0x7C; 0x08; 0x04; 0x04; 0x08; 0x48; 0x54; 0x54; 0x54; 0x20;
   0x04; 0x3F; 0x44; 0x40; 0x20; 0x3C; 0x40; 0x40; 0x20; 0x7C;
   0x1C; 0x20; 0x40; 0x20; 0x1C; 0x3C; 0x40; 0x30; 0x40; 0x3C;
   0x44; 0x28; 0x10; 0x28; 0x44; 0x0C; 0x50; 0x50; 0x50; 0x3C;
   0x44; 0x64; 0x54; 0x4C; 0x44; 0x00; 0x08; 0x36; 0x41; 0x00;
   0x00; 0x00; 0x7F; 0x00; 0x00; 0x00; 0x41; 0x36; 0x08; 0x00;
   0x08; 0x08; 0x2A; 0x1C; 0x08; 0x08; 0x1C; 0x2A; 0x08; 0x08].

(** [font5x7_[i]].  The index is not checked: for a character outside
    32..127 it leaves the 480 bytes of the table and the read lands on
    the bytes that lie next to it in memory; [flash i] is the byte at
    offset [i] from the start of the table. *)
Definition font_at (flash : Z -> Z) (i : Z) : Z :=
  match font5x7_ !! Z.to_nat i with
  | Some b => if i <? 0 then flash i else b
  | None => flash i
  end.

(** The columns of one glyph, left to right, until the first one that
    falls off the right edge ([break]). *)
Fixpoint printChar_columns (flash : Z -> Z) (cols : list Z)
    (c x y colour : Z) (s : LCD_t) : LCD_t :=
  match cols with
  | [] => s
  | i :: rest =>
      let pixel_x := x + i in
      if ST7789V2_WIDTH - 1 <? pixel_x then s
      else
        let s :=
          fold_left (fun s j =>
            if negb (Z.land (font_at flash ((c - 32) * 5 + i))
                            (Z.shiftl 1 j) =? 0)
            then LCD_Set_Pixel (wrap_u16 pixel_x) (wrap_u16 (y + j)) colour s
            else s)
            (Z_range 7) s in
        printChar_columns flash rest c x y colour s
  end.

(** [c] is a [char], unsigned on this target. *)
Definition LCD_printChar (flash : Z -> Z) (c x y colour : Z) (s : LCD_t)
  : LCD_t :=
  if (x <? ST7789V2_WIDTH) && (y <? ST7789V2_HEIGHT)
  then printChar_columns flash (Z_range 5) c x y colour s
  else s.

(** ** Ball.c, Paddle.c, PongEngine.c: drawing *)

Definition Ball_Draw (b : Ball_t) (s : LCD_t) : LCD_t :=
  LCD_Draw_Circle (wrap_u16 (ball_x b + Z.quot (ball_size b) 2))
                  (wrap_u16 (ball_y b + Z.quot (ball_size b) 2))
                  (wrap_u16 (Z.quot (ball_size b) 2))
                  15 1 s.

Definition Paddle_Draw (p : Paddle_t) (s : LCD_t) : LCD_t :=
  LCD_Draw_Rect (wrap_u16 (paddle_x p)) (wrap_u16 (paddle_y p))
                (wrap_u16 (paddle_width p)) (wrap_u16 (paddle_height p))
                15 1 s.

Definition PongEngine_Draw (engine : PongEngine_t) (s : LCD_t) : LCD_t :=
  Paddle_Draw (paddle engine) (Ball_Draw (ball engine) s).

(** A binary32 value in canonical form. *)
Definition f32_valid (f : spec_float) : bool := valid_binary f32_prec f32_emax f.

Definition f32_is_nan (f : spec_float) : bool :=
  match f with S754_nan => true | _ => false end.

(** [f] holds at [z], [z + 1], ..., [z + n - 1]. *)
Fixpoint all_from (f : Z -> bool) (n : nat) (z : Z) : bool :=
  match n with
  | O => true
  | Datatypes.S k => f z && all_from f k (z + 1)
  end.

(** The largest value of the 12-bit ADC ([JOYSTICK_MAX_VALUE]). *)
Definition JOYSTICK_MAX_VALUE : Z := 4095.

(** The tests behind the exhaustive checks on [Joystick_GetCoord]. *)
Definition rest_coord_ok (c : Z) : bool :=
  match f32_div (f32_of_Z 0) (f32_of_Z c) with
  | S754_zero false => true
  | _ => false
  end.

Definition zero_centre_ok (x : Z) : bool :=
  let r := vec_x (Joystick_GetCoord x 0 0 0) in
  if x =? 0 then f32_is_nan r
  else if 0 <? x then
    match SFcompare r (f32_of_Z 1) with Some Eq => true | _ => false end
  else
    match SFcompare r (f32_of_Z (-1)) with Some Eq => true | _ => false end.

(** ** Vocabulary for drawing *)

Definition on_screen (x y : Z) : Prop :=
  0 <= x < ST7789V2_WIDTH /\ 0 <= y < ST7789V2_HEIGHT.

(** [LCD_Set_Pixel] with one colour at each point of a list, in order. *)
Definition paint_list (pts : list (Z * Z)) (colour : Z) (s : LCD_t) : LCD_t :=
  fold_left (fun s p => LCD_Set_Pixel (fst p) (snd p) colour s) pts s.

(** [s'] is [s] with exactly the on-screen pixels of [R] set to [colour]:
    those cells hold [colour], every other cell is as before, exactly the
    rows that meet [R] got their dirty flag set, and nothing outside the
    two arrays was touched. *)
Definition painted_exactly (R : Z -> Z -> Prop) (colour : Z) (s s' : LCD_t)
  : Prop :=
  lcd_wf s' /\ faults s' = faults s /\ colour_map s' = colour_map s /\
  (forall x y, on_screen x y -> R x y ->
     refresh_cell (image_buffer s') x y = colour) /\
  (forall x y, on_screen x y -> ~ R x y ->
     refresh_cell (image_buffer s') x y = refresh_cell (image_buffer s) x y) /\
  (forall r : nat, (exists x, R x (Z.of_nat r)) ->
     track_changes s' !! r = Some 1) /\
  (forall r : nat, (forall x, ~ R x (Z.of_nat r)) ->
     track_changes s' !! r = track_changes s !! r).

(** [s'] is [s] with some on-screen pixels of [R] set to [colour]. *)
Definition painted_within (R : Z -> Z -> Prop) (colour : Z) (s s' : LCD_t)
  : Prop :=
  lcd_wf s' /\ faults s' = faults s /\ colour_map s' = colour_map s /\
  (forall x y, on_screen x y ->
     refresh_cell (image_buffer s') x y = refresh_cell (image_buffer s) x y \/
     (R x y /\ refresh_cell (image_buffer s') x y = colour)) /\
  (forall r : nat,
     track_changes s' !! r = track_changes s !! r \/
     ((exists x, R x (Z.of_nat r)) /\ track_changes s' !! r = Some 1)).

(** The pixels one pass of the circle loop sets, in the order it sets
    them, when every one of them is on the screen. *)
Definition circle_body_points (x0 y0 fill x y : Z) : list (Z * Z) :=
  if fill =? 0 then
    [(x + x0, y + y0); (- x + x0, y + y0); (y + x0, x + y0); (- y + x0, x + y0);
     (- y + x0, - x + y0); (y + x0, - x + y0); (x + x0, - y + y0);
     (- x + x0, - y + y0)]
  else
    map (fun t => (t, y + y0)) (Z_interval (- x + x0) (x + x0)) ++
    map (fun t => (t, x + y0)) (Z_interval (- y + x0) (y + x0)) ++
    map (fun t => (t, - x + y0)) (Z_interval (- y + x0) (y + x0)) ++
    map (fun t => (t, - y + y0)) (Z_interval (- x + x0) (x + x0)).

(** [(x, y)] is at most [sqrt (r * r + r)], that is less than [r + 1/2],
    away from [(x0, y0)]. *)
Definition in_disc (x0 y0 r x y : Z) : Prop :=
  (x - x0) * (x - x0) + (y - y0) * (y - y0) <= r * r + r.

(** Pixel [(x, y)] lies in the [scale] by [scale] block that stands for an
    opaque entry of the sprite when it is drawn at [(x0, y0)]. *)
Definition in_sprite (x0 y0 nrows ncols : Z) (sprite : list Z) (scale : Z)
    (x y : Z) : Prop :=
  exists i j, 0 <= i < nrows /\ 0 <= j < ncols /\
    sprite_at sprite (i * ncols + j) <> 255 /\
    x0 + j * scale <= x < x0 + (j + 1) * scale /\
    y0 + i * scale <= y < y0 + (i + 1) * scale.

(** The pixels [LCD_Draw_Sprite_Colour_Scaled] sets, in the order it sets
    them, when every one of them is on the screen. *)
Definition sprite_points (x0 y0 nrows ncols : Z) (sprite : list Z)
    (scale : Z) : list (Z * Z) :=
  flat_map (fun i =>
    flat_map (fun j =>
      if negb (sprite_at sprite (i * ncols + j) =? 255) then
        flat_map (fun dy =>
          map (fun dx => (x0 + j * scale + dx, y0 + i * scale + dy))
              (Z_range scale))
          (Z_range scale)
      else [])
      (Z_range ncols))
    (Z_range nrows).

(** ** LCD.c: strings *)





(** Pixel [(px, py)] belongs to the glyph of [c] drawn with its top left
    corner at [(x, y)]: byte [(c - 32) * 5 + i] of the font table, the
    glyph's column [i], has bit [j] set. *)
Definition in_glyph (c x y px py : Z) : Prop :=
  exists i j b, 0 <= i < 5 /\ 0 <= j < 7 /\ px = x + i /\ py = y + j /\
    font5x7_ !! Z.to_nat ((c - 32) * 5 + i) = Some b /\
    Z.testbit b j = true.

Definition glyph_points (flash : Z -> Z) (c x y : Z) : list (Z * Z) :=
  flat_map (fun i =>
    flat_map (fun j =>
      if negb (Z.land (font_at flash ((c - 32) * 5 + i)) (Z.shiftl 1 j) =? 0)
      then [(x + i, y + j)] else [])
      (Z_range 7))
    (Z_range 5).

(** * Properties *)

(** ** Comparisons of binary32 values *)

Lemma SFcompare_antisym (a b : spec_float) (c : comparison) :
  SFcompare a b = Some c -> SFcompare b a = Some (CompOpp c).
Proof.
  destruct a as [sa|sa| |sa ma ea], b as [sb|sb| |sb mb eb]; simpl;
    try discriminate;
    try (destruct sa; intros [= <-]; reflexivity);
    try (destruct sb; intros [= <-]; reflexivity);
    try (intros [= <-]; reflexivity).
  - destruct sa, sb; intros [= <-]; reflexivity.
  - destruct sa, sb; intros [= <-]; try reflexivity;
      rewrite (Z.compare_antisym ea eb);
      destruct (ea ?= eb); simpl; try reflexivity;
      rewrite (Pos.compare_cont_antisym ma mb Eq); reflexivity.
Qed.

Lemma f32_ge_not_lt (a b : spec_float) :
  f32_ge a b = true -> f32_lt a b = false.
Proof.
  unfold f32_ge, f32_lt, SFleb, SFltb.
  destruct (SFcompare b a) as [c|] eqn:Hc; [|discriminate].
  rewrite (SFcompare_antisym _ _ _ Hc).
  destruct c; simpl; congruence.
Qed.

(** The order of binary32 values is transitive. *)
Lemma SFcompare_lt_trans (a b c : spec_float) :
  SFcompare a b = Some Lt -> SFcompare b c = Some Lt ->
  SFcompare a c = Some Lt.
Proof.
  destruct a as [sa|sa| |sa ma ea], b as [sb|sb| |sb mb eb],
    c as [sc|sc| |sc mc ec]; cbn [SFcompare];
    try discriminate;
    try (destruct sa; try discriminate; try reflexivity;
         destruct sb; try discriminate; try reflexivity;
         destruct sc; try discriminate; reflexivity);
    try (destruct sa, sb; try discriminate; try reflexivity;
         destruct sc; try discriminate; reflexivity);
    try (destruct sa, sc; try discriminate; try reflexivity;
         destruct sb; try discriminate; reflexivity);
    try (destruct sb, sc; try discriminate; try reflexivity;
         destruct sa; try discriminate; reflexivity).
  all: destruct sa, sb, sc; try discriminate; try reflexivity.
  all: rewrite ?Pos.compare_cont_spec;
    destruct (Z.compare_spec ea eb), (Z.compare_spec eb ec),
      (Z.compare_spec ea ec); try discriminate; try reflexivity; try lia;
    subst; rewrite ?Pos.compare_cont_spec;
    destruct (Pos.compare_spec ma mb), (Pos.compare_spec mb mc),
      (Pos.compare_spec ma mc); cbn [CompOpp Pos.switch_Eq];
      try discriminate; try reflexivity; try lia.
Qed.

Lemma f32_lt_trans (a b c : spec_float) :
  f32_lt a b = true -> f32_lt b c = true -> f32_lt a c = true.
Proof.
  unfold f32_lt, SFltb. intros Hab Hbc.
  destruct (SFcompare a b) as [[]|] eqn:H1; try discriminate.
  destruct (SFcompare b c) as [[]|] eqn:H2; try discriminate.
  rewrite (SFcompare_lt_trans a b c H1 H2). reflexivity.
Qed.

Lemma f32_lt_not_ge (a b : spec_float) :
  f32_lt a b = true -> f32_ge a b = false.
Proof.
  intros Hlt. destruct (f32_ge a b) eqn:Hge; [|reflexivity].
  rewrite (f32_ge_not_lt a b Hge) in Hlt. discriminate.
Qed.

(** For edges [c0 < c1]: an angle below [c0] is not at or above [c1], and
    an angle at or above [c1] is not below [c0]. *)
Lemma f32_below_not_above (a c0 c1 : spec_float) :
  f32_lt c0 c1 = true -> f32_lt a c0 = true -> f32_ge a c1 = false.
Proof.
  intros Hc Ha. apply f32_lt_not_ge. exact (f32_lt_trans a c0 c1 Ha Hc).
Qed.

Lemma f32_above_not_below (a c0 c1 : spec_float) :
  f32_lt c0 c1 = true -> f32_ge a c1 = true -> f32_lt a c0 = false.
Proof.
  intros Hc Ha. destruct (f32_lt a c0) eqn:Hlt; [|reflexivity].
  rewrite (f32_below_not_above a c0 c1 Hc Hlt) in Ha. discriminate.
Qed.

(** Rewriting the tests of the if-chain from what is known of [a]. *)
Ltac edge_lt a c :=
  first
    [ match goal with H : f32_lt a c = true |- _ => rewrite H end
    | match goal with H : f32_ge a c = true |- _ =>
        rewrite (f32_ge_not_lt a c H) end
    | match goal with H : f32_ge a ?c1 = true |- _ =>
        rewrite (f32_above_not_below a c c1 ltac:(vm_compute; reflexivity) H)
      end
    | match goal with H : f32_lt a ?c0 = true |- _ =>
        rewrite (f32_lt_trans a c0 c H ltac:(vm_compute; reflexivity))
      end ].

Ltac edge_ge a c :=
  first
    [ match goal with H : f32_ge a c = true |- _ => rewrite H end
    | match goal with H : f32_lt a c = true |- _ =>
        rewrite (f32_lt_not_ge a c H) end
    | match goal with H : f32_lt a ?c0 = true |- _ =>
        rewrite (f32_below_not_above a c0 c ltac:(vm_compute; reflexivity) H)
      end ].

Ltac bucket a :=
  repeat match goal with
         | |- context [f32_lt a ?c] => edge_lt a c
         | |- context [f32_ge a ?c] => edge_ge a c
         end;
  rewrite ?andb_false_r, ?orb_true_r; cbn [orb andb]; reflexivity.

(** ** Joystick: direction buckets *)

Section Direction_buckets.

Variable m : spec_float.
Hypothesis Hm : f32_ge m (f32_lit 5 100) = true.

Lemma GetDirection_deflected (a : spec_float) :
  f32_lt a (f32_of_Z 0) = false ->
  Joystick_GetDirection a m =
    if f32_ge a (f32_lit 3375 10) || f32_lt a (f32_lit 225 10) then N
    else if f32_ge a (f32_lit 225 10) && f32_lt a (f32_lit 675 10) then NE
    else if f32_ge a (f32_lit 675 10) && f32_lt a (f32_lit 1125 10) then E
    else if f32_ge a (f32_lit 1125 10) && f32_lt a (f32_lit 1575 10) then SE
    else if f32_ge a (f32_lit 1575 10) && f32_lt a (f32_lit 2025 10) then S
    else if f32_ge a (f32_lit 2025 10) && f32_lt a (f32_lit 2475 10) then SW
    else if f32_ge a (f32_lit 2475 10) && f32_lt a (f32_lit 2925 10) then W
    else NW.
Proof using Hm.
  intros Ha. unfold Joystick_GetDirection.
  rewrite Ha, (f32_ge_not_lt _ _ Hm). reflexivity.
Qed.

End Direction_buckets.

Lemma GetDirection_small_magnitude (a m : spec_float) :
  f32_lt m (f32_lit 5 100) = true -> Joystick_GetDirection a m = CENTRE.
Proof.
  intros Hm. unfold Joystick_GetDirection. rewrite Hm, orb_true_r. reflexivity.
Qed.

(** C6, as the claim states it, fails: at 44 degrees and full deflection
    the direction is NE, not N. *)
Lemma GetDirection_44_is_not_N :
  Joystick_GetDirection (f32_of_Z 44) (f32_of_Z 1) <> N.
Proof. vm_compute. discriminate. Qed.

(** C6 (amended): for every magnitude of at least 0.05 and every angle of
    at least 0, the direction is the compass point whose 45 degree bucket
    holds the angle: N below 22.5 and from 337.5 on, NE on [22.5, 67.5),
    E on [67.5, 112.5), SE on [112.5, 157.5), S on [157.5, 202.5), SW on
    [202.5, 247.5), W on [247.5, 292.5) and NW on [292.5, 337.5), the
    eight edges being exactly 22.5, 67.5, ..., 337.5.  So the angles 0 and
    359 give N while 44 and 46 both give NE, and the centres of the other
    buckets give E, SE, S, SW, W and NW.  Every magnitude below 0.05, 0.03
    in particular, gives CENTRE for every angle. *)
Theorem GetDirection_buckets (a m : spec_float) :
  f32_ge m (f32_lit 5 100) = true ->
  (f32_ge a (f32_of_Z 0) = true ->
   let d := Joystick_GetDirection a m in
   (f32_lt a (f32_lit 225 10) = true \/ f32_ge a (f32_lit 3375 10) = true ->
    d = N) /\
   (f32_ge a (f32_lit 225 10) = true -> f32_lt a (f32_lit 675 10) = true ->
    d = NE) /\
   (f32_ge a (f32_lit 675 10) = true -> f32_lt a (f32_lit 1125 10) = true ->
    d = E) /\
   (f32_ge a (f32_lit 1125 10) = true -> f32_lt a (f32_lit 1575 10) = true ->
    d = SE) /\
   (f32_ge a (f32_lit 1575 10) = true -> f32_lt a (f32_lit 2025 10) = true ->
    d = S) /\
   (f32_ge a (f32_lit 2025 10) = true -> f32_lt a (f32_lit 2475 10) = true ->
    d = SW) /\
   (f32_ge a (f32_lit 2475 10) = true -> f32_lt a (f32_lit 2925 10) = true ->
    d = W) /\
   (f32_ge a (f32_lit 2925 10) = true -> f32_lt a (f32_lit 3375 10) = true ->
    d = NW)) /\
  (f32_is (f32_lit 225 10) 45 2 /\ f32_is (f32_lit 675 10) 135 2 /\
   f32_is (f32_lit 1125 10) 225 2 /\ f32_is (f32_lit 1575 10) 315 2 /\
   f32_is (f32_lit 2025 10) 405 2 /\ f32_is (f32_lit 2475 10) 495 2 /\
   f32_is (f32_lit 2925 10) 585 2 /\ f32_is (f32_lit 3375 10) 675 2) /\
  (Joystick_GetDirection (f32_of_Z 0) m = N /\
   Joystick_GetDirection (f32_of_Z 22) m = N /\
   Joystick_GetDirection (f32_of_Z 44) m = NE /\
   Joystick_GetDirection (f32_of_Z 46) m = NE /\
   Joystick_GetDirection (f32_of_Z 90) m = E /\
   Joystick_GetDirection (f32_of_Z 135) m = SE /\
   Joystick_GetDirection (f32_of_Z 180) m = S /\
   Joystick_GetDirection (f32_of_Z 225) m = SW /\
   Joystick_GetDirection (f32_of_Z 270) m = W /\
   Joystick_GetDirection (f32_of_Z 315) m = NW /\
   Joystick_GetDirection (f32_of_Z 359) m = N) /\
  (forall a' m', f32_lt m' (f32_lit 5 100) = true ->
     Joystick_GetDirection a' m' = CENTRE) /\
  (forall a', Joystick_GetDirection a' (f32_lit 3 100) = CENTRE).
Proof.
  intros Hm. split; [|split; [|split; [|split]]].
  - intros Ha. cbv zeta.
    rewrite (GetDirection_deflected m Hm a (f32_ge_not_lt _ _ Ha)).
    clear Hm Ha.
    repeat split.
    + intros [Hlo | Hhi]; bucket a.
    + intros Hlo Hhi; bucket a.
    + intros Hlo Hhi; bucket a.
    + intros Hlo Hhi; bucket a.
    + intros Hlo Hhi; bucket a.
    + intros Hlo Hhi; bucket a.
    + intros Hlo Hhi; bucket a.
    + intros Hlo Hhi; bucket a.
  - repeat split; vm_compute; try reflexivity; discriminate.
  - repeat split;
      (rewrite (GetDirection_deflected m Hm); [vm_compute|]; reflexivity).
  - intros a' m'. apply GetDirection_small_magnitude.
  - intros a'. apply GetDirection_small_magnitude. vm_compute. reflexivity.
Qed.

Lemma GetDirection_buckets_witness :
  Joystick_GetDirection (f32_of_Z 44) (f32_of_Z 1) = NE.
Proof.
  destruct (GetDirection_buckets (f32_of_Z 44) (f32_of_Z 1))
    as ((_ & Hne & _) & _).
  - vm_compute. reflexivity.
  - vm_compute. reflexivity.
  - apply Hne; vm_compute; reflexivity.
Defined.

(** ** Wrap-around is the identity inside the range *)

Lemma wrap_i16_id (z : Z) : in_i16 z -> wrap_i16 z = z.
Proof.
  unfold in_i16, wrap_i16. intros H.
  rewrite Z.mod_small by lia. lia.
Qed.

Lemma wrap_i16_range (z : Z) : in_i16 (wrap_i16 z).
Proof.
  unfold in_i16, wrap_i16.
  pose proof (Z.mod_pos_bound (z + 32768) 65536). lia.
Qed.

Lemma wrap_u8_range (z : Z) : 0 <= wrap_u8 z <= 255.
Proof. unfold wrap_u8. pose proof (Z.mod_pos_bound z 256). lia. Qed.

(** ** Paddle: the clamp *)

Lemma Paddle_Update_frame (p : Paddle_t) (input : UserInput) :
  same_paddle_but_y p (Paddle_Update p input).
Proof.
  unfold same_paddle_but_y, Paddle_Update.
  repeat match goal with |- context [if ?b then _ else _] => destruct b end;
    simpl; repeat split; reflexivity.
Qed.

Lemma Paddle_Update_clamps (p : Paddle_t) (input : UserInput) :
  paddle_sane p -> paddle_on_screen (Paddle_Update p input).
Proof.
  unfold paddle_sane, paddle_on_screen, Paddle_Update, SCREEN_HEIGHT.
  destruct p as [x y w h s sc]; simpl. intros (Hh & Hs & Hlo & Hhi).
  assert (Hclamp : forall y1, -32768 <= y1 -> y1 + h <= 32767 ->
    let q := mkPaddle x y1 w h s sc in
    let q := if paddle_y q <? 0 then paddle_set_y q 0 else q in
    let q := if 240 <? wrap_i16 (paddle_y q + paddle_height q)
             then paddle_set_y q (wrap_i16 (240 - paddle_height q)) else q in
    0 <= paddle_y q /\ paddle_y q + paddle_height q <= 240).
  { intros y1 Hy1 Hy2. simpl.
    destruct (Z.ltb_spec y1 0); simpl;
      rewrite wrap_i16_id by (unfold in_i16; lia);
      match goal with
      | |- context [?a <? ?b] => destruct (Z.ltb_spec a b); simpl
      end;
      try rewrite wrap_i16_id by (unfold in_i16; lia); lia. }
  destruct (moves_up (direction input)); [|destruct (moves_down (direction input))].
  - rewrite (wrap_i16_id (y - s)) by (unfold in_i16; lia).
    apply (Hclamp (y - s)); simpl; lia.
  - rewrite (wrap_i16_id (y + s)) by (unfold in_i16; lia).
    apply (Hclamp (y + s)); simpl; lia.
  - apply (Hclamp y); simpl; lia.
Qed.

Lemma paddle_on_screen_sane (p : Paddle_t) :
  0 <= paddle_height p ->
  Z.abs (paddle_speed p) <= 32767 - SCREEN_HEIGHT ->
  paddle_on_screen p -> paddle_sane p.
Proof. unfold paddle_on_screen, paddle_sane, SCREEN_HEIGHT. lia. Qed.

(** C2, as the claim states it, fails for a paddle taller than the screen
    (no position can satisfy both bounds) and for a paddle so far down that
    the 16-bit [paddle_bottom] wraps and the clamp does not fire. *)
Lemma Paddle_clamp_fails_off_range :
  ~ 0 <= paddle_y (Paddle_Update (mkPaddle 10 0 5 300 6 0)
                                 (mkUserInput CENTRE (f32_of_Z 0) (f32_of_Z (-1))))
  /\
  ~ paddle_y (Paddle_Update (mkPaddle 10 32760 5 40 6 0)
                            (mkUserInput S (f32_of_Z 1) (f32_of_Z 180)))
    + 40 <= SCREEN_HEIGHT.
Proof. split; vm_compute; intros H; apply H; reflexivity. Qed.

(** C2 (amended): for every paddle with [0 <= height <= 240], a speed of
    magnitude at most [32767 - 240] and a position from which one move
    cannot leave the 16-bit range, after each update of any sequence of
    inputs [0 <= y] and [y + height <= 240]; the updates change [y] only,
    never the width, the height, [x], the speed or the score. *)
Theorem Paddle_Update_invariant (inputs : list UserInput) (i : UserInput)
    (p : Paddle_t) :
  paddle_sane p ->
  let q := fold_left Paddle_Update (inputs ++ [i]) p in
  paddle_on_screen q /\ same_paddle_but_y p q.
Proof.
  revert p. induction inputs as [|j inputs IH]; intros p Hp; simpl.
  - split; [apply Paddle_Update_clamps; exact Hp | apply Paddle_Update_frame].
  - pose proof (Paddle_Update_frame p j) as (Hx & Hw & Hh & Hs & Hc).
    pose proof (Paddle_Update_clamps p j Hp) as Hon.
    assert (Hq : paddle_sane (Paddle_Update p j)).
    { destruct Hp as (H1 & H2 & _).
      apply paddle_on_screen_sane; [rewrite Hh; lia | rewrite Hs; exact H2 | exact Hon]. }
    destruct (IH _ Hq) as (IH1 & IH2). split; [exact IH1|].
    unfold same_paddle_but_y in *. intuition congruence.
Qed.

Lemma Paddle_Update_invariant_witness :
  let p := Paddle_Init 10 100 5 40 6 in
  let up := mkUserInput N (f32_of_Z 1) (f32_of_Z 0) in
  paddle_sane p /\
  paddle_on_screen (fold_left Paddle_Update (repeat up 20 ++ [up]) p).
Proof.
  assert (H : paddle_sane (Paddle_Init 10 100 5 40 6)).
  { unfold paddle_sane, SCREEN_HEIGHT. simpl. lia. }
  split; [exact H|].
  apply (Paddle_Update_invariant
           (repeat (mkUserInput N (f32_of_Z 1) (f32_of_Z 0)) 20)
           (mkUserInput N (f32_of_Z 1) (f32_of_Z 0)) _ H).
Defined.

(** ** The one-shot beep *)

Lemma Beep_world (freq : Z) (w : World) :
  exec (PongEngine_Beep freq) w =
    mkWorld (buzzer_tone (buzzer_cfg w) freq BUZZER_VOLUME)
            (wrap_u32 (wrap_u32 (hal_tick w (tick_reads w)) + BUZZER_BEEP_MS))
            (hal_tick w) (Datatypes.S (tick_reads w))
            (hal_rng w) (rng_reads w).
Proof. reflexivity. Qed.

Lemma buzzer_tone_starts (cfg : Buzzer_cfg_t) (freq vol : Z) :
  freq <> 0 -> vol <> 0 -> pwm_started (buzzer_tone cfg freq vol) = true.
Proof.
  intros Hf Hv. unfold buzzer_tone.
  destruct (Z.eqb_spec vol 0); [contradiction|].
  destruct (Z.eqb_spec freq 0); [contradiction|].
  reflexivity.
Qed.

Lemma UpdateBuzzer_idle (w : World) :
  buzzer_stop_tick w = 0 -> PongEngine_UpdateBuzzer w = (tt, w).
Proof.
  intros H. unfold PongEngine_UpdateBuzzer, bind, get_stop_tick.
  rewrite H. reflexivity.
Qed.

(** While a deadline other than 0 is recorded, the tick reads the time once
    and silences the tone exactly when the signed difference to the
    deadline is not negative. *)
Lemma UpdateBuzzer_pending (w : World) :
  buzzer_stop_tick w <> 0 ->
  let now := wrap_u32 (hal_tick w (tick_reads w)) in
  exec PongEngine_UpdateBuzzer w =
    if 0 <=? wrap_i32 (now - buzzer_stop_tick w) then
      mkWorld (buzzer_off (buzzer_cfg w)) 0
              (hal_tick w) (Datatypes.S (tick_reads w)) (hal_rng w) (rng_reads w)
    else
      mkWorld (buzzer_cfg w) (buzzer_stop_tick w)
              (hal_tick w) (Datatypes.S (tick_reads w)) (hal_rng w) (rng_reads w).
Proof.
  intros H now.
  unfold exec, PongEngine_UpdateBuzzer, bind, get_stop_tick.
  destruct (Z.eqb_spec (buzzer_stop_tick w) 0); [contradiction|].
  unfold HAL_GetTick. fold now.
  destruct (0 <=? wrap_i32 (now - buzzer_stop_tick w)); reflexivity.
Qed.

(** C10 (the code at the failing input): a beep triggered when the tick
    counter reads [2^32 - 40] starts the tone and records the deadline 0,
    which is also the marker for no pending beep: no later tick, whatever
    the time, ever silences the tone. *)
Theorem Beep_deadline_zero_never_silenced (freq : Z) (w : World) (n : nat) :
  wrap_u32 (hal_tick w (tick_reads w)) = 4294967296 - BUZZER_BEEP_MS ->
  freq <> 0 ->
  let w1 := exec (PongEngine_Beep freq) w in
  pwm_started (buzzer_cfg w1) = true /\
  buzzer_stop_tick w1 = 0 /\
  exec (buzzer_ticks n) w1 = w1.
Proof.
  intros Hnow Hf w1. subst w1. rewrite Beep_world, Hnow.
  split; [|split].
  - simpl. apply buzzer_tone_starts; [exact Hf | discriminate].
  - reflexivity.
  - induction n as [|k IH]; [reflexivity|].
    unfold exec in *. simpl. unfold bind at 1.
    rewrite UpdateBuzzer_idle by reflexivity. exact IH.
Qed.

Lemma Beep_deadline_zero_witness :
  pwm_started
    (buzzer_cfg (exec (buzzer_ticks 100)
                      (exec (PongEngine_Beep BUZZER_WALL_FREQ_HZ)
                            world_at_rollover))) = true.
Proof.
  destruct (Beep_deadline_zero_never_silenced
              BUZZER_WALL_FREQ_HZ world_at_rollover 100)
    as (Hon & _ & Hsame).
  - reflexivity.
  - discriminate.
  - rewrite Hsame. exact Hon.
Defined.

(** ** Running the HAL monad by hand *)

Ltac hal_unfold :=
  cbv [bind ret exec eval PongEngine_Beep get_buzzer_cfg put_buzzer_cfg
       HAL_GetTick put_stop_tick get_stop_tick Random_U16
       HAL_RNG_GenerateRandomNumber
       Ball_GetVelocity Ball_SetVelocity Ball_SetPos Ball_GetAABB
       Paddle_GetAABB ball_set_x ball_set_y];
  cbn [fst snd ball paddle lives ball_x ball_y ball_size ball_velocity
       vec_x vec_y pos_x pos_y buzzer_cfg buzzer_stop_tick hal_tick
       tick_reads hal_rng rng_reads box_x box_y box_width box_height].

(** ** Wall collision *)

(** At the top-right corner of the screen the velocity after the step is
    not [(vx, -vy)]. *)
Lemma top_wall_corner_velocity :
  let e := engine_in_corner in
  let vel := ball_velocity (ball e) in
  ball_y (ball e) <= 0 /\
  ball_velocity (ball (eval (PongEngine_CheckWallCollision e) world_quiet))
    <> mkVector2D (vec_x vel) (f32_neg (vec_y vel)).
Proof. split; [vm_compute; discriminate | vm_compute; discriminate]. Qed.

(** C1: the reflection off the top wall is lost in the corner.  Whenever
    the ball's top edge is at or above the top wall and its right edge at
    or beyond the right wall at the wall check, the step puts the ball at
    [y = 2] and triggers two wall beeps, but the velocity after the step
    is [(-vx, vy)]: the right-wall branch writes the vertical component
    back from the copy read at entry, undoing the flip of the top-wall
    branch, so the ball keeps its vertical direction and the velocity is
    not the [(vx, -vy)] of the claim (for every [vy] other than NaN). *)
Theorem top_wall_corner_keeps_vy (engine : PongEngine_t) (w : World) :
  ball_y (ball engine) <= 0 ->
  SCREEN_WIDTH <= ball_x (ball engine) + ball_size (ball engine) ->
  let vel := ball_velocity (ball engine) in
  let engine' := eval (PongEngine_CheckWallCollision engine) w in
  let w' := exec (PongEngine_CheckWallCollision engine) w in
  ball_y (ball engine') = 2 /\
  ball_velocity (ball engine') = mkVector2D (f32_neg (vec_x vel)) (vec_y vel) /\
  (vec_y vel <> S754_nan ->
   ball_velocity (ball engine')
     <> mkVector2D (vec_x vel) (f32_neg (vec_y vel))) /\
  w' = exec (PongEngine_Beep BUZZER_WALL_FREQ_HZ)
            (exec (PongEngine_Beep BUZZER_WALL_FREQ_HZ) w).
Proof.
  intros Hy Hx vel engine' w'. subst engine' w' vel.
  destruct engine as [[bx by_ bs [vx vy]] p l].
  cbn [ball ball_y ball_x ball_size ball_velocity vec_x vec_y] in Hy, Hx |- *.
  unfold PongEngine_CheckWallCollision. hal_unfold.
  destruct (Z.leb_spec by_ 0); [|lia]. hal_unfold.
  destruct (Z.leb_spec SCREEN_WIDTH (bx + bs)); [|lia]. hal_unfold.
  split; [reflexivity|]. split; [reflexivity|]. split; [|reflexivity].
  intros Hnan [= _ Hvy]. destruct vy as [[]|[]| |[] mv ev];
    try discriminate Hvy. apply Hnan. reflexivity.
Qed.

Lemma top_wall_corner_keeps_vy_witness :
  ball_velocity
    (ball (eval (PongEngine_CheckWallCollision engine_in_corner) world_quiet))
  = mkVector2D (f32_neg reset_speed) (f32_neg reset_speed).
Proof.
  destruct (top_wall_corner_keeps_vy engine_in_corner world_quiet)
    as (_ & Hvel & _).
  - cbn [engine_in_corner ball ball_y]. lia.
  - unfold SCREEN_WIDTH. cbn [engine_in_corner ball ball_x ball_size]. lia.
  - exact Hvel.
Defined.

(** Away from the right wall the top wall reflects: whenever the ball's
    top edge is at or above the top wall at the wall check, the step puts
    the ball at [y = 2] (so [y >= 0]) and ends in the state a wall beep
    leaves behind, with the tone running; if moreover the right wall is
    not reached in the same step ([x + size < 240]), the velocity after
    the step is [(vx, -vy)] and exactly one wall beep was triggered. *)
Theorem top_wall_reflects (engine : PongEngine_t) (w : World) :
  ball_y (ball engine) <= 0 ->
  let vel := ball_velocity (ball engine) in
  let engine' := eval (PongEngine_CheckWallCollision engine) w in
  let w' := exec (PongEngine_CheckWallCollision engine) w in
  ball_y (ball engine') = 2 /\ 0 <= ball_y (ball engine') /\
  (exists w0, w' = exec (PongEngine_Beep BUZZER_WALL_FREQ_HZ) w0) /\
  pwm_started (buzzer_cfg w') = true /\
  (ball_x (ball engine) + ball_size (ball engine) < SCREEN_WIDTH ->
   ball_velocity (ball engine') = mkVector2D (vec_x vel) (f32_neg (vec_y vel)) /\
   ball_x (ball engine') = ball_x (ball engine) /\
   w' = exec (PongEngine_Beep BUZZER_WALL_FREQ_HZ) w).
Proof.
  intros Hy vel engine' w'. subst engine' w' vel.
  destruct engine as [[bx by_ bs bv] p l]. cbn [ball ball_y ball_x ball_size] in Hy |- *.
  unfold PongEngine_CheckWallCollision. hal_unfold.
  destruct (Z.leb_spec by_ 0); [|lia]. hal_unfold.
  destruct (Z.leb_spec SCREEN_WIDTH (bx + bs)); hal_unfold.
  - split; [reflexivity|]. split; [lia|]. split; [|split].
    + exists (exec (PongEngine_Beep BUZZER_WALL_FREQ_HZ) w). reflexivity.
    + apply buzzer_tone_starts; discriminate.
    + intros Hx. lia.
  - split; [reflexivity|]. split; [lia|]. split; [|split].
    + exists w. reflexivity.
    + apply buzzer_tone_starts; discriminate.
    + intros _. repeat split.
Qed.

Lemma top_wall_reflects_witness :
  let e := mkEngine (mkBall 100 (-3) 6 (mkVector2D reset_speed (f32_neg reset_speed)))
                    (Paddle_Init 10 100 5 40 6) 4 in
  ball_y (ball e) <= 0 /\
  ball_velocity (ball (eval (PongEngine_CheckWallCollision e) world_quiet))
    = mkVector2D reset_speed reset_speed.
Proof.
  split; [simpl; lia|].
  apply (top_wall_reflects
           (mkEngine (mkBall 100 (-3) 6 (mkVector2D reset_speed (f32_neg reset_speed)))
                     (Paddle_Init 10 100 5 40 6) 4) world_quiet);
    simpl; unfold SCREEN_WIDTH; lia.
Defined.

(** ** The collision and goal steps, one by one *)

Lemma SFabs_opp (x : spec_float) : SFabs (f32_neg x) = SFabs x.
Proof. destruct x; reflexivity. Qed.

Lemma same_speed_refl (v : Vector2D) : same_speed v v.
Proof. split; reflexivity. Qed.

Lemma same_speed_trans (u v t : Vector2D) :
  same_speed u v -> same_speed v t -> same_speed u t.
Proof. unfold same_speed. intros [-> ->] [-> ->]. split; reflexivity. Qed.

Lemma wall_step_frame (engine : PongEngine_t) (w : World) :
  let e' := eval (PongEngine_CheckWallCollision engine) w in
  let w' := exec (PongEngine_CheckWallCollision engine) w in
  lives e' = lives engine /\ paddle e' = paddle engine /\
  ball_size (ball e') = ball_size (ball engine) /\
  same_speed (ball_velocity (ball engine)) (ball_velocity (ball e')) /\
  hal_rng w' = hal_rng w /\ rng_reads w' = rng_reads w.
Proof.
  destruct engine as [[bx by_ bs [vx vy]] p l].
  unfold PongEngine_CheckWallCollision, same_speed. hal_unfold.
  destruct (by_ <=? 0); [|destruct (SCREEN_HEIGHT <=? by_ + bs)]; hal_unfold;
    match goal with |- context [if ?c then _ else _] => destruct c end;
    hal_unfold; rewrite ?SFabs_opp; repeat split.
Qed.

Lemma wall_step_x (engine : PongEngine_t) (w : World) :
  in_i16 (ball_size (ball engine)) ->
  ball_x (ball engine) < 0 ->
  ball_x (ball (eval (PongEngine_CheckWallCollision engine) w)) < 0.
Proof.
  destruct engine as [[bx by_ bs [vx vy]] p l].
  unfold PongEngine_CheckWallCollision, in_i16. hal_unfold. intros Hs Hx.
  destruct (by_ <=? 0); [|destruct (SCREEN_HEIGHT <=? by_ + bs)]; hal_unfold;
    (destruct (Z.leb_spec SCREEN_WIDTH (bx + bs)); hal_unfold; [|exact Hx]);
    unfold SCREEN_WIDTH in *;
    rewrite wrap_i16_id by (unfold in_i16; lia); lia.
Qed.

Lemma paddle_step_frame (engine : PongEngine_t) (w : World) :
  let e' := eval (PongEngine_CheckPaddleCollision engine) w in
  let w' := exec (PongEngine_CheckPaddleCollision engine) w in
  lives e' = lives engine /\
  ball_size (ball e') = ball_size (ball engine) /\
  same_speed (ball_velocity (ball engine)) (ball_velocity (ball e')) /\
  hal_rng w' = hal_rng w /\ rng_reads w' = rng_reads w.
Proof.
  destruct engine as [[bx by_ bs [vx vy]] p l].
  unfold PongEngine_CheckPaddleCollision, same_speed. hal_unfold.
  match goal with |- context [if ?c then _ else _] => destruct c end;
    hal_unfold; rewrite ?SFabs_opp; repeat split.
Qed.

Lemma paddle_step_miss (engine : PongEngine_t) (w : World) :
  AABB_Collides (Ball_GetAABB (ball engine)) (Paddle_GetAABB (paddle engine))
    = false ->
  PongEngine_CheckPaddleCollision engine w = (engine, w).
Proof.
  intros H. unfold PongEngine_CheckPaddleCollision. rewrite H. reflexivity.
Qed.

Lemma goal_step_miss (engine : PongEngine_t) (w : World) :
  0 <= ball_x (ball engine) -> PongEngine_CheckGoal engine w = (engine, w).
Proof.
  intros H. unfold PongEngine_CheckGoal.
  destruct (Z.ltb_spec (ball_x (ball engine)) 0); [lia|reflexivity].
Qed.

Lemma goal_step_hit (engine : PongEngine_t) (w : World) :
  ball_x (ball engine) < 0 ->
  let size := ball_size (ball engine) in
  let dx := reset_offset (hal_rng w (rng_reads w)) in
  let dy := reset_offset (hal_rng w (Datatypes.S (rng_reads w))) in
  eval (PongEngine_CheckGoal engine) w =
    mkEngine (mkBall (wrap_i16 (wrap_i16 (Z.quot (SCREEN_WIDTH - size) 2) + dx))
                     (wrap_i16 (wrap_i16 (Z.quot (SCREEN_HEIGHT - size) 2) + dy))
                     size reset_velocity)
             (paddle engine) (wrap_u8 (lives engine - 1)).
Proof.
  intros H. unfold PongEngine_CheckGoal.
  destruct (Z.ltb_spec (ball_x (ball engine)) 0); [|lia].
  change (wrap_u16 (2 * BALL_RESET_OFFSET + 1)) with 41.
  unfold reset_offset, reset_velocity. hal_unfold.
  destruct (hal_rng w (rng_reads w)) as [r1|];
    simpl (option_map _ _); simpl (41 =? 0); hal_unfold;
    destruct (hal_rng w (Datatypes.S (rng_reads w))) as [r2|];
    simpl (option_map _ _); simpl (41 =? 0); hal_unfold; reflexivity.
Qed.

Lemma reset_offset_range (r : option Z) : -20 <= reset_offset r <= 20.
Proof.
  unfold reset_offset, BALL_RESET_OFFSET. destruct r as [rnd|].
  - pose proof (Z.mod_pos_bound (wrap_u32 rnd) 41 ltac:(lia)) as Hm.
    unfold wrap_u16. rewrite (Z.mod_small (wrap_u32 rnd mod 41)) by lia.
    rewrite (wrap_i16_id (wrap_u32 rnd mod 41)) by (unfold in_i16; lia).
    rewrite wrap_i16_id by (unfold in_i16; lia). lia.
  - vm_compute. split; discriminate.
Qed.

Lemma goal_step_frame (engine : PongEngine_t) (w : World) :
  let e' := eval (PongEngine_CheckGoal engine) w in
  (e' = engine /\ 0 <= ball_x (ball engine)) \/
  (lives e' = wrap_u8 (lives engine - 1) /\
   ball_velocity (ball e') = reset_velocity /\ ball_x (ball engine) < 0).
Proof.
  destruct (Z.lt_ge_cases (ball_x (ball engine)) 0) as [H|H].
  - right. simpl. rewrite (goal_step_hit engine w H). repeat split. exact H.
  - left. unfold eval. rewrite (goal_step_miss engine w H). split; [reflexivity|exact H].
Qed.

(** The update is its five steps in order; the buzzer timer runs last and
    touches the world only. *)
Lemma Update_steps (engine : PongEngine_t) (input : UserInput) (w : World) :
  let e1 := after_motion engine input in
  let e2 := eval (PongEngine_CheckWallCollision e1) w in
  let w2 := exec (PongEngine_CheckWallCollision e1) w in
  let e3 := eval (PongEngine_CheckPaddleCollision e2) w2 in
  let w3 := exec (PongEngine_CheckPaddleCollision e2) w2 in
  let e4 := eval (PongEngine_CheckGoal e3) w3 in
  eval (PongEngine_Update engine input) w = (lives e4, e4).
Proof.
  unfold PongEngine_Update, after_motion, eval, exec, bind. simpl.
  repeat match goal with
         | |- context [let (_, _) := ?c in _] => destruct c; simpl
         end.
  reflexivity.
Qed.

(** ** One update, then many *)

Lemma Update_frame (engine : PongEngine_t) (input : UserInput) (w : World) :
  let r := eval (PongEngine_Update engine input) w in
  let v := ball_velocity (ball engine) in
  let v' := ball_velocity (ball (snd r)) in
  fst r = lives (snd r) /\
  ((lives (snd r) = lives engine /\ same_speed v v') \/
   (lives (snd r) = wrap_u8 (lives engine - 1) /\ v' = reset_velocity)).
Proof.
  cbv zeta. rewrite Update_steps. cbn [fst snd].
  split; [reflexivity|].
  set (e1 := after_motion engine input).
  pose proof (wall_step_frame e1 w) as (Hl2 & _ & _ & Hv2 & _).
  set (e2 := eval (PongEngine_CheckWallCollision e1) w) in *.
  set (w2 := exec (PongEngine_CheckWallCollision e1) w) in *.
  pose proof (paddle_step_frame e2 w2) as (Hl3 & _ & Hv3 & _).
  set (e3 := eval (PongEngine_CheckPaddleCollision e2) w2) in *.
  set (w3 := exec (PongEngine_CheckPaddleCollision e2) w2) in *.
  assert (Hv : same_speed (ball_velocity (ball engine)) (ball_velocity (ball e3))).
  { apply (same_speed_trans _ _ _ Hv2 Hv3). }
  assert (Hl : lives e3 = lives engine) by (rewrite Hl3, Hl2; reflexivity).
  destruct (goal_step_frame e3 w3) as [[-> _]|(Hl4 & Hv4 & _)].
  - left. split; assumption.
  - right. rewrite Hl4, Hl. split; [reflexivity|exact Hv4].
Qed.

Lemma run_updates_cons (i : UserInput) (rest : list UserInput)
    (engine : PongEngine_t) (w : World) :
  eval (run_updates (i :: rest) engine) w =
    eval (run_updates rest (snd (eval (PongEngine_Update engine i) w)))
         (exec (PongEngine_Update engine i) w).
Proof.
  unfold eval, exec. simpl. unfold bind at 1.
  destruct (PongEngine_Update engine i w) as [r w']. reflexivity.
Qed.

Lemma updates_until_game_over_cons (i : UserInput) (rest : list UserInput)
    (engine : PongEngine_t) (w : World) :
  let r := eval (PongEngine_Update engine i) w in
  eval (updates_until_game_over (i :: rest) engine) w =
    if fst r =? 0 then snd r
    else eval (updates_until_game_over rest (snd r)) (exec (PongEngine_Update engine i) w).
Proof.
  unfold eval, exec. simpl. unfold bind at 1.
  destruct (PongEngine_Update engine i w) as [r w']. simpl.
  destruct (fst r =? 0); reflexivity.
Qed.

Lemma run_updates_velocity (inputs : list UserInput) (engine : PongEngine_t)
    (w : World) :
  let v := ball_velocity (ball engine) in
  let v' := ball_velocity (ball (eval (run_updates inputs engine) w)) in
  same_speed v v' \/ same_speed reset_velocity v'.
Proof.
  cbv zeta. revert engine w.
  induction inputs as [|i rest IH]; intros engine w.
  - left. apply same_speed_refl.
  - rewrite run_updates_cons.
    pose proof (Update_frame engine i w) as (_ & Hstep). cbv zeta in Hstep.
    set (e1 := snd (eval (PongEngine_Update engine i) w)) in *.
    specialize (IH e1 (exec (PongEngine_Update engine i) w)).
    destruct IH as [IH|IH]; [|right; exact IH].
    destruct Hstep as [[_ Hv]|[_ Hv]].
    + left. apply (same_speed_trans _ _ _ Hv IH).
    + right. rewrite <- Hv. exact IH.
Qed.

Lemma updates_until_game_over_lives (inputs : list UserInput) (engine : PongEngine_t)
    (w : World) :
  0 < lives engine <= 255 ->
  0 <= lives (eval (updates_until_game_over inputs engine) w) <= lives engine.
Proof.
  revert engine w. induction inputs as [|i rest IH]; intros engine w Hl.
  - change (eval (updates_until_game_over [] engine) w) with engine. lia.
  - rewrite updates_until_game_over_cons. cbv zeta.
    pose proof (Update_frame engine i w) as (Hret & Hstep). cbv zeta in Hstep, Hret.
    set (r := eval (PongEngine_Update engine i) w) in *.
    assert (Hl' : lives (snd r) = lives engine \/ lives (snd r) = lives engine - 1).
    { destruct Hstep as [[H _]|[H _]]; [left; exact H|right].
      rewrite H. unfold wrap_u8. apply Z.mod_small. lia. }
    destruct (Z.eqb_spec (fst r) 0) as [H0|H0].
    + lia.
    + assert (Hpos : 0 < lives (snd r) <= 255) by lia.
      specialize (IH (snd r) (exec (PongEngine_Update engine i) w) Hpos). lia.
Qed.

(** ** Lives *)

(** C5, as the claim states it, fails for an update at 0 lives: the
    counter wraps to 255, so it increases and 0 is not terminal for the
    engine itself. *)
Lemma lives_wrap_at_zero :
  lives engine_game_over = 0 /\
  fst (eval (PongEngine_Update engine_game_over idle) world_quiet) = 255.
Proof. split; vm_compute; reflexivity. Qed.

(** C5 (amended): the counter starts at 4; every update invoked with lives
    left returns the lives after the update and leaves the counter
    unchanged or one lower; hence along the caller's loop, which stops
    invoking the update once 0 is returned, the counter never increases and
    never goes below 0.  The engine has no guard of its own at 0. *)
Theorem lives_bookkeeping (px py pw ph size : Z) (speed : spec_float)
    (engine : PongEngine_t) (input : UserInput) (inputs : list UserInput)
    (w : World) :
  0 < lives engine <= 255 ->
  lives (PongEngine_Init px py pw ph size speed) = 4 /\
  (let r := eval (PongEngine_Update engine input) w in
   fst r = lives (snd r) /\
   (lives (snd r) = lives engine \/ lives (snd r) = lives engine - 1)) /\
  0 <= lives (eval (updates_until_game_over inputs engine) w) <= lives engine.
Proof.
  intros Hl. split; [reflexivity|]. split.
  - pose proof (Update_frame engine input w) as (Hret & Hstep).
    cbv zeta in *. split; [exact Hret|].
    destruct Hstep as [[H _]|[H _]]; [left; exact H|right].
    rewrite H. unfold wrap_u8. apply Z.mod_small. lia.
  - apply updates_until_game_over_lives. exact Hl.
Qed.

Lemma lives_bookkeeping_witness :
  0 < lives engine_slow_ball <= 255 /\
  lives (eval (updates_until_game_over (repeat idle 200) engine_slow_ball) world_quiet) <= 4.
Proof.
  assert (H : 0 < lives engine_slow_ball <= 255) by (simpl; lia).
  split; [exact H|].
  apply (lives_bookkeeping 10 100 5 40 6 (f32_of_Z 4)
           engine_slow_ball idle (repeat idle 200) world_quiet H).
Defined.

(** ** Goal *)

(** C3, as the claim states it, fails when the ball that crossed the left
    edge still overlaps the paddle: the paddle collision runs first, puts
    the ball back in front of the paddle, and no life is lost. *)
Lemma goal_blocked_by_paddle :
  ball_x (ball (after_motion engine_ball_on_paddle idle)) = -1 /\
  lives engine_ball_on_paddle = 4 /\
  fst (eval (PongEngine_Update engine_ball_on_paddle idle) world_quiet) <> 3.
Proof. repeat split; vm_compute; discriminate. Qed.

(** C3 (amended): if after the ball position update the ball's left edge is
    below 0, lives are 4, and the ball does not overlap the paddle at the
    paddle check, then the update returns 3 lives, puts the ball at
    [(240 - size) / 2] plus an offset in [-20, 20] on each axis, the two
    offsets coming from two successive draws of the random number
    generator, and sets the velocity to [(8.0f * 0.707f, 8.0f * 0.707f)]:
    positive on both axes and the velocity of [Ball_Init] at speed 8. *)
Theorem goal_scenario (engine : PongEngine_t) (input : UserInput) (w : World) :
  in_i16 (ball_size (ball engine)) ->
  lives engine = 4 ->
  ball_x (ball (after_motion engine input)) < 0 ->
  (let e2 := eval (PongEngine_CheckWallCollision (after_motion engine input)) w in
   AABB_Collides (Ball_GetAABB (ball e2)) (Paddle_GetAABB (paddle e2)) = false) ->
  let r := eval (PongEngine_Update engine input) w in
  let size := ball_size (ball engine) in
  let dx := reset_offset (hal_rng w (rng_reads w)) in
  let dy := reset_offset (hal_rng w (Datatypes.S (rng_reads w))) in
  fst r = 3 /\ lives (snd r) = 3 /\
  ball_x (ball (snd r)) = Z.quot (SCREEN_WIDTH - size) 2 + dx /\
  ball_y (ball (snd r)) = Z.quot (SCREEN_HEIGHT - size) 2 + dy /\
  -20 <= dx <= 20 /\ -20 <= dy <= 20 /\
  ball_velocity (ball (snd r)) = reset_velocity /\
  reset_velocity = ball_velocity (Ball_Init size (f32_of_Z 8)) /\
  f32_lt (f32_of_Z 0) (vec_x reset_velocity) = true /\
  f32_lt (f32_of_Z 0) (vec_y reset_velocity) = true.
Proof.
  intros Hsize Hlives Hx Hmiss r size dx dy. subst r.
  rewrite Update_steps. cbv zeta in Hmiss |- *. cbn [fst snd].
  set (e1 := after_motion engine input) in *.
  pose proof (wall_step_frame e1 w) as (Hl2 & _ & Hs2 & _ & Hr2 & Hn2).
  assert (Hx2 : ball_x (ball (eval (PongEngine_CheckWallCollision e1) w)) < 0)
    by (apply wall_step_x; [exact Hsize | exact Hx]).
  set (e2 := eval (PongEngine_CheckWallCollision e1) w) in *.
  set (w2 := exec (PongEngine_CheckWallCollision e1) w) in *.
  assert (He3 : eval (PongEngine_CheckPaddleCollision e2) w2 = e2)
    by (unfold eval; rewrite (paddle_step_miss e2 w2 Hmiss); reflexivity).
  assert (Hw3 : exec (PongEngine_CheckPaddleCollision e2) w2 = w2)
    by (unfold exec; rewrite (paddle_step_miss e2 w2 Hmiss); reflexivity).
  rewrite He3, Hw3, (goal_step_hit e2 w2 Hx2). cbv zeta.
  rewrite Hr2, Hn2, Hs2, Hl2.
  change (ball_size (ball e1)) with size. change (lives e1) with (lives engine).
  fold dx dy. cbn [lives ball ball_x ball_y ball_velocity].
  pose proof (reset_offset_range (hal_rng w (rng_reads w))) as Hdx.
  pose proof (reset_offset_range (hal_rng w (Datatypes.S (rng_reads w)))) as Hdy.
  fold dx in Hdx. fold dy in Hdy.
  assert (Hc : -16264 <= Z.quot (240 - size) 2 <= 16504).
  { unfold in_i16 in Hsize. fold size in Hsize.
    Z.to_euclidean_division_equations. lia. }
  unfold SCREEN_WIDTH, SCREEN_HEIGHT.
  rewrite (wrap_i16_id (Z.quot (240 - size) 2)) by (unfold in_i16; lia).
  rewrite !wrap_i16_id by (unfold in_i16; lia).
  rewrite Hlives.
  repeat split; try reflexivity; lia.
Qed.

Lemma goal_scenario_witness :
  ball_x (ball (after_motion engine_game_over idle)) < 0 /\
  fst (eval (PongEngine_Update
               (mkEngine (ball engine_game_over) (paddle engine_game_over) 4)
               idle) world_quiet) = 3.
Proof.
  split; [vm_compute; reflexivity|].
  apply (goal_scenario
           (mkEngine (ball engine_game_over) (paddle engine_game_over) 4)
           idle world_quiet).
  - vm_compute. split; discriminate.
  - reflexivity.
  - vm_compute. reflexivity.
  - vm_compute. reflexivity.
Defined.

(** ** Velocity *)

(** C4, as the claim states it, fails: a game started with ball speed
    [4.0f] loses a life within 200 idle frames, and the velocity after the
    reset has other component magnitudes than the initial one. *)
Lemma velocity_changes_at_goal :
  let e0 := engine_slow_ball in
  let e := eval (run_updates (repeat idle 200) e0) world_quiet in
  e0 = PongEngine_Init 10 100 5 40 6 (f32_of_Z 4) /\
  ball (PongEngine_Init 10 100 5 40 6 (f32_of_Z 4)) = Ball_Init 6 (f32_of_Z 4) /\
  SFabs (vec_x (ball_velocity (ball e))) <> SFabs (vec_x (ball_velocity (ball e0))) /\
  SFabs (vec_y (ball_velocity (ball e))) <> SFabs (vec_y (ball_velocity (ball e0))).
Proof. repeat split; vm_compute; discriminate. Qed.

(** C4 (amended): an update changes the velocity only by negating
    components, which keeps the absolute value of each, except that an
    update in which a life is lost overwrites it with the fixed
    [(8.0f * 0.707f, 8.0f * 0.707f)], whatever speed [Ball_Init] was given.
    So after any sequence of updates the component magnitudes are those of
    the initial velocity [(speed * 0.707f, speed * 0.707f)] or those of the
    reset velocity, and they stay constant throughout when the ball was
    initialised with speed [8.0f]. *)
Theorem velocity_magnitude (px py pw ph size : Z) (speed : spec_float)
    (engine : PongEngine_t) (input : UserInput) (inputs : list UserInput)
    (w : World) :
  (let e' := snd (eval (PongEngine_Update engine input) w) in
   (lives e' = lives engine /\
    same_speed (ball_velocity (ball engine)) (ball_velocity (ball e'))) \/
   (lives e' = wrap_u8 (lives engine - 1) /\
    ball_velocity (ball e') = reset_velocity)) /\
  (let e0 := PongEngine_Init px py pw ph size speed in
   let v := ball_velocity (ball (eval (run_updates inputs e0) w)) in
   ball_velocity (ball e0) =
     mkVector2D (f32_mul speed (f32_lit 707 1000))
                (f32_mul speed (f32_lit 707 1000)) /\
   (same_speed (ball_velocity (ball e0)) v \/ same_speed reset_velocity v)) /\
  (let e0 := PongEngine_Init px py pw ph size (f32_of_Z 8) in
   let v := ball_velocity (ball (eval (run_updates inputs e0) w)) in
   same_speed (ball_velocity (ball e0)) v).
Proof.
  split; [|split].
  - apply Update_frame.
  - cbv zeta. split; [reflexivity|]. apply run_updates_velocity.
  - cbv zeta.
    destruct (run_updates_velocity inputs
                (PongEngine_Init px py pw ph size (f32_of_Z 8)) w) as [H|H];
      exact H.
Qed.

(** ** Framebuffer: bytes, nibbles and indices *)

Lemma Z_range_forallb (f : Z -> bool) (n : Z) :
  forallb f (Z_range n) = true -> forall z, 0 <= z < n -> f z = true.
Proof.
  intros H z Hz. rewrite forallb_forall in H. apply H.
  unfold Z_range. apply in_map_iff. exists (Z.to_nat z).
  split; [lia | apply in_seq; lia].
Qed.

Lemma nibble_update_facts (old c : Z) :
  0 <= old < 256 -> 0 <= c < 16 -> nibble_update_ok old c = true.
Proof.
  intros Ho Hc.
  apply (Z_range_forallb (fun c => nibble_update_ok old c) 16); [|exact Hc].
  apply (Z_range_forallb
           (fun old => forallb (fun c => nibble_update_ok old c) (Z_range 16))
           256); [|exact Ho].
  vm_compute. reflexivity.
Qed.

Lemma land_1_mod_2 (x : Z) : Z.land x 1 = x mod 2.
Proof. change 1 with (Z.ones 1). rewrite Z.land_ones by lia. reflexivity. Qed.

Lemma pixel_index (x y : Z) :
  0 <= x < ST7789V2_WIDTH -> 0 <= y < ST7789V2_HEIGHT ->
  wrap_u16 (Z.shiftr (ST7789V2_WIDTH * y + x) 1) = 120 * y + x / 2 /\
  0 <= 120 * y + x / 2 < BUFFER_LENGTH.
Proof.
  unfold BUFFER_LENGTH, ST7789V2_WIDTH, ST7789V2_HEIGHT, wrap_u16.
  intros Hx Hy. rewrite Z.shiftr_div_pow2 by lia.
  change (2 ^ 1) with 2. change (240 * 240 / 2) with 28800.
  assert (H : (240 * y + x) / 2 = 120 * y + x / 2).
  { replace (240 * y + x) with (x + (120 * y) * 2) by lia.
    rewrite Z.div_add by lia. lia. }
  rewrite H.
  assert (0 <= x / 2 < 120) by (Z.to_euclidean_division_equations; lia).
  rewrite Z.mod_small by lia. lia.
Qed.

Lemma in_bounds_true (l : list Z) (i : Z) :
  0 <= i < Z.of_nat (length l) -> in_bounds l i = true.
Proof.
  intros H. unfold in_bounds.
  destruct (Z.leb_spec 0 i); [|lia]. destruct (Z.ltb_spec i (Z.of_nat (length l))); [|lia].
  reflexivity.
Qed.

Lemma in_bounds_false (l : list Z) (i : Z) :
  Z.of_nat (length l) <= i -> in_bounds l i = false.
Proof.
  intros H. unfold in_bounds.
  destruct (Z.ltb_spec i (Z.of_nat (length l))); [lia|].
  apply andb_false_r.
Qed.

(** What an in-range [LCD_Set_Pixel] does to the state, in one equation. *)
Lemma Set_Pixel_in_range (s : LCD_t) (x y colour : Z) :
  lcd_wf s ->
  0 <= x < ST7789V2_WIDTH -> 0 <= y < ST7789V2_HEIGHT ->
  let i := Z.to_nat (120 * y + x / 2) in
  let old := default 0 (image_buffer s !! i) in
  LCD_Set_Pixel x y colour s =
    mkLCD (<[i := if x mod 2 =? 0
                  then wrap_u8 (Z.lor colour (Z.land old 0xF0))
                  else wrap_u8 (Z.lor (Z.shiftl colour 4) (Z.land old 0x0F))]>
             (image_buffer s))
          (<[Z.to_nat y := 1]> (track_changes s))
          (colour_map s) (faults s).
Proof.
  intros (Hbuf & Hrows & Hbytes) Hx Hy i old.
  destruct (pixel_index x y Hx Hy) as (Hidx & Hrange).
  unfold LCD_Set_Pixel. rewrite Hidx, land_1_mod_2.
  unfold track_changes_store.
  rewrite in_bounds_true by lia. cbn [image_buffer track_changes colour_map faults].
  destruct (Z.ltb_spec x ST7789V2_WIDTH); [|lia].
  destruct (Z.ltb_spec y ST7789V2_HEIGHT); [|lia].
  cbn [andb]. unfold image_buffer_load, image_buffer_store.
  cbn [image_buffer track_changes colour_map faults].
  rewrite in_bounds_true by lia.
  destruct (x mod 2 =? 0); cbn [negb image_buffer track_changes colour_map faults];
    rewrite in_bounds_true by lia; reflexivity.
Qed.

Lemma nibble_update_eqs (old c : Z) :
  0 <= old < 256 -> 0 <= c < 16 ->
  let hi := wrap_u8 (Z.lor (Z.shiftl c 4) (Z.land old 0x0F)) in
  let lo := wrap_u8 (Z.lor c (Z.land old 0xF0)) in
  Z.shiftr hi 4 = c /\ Z.land hi 0x0F = Z.land old 0x0F /\
  Z.land lo 0x0F = c /\ Z.shiftr lo 4 = Z.shiftr old 4 /\
  Z.shiftr (Z.land old 0xF0) 4 = Z.shiftr old 4.
Proof.
  intros Ho Hc. pose proof (nibble_update_facts old c Ho Hc) as H.
  unfold nibble_update_ok in H. cbv zeta.
  repeat (apply andb_true_iff in H; destruct H as [H ?]).
  repeat match goal with E : (_ =? _) = true |- _ => apply Z.eqb_eq in E end.
  repeat split; assumption.
Qed.

Lemma wf_byte (s : LCD_t) (n : nat) :
  lcd_wf s -> 0 <= default 0 (image_buffer s !! n) < 256.
Proof.
  intros (_ & _ & Hbytes).
  destruct (image_buffer s !! n) as [b|] eqn:Hb; simpl; [|lia].
  exact (Forall_lookup_1 _ _ _ _ Hbytes Hb).
Qed.

Lemma Set_Pixel_cells (s : LCD_t) (x y colour : Z) :
  lcd_wf s ->
  0 <= x < ST7789V2_WIDTH -> 0 <= y < ST7789V2_HEIGHT -> 0 <= colour < 16 ->
  let buf' := image_buffer (LCD_Set_Pixel x y colour s) in
  refresh_cell buf' x y = colour /\
  (forall x' y', 0 <= x' < ST7789V2_WIDTH -> 0 <= y' < ST7789V2_HEIGHT ->
     (x', y') <> (x, y) ->
     refresh_cell buf' x' y' = refresh_cell (image_buffer s) x' y').
Proof.
  intros Hwf Hx Hy Hc buf'. subst buf'.
  rewrite (Set_Pixel_in_range s x y colour Hwf Hx Hy).
  cbv zeta. cbn [image_buffer].
  destruct (pixel_index x y Hx Hy) as (_ & Hrange).
  pose proof Hwf as (Hbuf & _ & _).
  set (i := Z.to_nat (120 * y + x / 2)).
  set (old := default 0 (image_buffer s !! i)).
  assert (Ho : 0 <= old < 256) by (apply wf_byte; exact Hwf).
  destruct (nibble_update_eqs old colour Ho Hc) as (E1 & E2 & E3 & E4 & _).
  assert (Hi : (i < length (image_buffer s))%nat) by (subst i; lia).
  split.
  - unfold refresh_cell. fold i. rewrite list_lookup_insert_eq by exact Hi.
    destruct (x mod 2 =? 0); simpl; assumption.
  - intros x' y' Hx' Hy' Hne. unfold refresh_cell.
    unfold ST7789V2_WIDTH, ST7789V2_HEIGHT in *.
    destruct (decide (i = Z.to_nat (120 * y' + x' / 2))) as [Heq|Hneq].
    + rewrite <- Heq. rewrite list_lookup_insert_eq by exact Hi.
      fold old. simpl.
      assert (Hsame : y' = y /\ x' / 2 = x / 2).
      { subst i. Z.to_euclidean_division_equations. lia. }
      destruct Hsame as (-> & Hhalf).
      assert (Hxx : x' <> x) by congruence.
      destruct (Z.eqb_spec (x mod 2) 0) as [Hp|Hp];
        destruct (Z.eqb_spec (x' mod 2) 0) as [Hp'|Hp'];
        try assumption;
        exfalso; Z.to_euclidean_division_equations; lia.
    + rewrite list_lookup_insert_ne by exact Hneq. reflexivity.
Qed.

Lemma Set_Pixel_wf (s : LCD_t) (x y colour : Z) :
  lcd_wf s -> 0 <= x < ST7789V2_WIDTH -> 0 <= y < ST7789V2_HEIGHT ->
  lcd_wf (LCD_Set_Pixel x y colour s).
Proof.
  intros Hwf Hx Hy. rewrite (Set_Pixel_in_range s x y colour Hwf Hx Hy).
  destruct Hwf as (Hbuf & Hrows & Hbytes). unfold lcd_wf.
  cbn [image_buffer track_changes]. rewrite !length_insert.
  repeat split; try assumption.
  apply Forall_insert; [exact Hbytes|].
  destruct (x mod 2 =? 0); unfold wrap_u8;
    match goal with |- _ <= ?a mod 256 < _ =>
      pose proof (Z.mod_pos_bound a 256); lia end.
Qed.

(** ** Marking every row *)

Lemma mark_rows_frame (rows : list Z) (s : LCD_t) :
  (forall y, In y rows -> 0 <= y < Z.of_nat (length (track_changes s))) ->
  let s' := fold_left (fun s y => track_changes_store y 1 s) rows s in
  image_buffer s' = image_buffer s /\ colour_map s' = colour_map s /\
  faults s' = faults s /\
  length (track_changes s') = length (track_changes s) /\
  (forall r : nat, In (Z.of_nat r) rows -> (r < length (track_changes s))%nat ->
     track_changes s' !! r = Some 1).
Proof.
  revert s. induction rows as [|y rows IH]; intros s Hin; cbv zeta.
  - simpl. repeat split. intros r [].
  - simpl.
    assert (Hy : 0 <= y < Z.of_nat (length (track_changes s)))
      by (apply Hin; left; reflexivity).
    set (s1 := track_changes_store y 1 s).
    assert (Hs1 : s1 = mkLCD (image_buffer s) (<[Z.to_nat y := 1]> (track_changes s))
                             (colour_map s) (faults s)).
    { subst s1. unfold track_changes_store. rewrite in_bounds_true by exact Hy.
      reflexivity. }
    assert (Hlen : length (track_changes s1) = length (track_changes s)).
    { rewrite Hs1. cbn [track_changes]. apply length_insert. }
    destruct (IH s1) as (Hb & Hc & Hf & Hl & Hrows).
    { intros z Hz. rewrite Hlen. apply Hin. right. exact Hz. }
    rewrite Hb, Hc, Hf, Hl, Hlen. rewrite Hs1 at 1 2 3. cbn [image_buffer colour_map faults].
    repeat split.
    intros r Hr Hlt.
    destruct (in_dec Z.eq_dec (Z.of_nat r) rows) as [Hin'|Hout].
    + apply Hrows; [exact Hin' | rewrite Hlen; exact Hlt].
    + destruct Hr as [Hr|Hr]; [|contradiction].
      assert (Hkeep : forall (rows : list Z) (t : LCD_t),
                 ~ In (Z.of_nat r) rows -> (forall z, In z rows -> 0 <= z) ->
                 track_changes
                   (fold_left (fun s y => track_changes_store y 1 s) rows t) !! r
                 = track_changes t !! r).
      { clear. induction rows as [|z rows IH]; intros t Hn Hpos; [reflexivity|].
        simpl. rewrite IH.
        - unfold track_changes_store.
          destruct (in_bounds (track_changes t) z); cbn [track_changes]; [|reflexivity].
          apply list_lookup_insert_ne. intros E.
          apply Hn. left. specialize (Hpos z (or_introl eq_refl)). lia.
        - intros H. apply Hn. right. exact H.
        - intros z' Hz'. apply Hpos. right. exact Hz'. }
      rewrite Hkeep.
      * rewrite Hs1. cbn [track_changes]. subst y. rewrite Nat2Z.id.
        apply list_lookup_insert_eq. exact Hlt.
      * exact Hout.
      * intros z Hz. specialize (Hin z (or_intror Hz)). lia.
Qed.

Lemma Set_Palette_frame (palette : Z) (s : LCD_t) :
  Z.of_nat (length (track_changes s)) = ST7789V2_HEIGHT ->
  let s' := LCD_Set_Palette palette s in
  image_buffer s' = image_buffer s /\ faults s' = faults s /\
  length (track_changes s') = length (track_changes s) /\
  (forall r : nat, (Z.of_nat r < ST7789V2_HEIGHT) ->
     track_changes s' !! r = Some 1).
Proof.
  intros Hrows. cbv zeta. unfold LCD_Set_Palette, mark_all_rows.
  match goal with
  | |- context [fold_left ?f ?rows ?s0] =>
      pose proof (mark_rows_frame rows s0) as H
  end.
  cbn [track_changes image_buffer colour_map faults] in H.
  destruct H as (Hb & _ & Hf & Hl & Hall).
  { intros y Hy. apply in_map_iff in Hy as (n & <- & Hn). apply in_seq in Hn. lia. }
  repeat split; try assumption.
  intros r Hr. apply Hall.
  - apply in_map_iff. exists r. split; [reflexivity|]. apply in_seq. lia.
  - lia.
Qed.

(** ** Framebuffer: the claims *)

Lemma lcd_blank_wf : lcd_wf lcd_blank.
Proof.
  unfold lcd_wf, lcd_blank. cbn [image_buffer track_changes].
  rewrite !length_replicate. repeat split; try (vm_compute; reflexivity).
  apply Forall_replicate. lia.
Qed.

(** C9, as the claim states it, fails for a colour wider than 4 bits: at
    an even [x] the byte is not masked and the upper bits land in the cell
    of the pixel to the right. *)
Lemma Set_Pixel_wide_colour_spills :
  refresh_cell (image_buffer (LCD_Set_Pixel 0 0 16 lcd_blank)) 1 0
    <> refresh_cell (image_buffer lcd_blank) 1 0.
Proof. vm_compute. discriminate. Qed.

(** C9 (amended): an in-bounds [LCD_Set_Pixel] of a palette index 0..15
    marks row [y] dirty and leaves every other dirty flag as it was, stores
    the index in the cell of pixel [(x, y)] and leaves every other cell as
    it was, and touches neither the palette nor anything outside the
    arrays;
    [LCD_Set_Palette] selects the table of the requested palette (the
    default one for an unknown identifier), marks all 240 rows dirty and
    leaves the stored indices as they were. *)
Theorem Set_Pixel_Set_Palette_frame (s : LCD_t) (x y colour palette : Z) :
  lcd_wf s ->
  0 <= x < ST7789V2_WIDTH -> 0 <= y < ST7789V2_HEIGHT -> 0 <= colour < 16 ->
  (let s' := LCD_Set_Pixel x y colour s in
   track_changes s' !! Z.to_nat y = Some 1 /\
   (forall r : nat, r <> Z.to_nat y ->
      track_changes s' !! r = track_changes s !! r) /\
   refresh_cell (image_buffer s') x y = colour /\
   (forall x' y', 0 <= x' < ST7789V2_WIDTH -> 0 <= y' < ST7789V2_HEIGHT ->
      (x', y') <> (x, y) ->
      refresh_cell (image_buffer s') x' y' = refresh_cell (image_buffer s) x' y') /\
   colour_map s' = colour_map s /\ faults s' = faults s /\ lcd_wf s') /\
  (let s' := LCD_Set_Palette palette s in
   (palette = PALETTE_GREYSCALE -> colour_map s' = palette_greyscale) /\
   (palette = PALETTE_VINTAGE -> colour_map s' = palette_vintage) /\
   (palette = PALETTE_CUSTOM -> colour_map s' = palette_custom) /\
   (palette <> PALETTE_GREYSCALE -> palette <> PALETTE_VINTAGE ->
    palette <> PALETTE_CUSTOM -> colour_map s' = palette_default) /\
   length (palette_entries (colour_map s')) = 16%nat /\
   (forall r : nat, Z.of_nat r < ST7789V2_HEIGHT ->
      track_changes s' !! r = Some 1) /\
   image_buffer s' = image_buffer s /\ faults s' = faults s).
Proof.
  intros Hwf Hx Hy Hc. split; cbv zeta.
  - destruct (Set_Pixel_cells s x y colour Hwf Hx Hy Hc) as (Hcell & Hothers).
    pose proof (Set_Pixel_wf s x y colour Hwf Hx Hy) as Hwf'.
    rewrite (Set_Pixel_in_range s x y colour Hwf Hx Hy) in *.
    cbv zeta in *. cbn [image_buffer track_changes colour_map faults] in *.
    destruct Hwf as (_ & Hrows & _).
    split; [apply list_lookup_insert_eq; lia|].
    split; [intros r Hr; apply list_lookup_insert_ne; congruence|].
    split; [exact Hcell|]. split; [exact Hothers|].
    split; [reflexivity|]. split; [reflexivity|exact Hwf'].
  - destruct Hwf as (_ & Hrows & _).
    destruct (Set_Palette_frame palette s Hrows) as (Hb & Hf & _ & Hall).
    assert (Hmap : colour_map (LCD_Set_Palette palette s) =
                   if palette =? PALETTE_GREYSCALE then palette_greyscale
                   else if palette =? PALETTE_VINTAGE then palette_vintage
                   else if palette =? PALETTE_CUSTOM then palette_custom
                   else palette_default).
    { unfold LCD_Set_Palette, mark_all_rows.
      match goal with
      | |- context [fold_left ?f ?rows ?s0] =>
          pose proof (mark_rows_frame rows s0) as H
      end.
      destruct H as (_ & Hc' & _).
      { cbn [track_changes]. intros z Hz.
        apply in_map_iff in Hz as (n & <- & Hn). apply in_seq in Hn. lia. }
      exact Hc'. }
    rewrite Hmap.
    repeat split; try assumption.
    + intros ->. reflexivity.
    + intros ->. reflexivity.
    + intros ->. reflexivity.
    + intros H1 H2 H3.
      destruct (Z.eqb_spec palette PALETTE_GREYSCALE); [contradiction|].
      destruct (Z.eqb_spec palette PALETTE_VINTAGE); [contradiction|].
      destruct (Z.eqb_spec palette PALETTE_CUSTOM); [contradiction|].
      reflexivity.
    + destruct (palette =? PALETTE_GREYSCALE); [reflexivity|].
      destruct (palette =? PALETTE_VINTAGE); [reflexivity|].
      destruct (palette =? PALETTE_CUSTOM); reflexivity.
Qed.

Lemma Set_Pixel_Set_Palette_frame_witness :
  lcd_wf lcd_blank /\
  refresh_cell (image_buffer (LCD_Set_Pixel 7 3 9 lcd_blank)) 7 3 = 9 /\
  track_changes (LCD_Set_Palette PALETTE_VINTAGE lcd_blank) !! 239%nat = Some 1.
Proof.
  split; [exact lcd_blank_wf|].
  pose proof (Set_Pixel_Set_Palette_frame lcd_blank 7 3 9 PALETTE_VINTAGE
                lcd_blank_wf) as H.
  destruct H as ((_ & _ & Hcell & _) & (_ & _ & _ & _ & _ & Hrows & _)).
  - unfold ST7789V2_WIDTH. lia.
  - unfold ST7789V2_HEIGHT. lia.
  - lia.
  - split; [exact Hcell|]. apply Hrows. unfold ST7789V2_HEIGHT. lia.
Defined.

(** C7 (the code at a failing input): on a cleared buffer, after
    [LCD_Set_Pixel(1, 0, 5)] the cell of pixel [(1, 0)] holds 5, yet
    [LCD_Get_Pixel(1, 0)] returns 0: it reads nibble [x * y = 0] of the
    buffer, the cell of pixel [(0, 0)]. *)
Theorem Get_Pixel_after_Set_Pixel_mismatch :
  let s := LCD_Set_Pixel 1 0 5 lcd_blank in
  refresh_cell (image_buffer s) 1 0 = 5 /\
  fst (LCD_Get_Pixel 1 0 s) = 0 /\
  fst (LCD_Get_Pixel 1 0 s) = refresh_cell (image_buffer s) 0 0.
Proof. repeat split; vm_compute; reflexivity. Qed.

(** C8 (the code at the failing inputs): [LCD_Set_Pixel] writes the dirty
    flag before it checks the coordinates.  With [y] beyond the last row
    the write lands outside [track_changes]; with [y] in range and [x]
    beyond the last column no pixel is stored, yet row [y] is marked
    dirty. *)
Theorem Set_Pixel_out_of_range (s : LCD_t) (x y colour : Z) :
  Z.of_nat (length (track_changes s)) = ST7789V2_HEIGHT ->
  (ST7789V2_HEIGHT <= y ->
   LCD_Set_Pixel x y colour s =
     mkLCD (image_buffer s) (track_changes s) (colour_map s)
           (faults s ++ [Write_track_changes y])) /\
  (0 <= y < ST7789V2_HEIGHT -> ST7789V2_WIDTH <= x ->
   LCD_Set_Pixel x y colour s =
     mkLCD (image_buffer s) (<[Z.to_nat y := 1]> (track_changes s))
           (colour_map s) (faults s)).
Proof.
  intros Hrows. split.
  - intros Hy. unfold LCD_Set_Pixel, track_changes_store.
    rewrite in_bounds_false by lia.
    destruct (Z.ltb_spec y ST7789V2_HEIGHT); [lia|].
    rewrite andb_false_r. reflexivity.
  - intros Hy Hx. unfold LCD_Set_Pixel, track_changes_store.
    rewrite in_bounds_true by lia.
    destruct (Z.ltb_spec x ST7789V2_WIDTH); [lia|]. reflexivity.
Qed.

Lemma Set_Pixel_out_of_range_witness :
  faults (LCD_Set_Pixel 0 240 1 lcd_blank) = [Write_track_changes 240] /\
  track_changes (LCD_Set_Pixel 240 5 1 lcd_blank) !! 5%nat = Some 1.
Proof.
  destruct (Set_Pixel_out_of_range lcd_blank 0 240 1) as (H1 & _);
    [vm_compute; reflexivity|].
  destruct (Set_Pixel_out_of_range lcd_blank 240 5 1) as (_ & H2);
    [vm_compute; reflexivity|].
  rewrite H1 by (unfold ST7789V2_HEIGHT; lia).
  rewrite H2 by (unfold ST7789V2_HEIGHT, ST7789V2_WIDTH; lia).
  split; reflexivity.
Defined.

(** * Further properties of the code *)

(** ** Utils.h *)

(** X1: the overlap test is symmetric, and two boxes that only share an
    edge (or lie apart) on either axis do not collide. *)
Theorem AABB_Collides_sym_touch (a b : AABB) :
  AABB_Collides a b = AABB_Collides b a /\
  (box_x a + box_width a <= box_x b -> AABB_Collides a b = false) /\
  (box_y a + box_height a <= box_y b -> AABB_Collides a b = false) /\
  (AABB_Collides a b = true <->
   box_x a < box_x b + box_width b /\ box_x b < box_x a + box_width a /\
   box_y a < box_y b + box_height b /\ box_y b < box_y a + box_height a).
Proof.
  unfold AABB_Collides.
  repeat match goal with
         | |- context [?u <? ?v] =>
             destruct (Z.ltb_spec u v)
         end; simpl; repeat split; intros; try reflexivity; try lia;
    try discriminate; intuition lia.
Qed.

Lemma AABB_Collides_sym_touch_witness :
  AABB_Collides (mkAABB 0 0 10 10) (mkAABB 10 0 5 5) = false.
Proof.
  destruct (AABB_Collides_sym_touch (mkAABB 0 0 10 10) (mkAABB 10 0 5 5))
    as (_ & Htouch & _).
  apply Htouch. simpl. lia.
Defined.

(** X2: [Random_U16 max] draws once from the generator and returns a value
    strictly below [max]; it returns 0 when [max] is 0 and when the
    generator fails. *)
Theorem Random_U16_range (max : Z) (w : World) :
  0 <= max <= 65535 ->
  let r := eval (Random_U16 max) w in
  let w' := exec (Random_U16 max) w in
  0 <= r /\ (0 < max -> r < max) /\ (max = 0 -> r = 0) /\
  (hal_rng w (rng_reads w) = None -> r = 0) /\
  rng_reads w' = Datatypes.S (rng_reads w) /\
  tick_reads w' = tick_reads w /\ buzzer_cfg w' = buzzer_cfg w.
Proof.
  intros Hmax. cbv zeta. unfold Random_U16. hal_unfold.
  destruct (hal_rng w (rng_reads w)) as [rnd|]; simpl (option_map _ _);
    hal_unfold.
  - destruct (Z.eqb_spec max 0) as [->|Hne]; hal_unfold.
    + repeat split; try lia; discriminate.
    + pose proof (Z.mod_pos_bound (wrap_u32 rnd) max ltac:(lia)) as Hm.
      unfold wrap_u16. rewrite Z.mod_small by lia.
      repeat split; try lia; discriminate.
  - repeat split; lia.
Qed.

Lemma Random_U16_range_witness :
  eval (Random_U16 41) world_quiet < 41.
Proof.
  apply (Random_U16_range 41 world_quiet); lia.
Defined.

(** ** PongEngine.c: the collision steps *)

(** X3: when the ball overlaps the paddle, the paddle step negates the
    horizontal velocity, puts the ball's left edge on the paddle's right
    edge, adds one to the score and triggers the paddle beep; the ball no
    longer overlaps the paddle afterwards. *)
Theorem paddle_hit (engine : PongEngine_t) (w : World) :
  AABB_Collides (Ball_GetAABB (ball engine)) (Paddle_GetAABB (paddle engine))
    = true ->
  in_i16 (paddle_x (paddle engine) + paddle_width (paddle engine)) ->
  let b := ball engine in
  let p := paddle engine in
  let e' := eval (PongEngine_CheckPaddleCollision engine) w in
  let w' := exec (PongEngine_CheckPaddleCollision engine) w in
  ball_x (ball e') = paddle_x p + paddle_width p /\
  ball_y (ball e') = ball_y b /\ ball_size (ball e') = ball_size b /\
  ball_velocity (ball e') =
    mkVector2D (f32_neg (vec_x (ball_velocity b))) (vec_y (ball_velocity b)) /\
  paddle e' =
    mkPaddle (paddle_x p) (paddle_y p) (paddle_width p) (paddle_height p)
             (paddle_speed p) (wrap_u16 (paddle_score p + 1)) /\
  lives e' = lives engine /\
  w' = exec (PongEngine_Beep BUZZER_PADDLE_FREQ_HZ) w /\
  AABB_Collides (Ball_GetAABB (ball e')) (Paddle_GetAABB (paddle e')) = false.
Proof.
  intros Hhit Hedge. cbv zeta.
  unfold eval, exec, PongEngine_CheckPaddleCollision. rewrite Hhit.
  destruct engine as [[bx by_ bs [vx vy]] [px py pw ph ps sc] l].
  hal_unfold. cbn in Hedge |- *.
  rewrite wrap_i16_id by exact Hedge.
  repeat split.
  unfold AABB_Collides. cbn.
  destruct (Z.ltb_spec (px + pw) (px + pw)); [lia|reflexivity].
Qed.

Lemma paddle_hit_witness :
  let e := after_motion engine_ball_on_paddle idle in
  ball_x (ball (eval (PongEngine_CheckPaddleCollision e) world_quiet)) = 5.
Proof.
  apply (paddle_hit (after_motion engine_ball_on_paddle idle) world_quiet).
  - vm_compute. reflexivity.
  - vm_compute. split; discriminate.
Defined.

(** For a ball that fits ([0 <= size <= 237]), the wall step leaves the
    ball strictly inside the top, bottom and right edges. *)
Lemma wall_step_inside (engine : PongEngine_t) (w : World) :
  0 <= ball_size (ball engine) <= 237 ->
  let b' := ball (eval (PongEngine_CheckWallCollision engine) w) in
  0 < ball_y b' /\ ball_y b' + ball_size b' < SCREEN_HEIGHT /\
  ball_x b' + ball_size b' < SCREEN_WIDTH /\
  ball_size b' = ball_size (ball engine).
Proof.
  destruct engine as [[bx by_ bs [vx vy]] p l].
  unfold PongEngine_CheckWallCollision, SCREEN_HEIGHT, SCREEN_WIDTH.
  hal_unfold. intros Hs.
  destruct (Z.leb_spec by_ 0); [|destruct (Z.leb_spec 240 (by_ + bs))];
    hal_unfold;
    (destruct (Z.leb_spec 240 (bx + bs)); hal_unfold);
    rewrite ?wrap_i16_id by (unfold in_i16; lia); lia.
Qed.

(** X4: away from the top wall, a ball that reaches the bottom wall is put
    2 pixels above it with the vertical velocity negated, a ball that
    reaches the right wall is put 2 pixels left of it with the horizontal
    velocity negated, one wall beep each; a ball that reaches neither
    leaves engine and world unchanged.  When the right wall is reached
    together with the top or bottom wall, the velocity after the step is
    [(-vx, vy)]: the right-wall branch works from the velocity read at
    entry. *)
Theorem wall_step_cases (engine : PongEngine_t) (w : World) :
  in_i16 (ball_size (ball engine)) ->
  0 <= ball_size (ball engine) ->
  let b := ball engine in
  let v := ball_velocity b in
  let r := PongEngine_CheckWallCollision engine w in
  let b' := ball (fst r) in
  let beep := exec (PongEngine_Beep BUZZER_WALL_FREQ_HZ) in
  (0 < ball_y b -> ball_y b + ball_size b < SCREEN_HEIGHT ->
   ball_x b + ball_size b < SCREEN_WIDTH -> r = (engine, w)) /\
  (0 < ball_y b -> SCREEN_HEIGHT <= ball_y b + ball_size b ->
   ball_x b + ball_size b < SCREEN_WIDTH ->
   b' = mkBall (ball_x b) (SCREEN_HEIGHT - ball_size b - 2) (ball_size b)
               (mkVector2D (vec_x v) (f32_neg (vec_y v))) /\
   snd r = beep w) /\
  (0 < ball_y b -> ball_y b + ball_size b < SCREEN_HEIGHT ->
   SCREEN_WIDTH <= ball_x b + ball_size b ->
   b' = mkBall (SCREEN_WIDTH - ball_size b - 2) (ball_y b) (ball_size b)
               (mkVector2D (f32_neg (vec_x v)) (vec_y v)) /\
   snd r = beep w) /\
  ((ball_y b <= 0 \/ SCREEN_HEIGHT <= ball_y b + ball_size b) ->
   SCREEN_WIDTH <= ball_x b + ball_size b ->
   ball_velocity b' = mkVector2D (f32_neg (vec_x v)) (vec_y v) /\
   ball_x b' = SCREEN_WIDTH - ball_size b - 2 /\
   snd r = beep (beep w)).
Proof.
  destruct engine as [[bx by_ bs [vx vy]] p l].
  unfold PongEngine_CheckWallCollision, SCREEN_HEIGHT, SCREEN_WIDTH, in_i16.
  hal_unfold. intros Hs Hs0.
  assert (Hw : wrap_i16 (240 - bs - 2) = 240 - bs - 2)
    by (apply wrap_i16_id; unfold in_i16; lia).
  repeat split; intros;
    (destruct (Z.leb_spec by_ 0); [|destruct (Z.leb_spec 240 (by_ + bs))]);
    hal_unfold;
    (destruct (Z.leb_spec 240 (bx + bs)); hal_unfold);
    rewrite ?Hw; try reflexivity; try lia;
    destruct w; reflexivity.
Qed.

Lemma wall_step_cases_witness :
  PongEngine_CheckWallCollision engine_slow_ball world_quiet
    = (engine_slow_ball, world_quiet).
Proof.
  destruct (wall_step_cases engine_slow_ball world_quiet) as (Hnone & _).
  - vm_compute. split; discriminate.
  - vm_compute. discriminate.
  - apply Hnone; vm_compute; reflexivity.
Defined.

(** ** PongEngine.c: one frame *)

Lemma paddle_step_ball (engine : PongEngine_t) (w : World) :
  let e' := eval (PongEngine_CheckPaddleCollision engine) w in
  ball_y (ball e') = ball_y (ball engine) /\
  ball_size (ball e') = ball_size (ball engine) /\
  ((e' = engine) \/
   (paddle e' = Paddle_AddScore (paddle engine))).
Proof.
  destruct engine as [[bx by_ bs [vx vy]] p l].
  unfold PongEngine_CheckPaddleCollision. hal_unfold.
  match goal with |- context [if ?c then _ else _] => destruct c end;
    hal_unfold; repeat split; auto.
Qed.

Lemma goal_step_paddle (engine : PongEngine_t) (w : World) :
  let e' := eval (PongEngine_CheckGoal engine) w in
  paddle e' = paddle engine /\ ball_size (ball e') = ball_size (ball engine).
Proof.
  destruct (Z.lt_ge_cases (ball_x (ball engine)) 0) as [H|H]; cbv zeta.
  - rewrite (goal_step_hit engine w H). split; reflexivity.
  - unfold eval. rewrite (goal_step_miss engine w H). split; reflexivity.
Qed.

(** X5: an update never changes the ball's size nor the paddle's [x],
    width, height and speed; the paddle's [y] is the one [Paddle_Update]
    computes; the score stays or goes up by one (modulo 2^16). *)
Theorem Update_keeps_geometry (engine : PongEngine_t) (input : UserInput)
    (w : World) :
  let e' := snd (eval (PongEngine_Update engine input) w) in
  let p := paddle engine in
  ball_size (ball e') = ball_size (ball engine) /\
  paddle_x (paddle e') = paddle_x p /\
  paddle_width (paddle e') = paddle_width p /\
  paddle_height (paddle e') = paddle_height p /\
  paddle_speed (paddle e') = paddle_speed p /\
  paddle_y (paddle e') = paddle_y (Paddle_Update p input) /\
  (paddle_score (paddle e') = paddle_score p \/
   paddle_score (paddle e') = wrap_u16 (paddle_score p + 1)).
Proof.
  cbv zeta. rewrite Update_steps. cbn [snd].
  set (e1 := after_motion engine input).
  pose proof (wall_step_frame e1 w) as (_ & Hp2 & Hs2 & _).
  set (e2 := eval (PongEngine_CheckWallCollision e1) w) in *.
  set (w2 := exec (PongEngine_CheckWallCollision e1) w) in *.
  pose proof (paddle_step_ball e2 w2) as (_ & Hs3 & Hp3).
  set (e3 := eval (PongEngine_CheckPaddleCollision e2) w2) in *.
  set (w3 := exec (PongEngine_CheckPaddleCollision e2) w2) in *.
  pose proof (goal_step_paddle e3 w3) as (Hp4 & Hs4).
  cbv zeta in Hp4, Hs4. rewrite Hp4, Hs4, Hs3, Hs2.
  pose proof (Paddle_Update_frame (paddle engine) input)
    as (Hx & Hw & Hh & Hsp & Hsc).
  change (paddle e1) with (Paddle_Update (paddle engine) input) in Hp2.
  split; [reflexivity|].
  destruct Hp3 as [-> | ->]; rewrite Hp2; cbn;
    rewrite ?Hx, ?Hw, ?Hh, ?Hsp, ?Hsc; repeat split; auto.
Qed.

(** X6: for a ball of size 0 to 198, after every update the ball's top
    edge is below the top wall, its bottom edge above the bottom wall and
    its left edge at or right of the left edge of the screen; if the score
    did not change in the update, its right edge is left of the right
    wall as well. *)
Theorem Update_keeps_ball_on_screen (engine : PongEngine_t)
    (input : UserInput) (w : World) :
  0 <= ball_size (ball engine) <= 198 ->
  let e' := snd (eval (PongEngine_Update engine input) w) in
  let b' := ball e' in
  0 <= ball_x b' /\ 0 < ball_y b' /\
  ball_y b' + ball_size b' < SCREEN_HEIGHT /\
  (paddle_score (paddle e') = paddle_score (paddle engine) ->
   ball_x b' + ball_size b' < SCREEN_WIDTH).
Proof.
  intros Hsize. cbv zeta. rewrite Update_steps. cbn [snd].
  set (e1 := after_motion engine input).
  assert (Hs1 : ball_size (ball e1) = ball_size (ball engine)) by reflexivity.
  pose proof (wall_step_inside e1 w ltac:(rewrite Hs1; lia))
    as (Hy2 & Hyb2 & Hx2 & Hs2).
  pose proof (wall_step_frame e1 w) as (_ & Hp2 & _).
  cbv zeta in Hy2, Hyb2, Hx2, Hs2.
  set (e2 := eval (PongEngine_CheckWallCollision e1) w) in *.
  set (w2 := exec (PongEngine_CheckWallCollision e1) w) in *.
  pose proof (paddle_step_ball e2 w2) as (Hy3 & Hs3 & Hp3).
  cbv zeta in Hy3, Hs3, Hp3.
  set (e3 := eval (PongEngine_CheckPaddleCollision e2) w2) in *.
  set (w3 := exec (PongEngine_CheckPaddleCollision e2) w2) in *.
  unfold SCREEN_HEIGHT, SCREEN_WIDTH in *.
  destruct (Z.lt_ge_cases (ball_x (ball e3)) 0) as [Hgoal|Hnogoal].
  - rewrite (goal_step_hit e3 w3 Hgoal). cbv zeta.
    cbn [ball ball_x ball_y ball_size paddle].
    pose proof (reset_offset_range (hal_rng w3 (rng_reads w3))) as Hdx.
    pose proof (reset_offset_range (hal_rng w3 (Datatypes.S (rng_reads w3))))
      as Hdy.
    set (dx := reset_offset _) in *. set (dy := reset_offset _) in *.
    rewrite Hs3, Hs2, Hs1. set (size := ball_size (ball engine)) in *.
    unfold SCREEN_HEIGHT, SCREEN_WIDTH.
    assert (Hc : 21 <= Z.quot (240 - size) 2 /\
                 Z.quot (240 - size) 2 + size <= 219).
    { Z.to_euclidean_division_equations. lia. }
    rewrite (wrap_i16_id (Z.quot (240 - size) 2)) by (unfold in_i16; lia).
    rewrite !wrap_i16_id by (unfold in_i16; lia).
    repeat split; lia.
  - unfold eval at 1 2 3 4 5 6 7. rewrite (goal_step_miss e3 w3 Hnogoal).
    cbn [fst]. rewrite Hy3, Hs3.
    split; [exact Hnogoal|]. split; [exact Hy2|]. split; [lia|].
    intros Hsc. destruct Hp3 as [He|Hp].
    + rewrite He. lia.
    + exfalso. rewrite Hp, Hp2 in Hsc.
      change (paddle e1) with (Paddle_Update (paddle engine) input) in Hsc.
      pose proof (Paddle_Update_frame (paddle engine) input)
        as (_ & _ & _ & _ & Hkeep).
      unfold Paddle_AddScore in Hsc. cbn [paddle_score] in Hsc.
      rewrite Hkeep in Hsc. unfold wrap_u16 in Hsc.
      set (sc := paddle_score (paddle engine)) in *.
      Z.to_euclidean_division_equations. lia.
Qed.

Lemma Update_keeps_ball_on_screen_witness :
  0 <= ball_x (ball (snd (eval (PongEngine_Update engine_game_over idle)
                               world_quiet))).
Proof.
  apply (Update_keeps_ball_on_screen engine_game_over idle world_quiet).
  simpl. lia.
Defined.

(** ** The beep timer, away from the roll-over *)

(** X7: a beep whose deadline [t + 40] is not 0 modulo 2^32 is left
    running by a tick that comes less than 40 ms after the trigger and is
    silenced, with the deadline cleared, by a tick that comes 40 ms or more
    (up to 2^31 + 39 ms) after it. *)
Theorem beep_expires_after_40ms (freq d : Z) (w : World) :
  freq <> 0 ->
  let t := wrap_u32 (hal_tick w (tick_reads w)) in
  wrap_u32 (t + BUZZER_BEEP_MS) <> 0 ->
  0 <= d < 2147483648 + BUZZER_BEEP_MS ->
  wrap_u32 (hal_tick w (Datatypes.S (tick_reads w))) = wrap_u32 (t + d) ->
  let w2 := exec (PongEngine_Beep freq ;;; PongEngine_UpdateBuzzer) w in
  (d < BUZZER_BEEP_MS ->
   pwm_started (buzzer_cfg w2) = true /\
   buzzer_stop_tick w2 = wrap_u32 (t + BUZZER_BEEP_MS)) /\
  (BUZZER_BEEP_MS <= d ->
   pwm_started (buzzer_cfg w2) = false /\
   tim_pwm_on (htim (buzzer_cfg w2)) = false /\
   tim_ccr (htim (buzzer_cfg w2)) = 0 /\
   buzzer_stop_tick w2 = 0).
Proof.
  intros Hf t Hstop Hd Hnext w2.
  assert (Hw2 : w2 = exec PongEngine_UpdateBuzzer (exec (PongEngine_Beep freq) w)).
  { subst w2. unfold exec, bind.
    destruct (PongEngine_Beep freq w) as [[] w1]. reflexivity. }
  rewrite Hw2, Beep_world. fold t.
  rewrite UpdateBuzzer_pending by exact Hstop.
  cbn [buzzer_cfg buzzer_stop_tick hal_tick tick_reads hal_rng rng_reads].
  rewrite Hnext.
  assert (Hdiff : wrap_i32 (wrap_u32 (t + d) - wrap_u32 (t + BUZZER_BEEP_MS))
                  = d - BUZZER_BEEP_MS).
  { unfold wrap_i32, wrap_u32, BUZZER_BEEP_MS in *.
    Z.to_euclidean_division_equations. lia. }
  rewrite Hdiff.
  pose proof (buzzer_tone_starts (buzzer_cfg w) freq BUZZER_VOLUME Hf
                ltac:(discriminate)) as Hon.
  unfold BUZZER_BEEP_MS in *.
  split; intros Hcase.
  - destruct (Z.leb_spec 0 (d - 40)); [lia|].
    cbn [buzzer_cfg buzzer_stop_tick]. split; [exact Hon|reflexivity].
  - destruct (Z.leb_spec 0 (d - 40)); [|lia].
    cbn [buzzer_cfg buzzer_stop_tick]. unfold buzzer_off. rewrite Hon.
    repeat split.
Qed.

Lemma beep_expires_after_40ms_witness :
  pwm_started
    (buzzer_cfg (exec (PongEngine_Beep 800 ;;; PongEngine_UpdateBuzzer)
                      (mkWorld (buzzer_cfg world_quiet) 0
                               (fun k => 1000 + 50 * Z.of_nat k) 0%nat
                               (fun _ => None) 0%nat))) = false.
Proof.
  destruct (beep_expires_after_40ms 800 50
              (mkWorld (buzzer_cfg world_quiet) 0
                       (fun k => 1000 + 50 * Z.of_nat k) 0%nat
                       (fun _ => None) 0%nat)) as (_ & Hlate).
  - discriminate.
  - vm_compute. discriminate.
  - unfold BUZZER_BEEP_MS. lia.
  - vm_compute. reflexivity.
  - apply Hlate. unfold BUZZER_BEEP_MS. lia.
Defined.

(** ** Buzzer.c *)

(** X8: a tone requested while another one plays replaces it completely:
    the result is the state a single request for the later tone would have
    produced. *)
Theorem buzzer_tone_last_wins (cfg : Buzzer_cfg_t) (f1 v1 f2 v2 : Z) :
  f1 <> 0 -> v1 <> 0 -> f2 <> 0 -> v2 <> 0 ->
  buzzer_tone (buzzer_tone cfg f1 v1) f2 v2 = buzzer_tone cfg f2 v2.
Proof.
  intros Hf1 Hv1 Hf2 Hv2. unfold buzzer_tone, buzzer_init.
  destruct (Z.eqb_spec v1 0); [contradiction|].
  destruct (Z.eqb_spec f1 0); [contradiction|].
  destruct (Z.eqb_spec v2 0); [contradiction|].
  destruct (Z.eqb_spec f2 0); [contradiction|].
  destruct cfg as [[arr cnt ccr on] tf mn mx sd ps].
  destruct sd, ps; reflexivity.
Qed.

Lemma buzzer_tone_last_wins_witness :
  buzzer_tone (buzzer_tone (buzzer_cfg world_quiet) 1200 50) 800 50
    = buzzer_tone (buzzer_cfg world_quiet) 800 50.
Proof.
  apply (buzzer_tone_last_wins (buzzer_cfg world_quiet) 1200 50 800 50);
    discriminate.
Defined.

Lemma clamp_u32_bounds (x lo hi : Z) :
  lo <= hi -> lo <= clamp_u32 x lo hi <= hi.
Proof.
  intros H. unfold clamp_u32.
  destruct (Z.ltb_spec x lo); [lia|]. destruct (Z.ltb_spec hi x); lia.
Qed.

Lemma wrap_u32_range (z : Z) : 0 <= wrap_u32 z < 4294967296.
Proof. unfold wrap_u32. apply Z.mod_pos_bound. lia. Qed.

(** X9: with frequency limits above 0, a tone request with non-zero
    frequency and volume leaves the PWM running with a period register of
    at least 1, the counter at 0 and a compare value of at most half the
    period (a duty cycle of at most 50%); when the clamped frequency
    divides the tick frequency at least twice, the period register is
    [tick_freq / freq - 1]. *)
Theorem buzzer_tone_registers (cfg : Buzzer_cfg_t) (freq vol : Z) :
  0 < freq < 4294967296 -> 0 < vol <= 255 ->
  0 < min_freq_hz cfg -> 0 < max_freq_hz cfg ->
  0 <= tick_freq_hz cfg < 4294967296 ->
  let cfg' := buzzer_tone cfg freq vol in
  let t := htim cfg' in
  let f := clamp_u32 freq (min_freq_hz cfg) (max_freq_hz cfg) in
  pwm_started cfg' = true /\ setup_done cfg' = true /\
  0 < f /\
  1 <= tim_arr t < 4294967296 /\ tim_cnt t = 0 /\
  0 <= tim_ccr t /\ 2 * tim_ccr t <= tim_arr t + 1 /\
  (2 <= tick_freq_hz cfg / f -> tim_arr t = tick_freq_hz cfg / f - 1).
Proof.
  intros Hf Hv Hmin Hmax Htick. cbv zeta.
  assert (Hclamp : 0 < clamp_u32 freq (min_freq_hz cfg) (max_freq_hz cfg)).
  { unfold clamp_u32.
    destruct (Z.ltb_spec freq (min_freq_hz cfg)); [lia|].
    destruct (Z.ltb_spec (max_freq_hz cfg) freq); lia. }
  unfold buzzer_tone.
  destruct (Z.eqb_spec vol 0); [lia|]. destruct (Z.eqb_spec freq 0); [lia|].
  cbn [orb].
  assert (Hsame : forall c, min_freq_hz (if setup_done c then c else buzzer_init c)
                            = min_freq_hz c /\
                            max_freq_hz (if setup_done c then c else buzzer_init c)
                            = max_freq_hz c /\
                            tick_freq_hz (if setup_done c then c else buzzer_init c)
                            = tick_freq_hz c /\
                            setup_done (if setup_done c then c else buzzer_init c)
                            = true).
  { intros c. unfold buzzer_init. destruct (setup_done c) eqn:E; rewrite ?E; auto. }
  destruct (Hsame cfg) as (-> & -> & -> & Hsd).
  cbn [pwm_started setup_done htim tim_arr tim_cnt tim_ccr].
  set (f := clamp_u32 freq (min_freq_hz cfg) (max_freq_hz cfg)) in *.
  set (q := tick_freq_hz cfg / f).
  set (arr := clamp_u32 (wrap_u32 (q - 1)) 1 4294967295).
  assert (Harr : 1 <= arr <= 4294967295) by (apply clamp_u32_bounds; lia).
  set (volc := wrap_u8 (clamp_u32 vol 0 100)).
  assert (Hvol : 0 <= volc <= 100).
  { subst volc. pose proof (clamp_u32_bounds vol 0 100 ltac:(lia)).
    unfold wrap_u8. rewrite Z.mod_small by lia. lia. }
  set (half := wrap_u32 (arr + 1) / 2).
  assert (Hhalf : 0 <= half /\ 2 * half <= arr + 1).
  { subst half. unfold wrap_u32. Z.to_euclidean_division_equations. lia. }
  assert (Hccr : 0 <= wrap_u32 (half * volc) / 100 <= half).
  { pose proof (wrap_u32_range (half * volc)) as Hr.
    assert (wrap_u32 (half * volc) <= half * volc).
    { unfold wrap_u32. apply Z.mod_le; nia. }
    split; [apply Z.div_pos; lia|].
    apply Z.div_le_upper_bound; [lia|]. nia. }
  repeat split; try lia; try exact Hsd.
  intros Hq. subst arr. unfold clamp_u32, wrap_u32.
  assert (0 <= q < 4294967296).
  { subst q. split; [apply Z.div_pos; lia|].
    apply Z.div_lt_upper_bound; nia. }
  rewrite Z.mod_small by lia.
  destruct (Z.ltb_spec (q - 1) 1); [lia|].
  destruct (Z.ltb_spec 4294967295 (q - 1)); lia.
Qed.

Lemma buzzer_tone_registers_witness :
  tim_arr (htim (buzzer_tone (buzzer_cfg world_quiet) 1200 50)) = 832.
Proof.
  destruct (buzzer_tone_registers (buzzer_cfg world_quiet) 1200 50)
    as (_ & _ & _ & _ & _ & _ & _ & Harr); try (simpl; lia).
  rewrite Harr; vm_compute; [reflexivity|discriminate].
Defined.

(** X10: a request with volume 0 or frequency 0 is a [buzzer_off];
    [buzzer_off] after a tone stops the PWM and clears the compare value,
    and a second [buzzer_off] changes nothing. *)
Theorem buzzer_off_silences (cfg : Buzzer_cfg_t) (freq vol : Z) :
  (setup_done cfg = true ->
   buzzer_tone cfg freq 0 = buzzer_off cfg /\
   buzzer_tone cfg 0 vol = buzzer_off cfg) /\
  (freq <> 0 -> vol <> 0 ->
   let cfg' := buzzer_off (buzzer_tone cfg freq vol) in
   buzzer_is_running cfg' = 0 /\ tim_pwm_on (htim cfg') = false /\
   tim_ccr (htim cfg') = 0) /\
  buzzer_is_running (buzzer_off cfg) = 0 /\
  buzzer_off (buzzer_off cfg) = buzzer_off cfg.
Proof.
  split; [|split; [|split]].
  - intros Hsd. unfold buzzer_tone. rewrite Hsd.
    rewrite orb_true_r. simpl. split; reflexivity.
  - intros Hf Hv. cbv zeta. unfold buzzer_off, buzzer_is_running.
    rewrite (buzzer_tone_starts cfg freq vol Hf Hv). repeat split.
  - unfold buzzer_off, buzzer_is_running. destruct (pwm_started cfg) eqn:E;
      simpl; rewrite ?E; reflexivity.
  - unfold buzzer_off. destruct (pwm_started cfg) eqn:E; simpl; rewrite ?E;
      reflexivity.
Qed.

Lemma buzzer_off_silences_witness :
  buzzer_is_running (buzzer_off (buzzer_tone (buzzer_cfg world_quiet) 1200 50))
    = 0.
Proof.
  destruct (buzzer_off_silences (buzzer_cfg world_quiet) 1200 50)
    as (_ & H & _).
  apply H; discriminate.
Defined.

(** ** PWM.c *)

Lemma apply_duty_bounds (cfg : PWM_cfg_t) (d : Z) :
  0 <= tim_arr (pwm_htim cfg) ->
  let cfg' := apply_duty_at_current_frequency cfg d in
  0 <= tim_ccr (pwm_htim cfg') <= tim_arr (pwm_htim cfg') /\
  tim_arr (pwm_htim cfg') = tim_arr (pwm_htim cfg) /\
  tim_cnt (pwm_htim cfg') = tim_cnt (pwm_htim cfg) /\
  pwm_running cfg' = pwm_running cfg /\ last_duty cfg' = last_duty cfg.
Proof.
  intros Harr. cbv zeta. unfold apply_duty_at_current_frequency.
  cbn [pwm_htim tim_ccr tim_arr tim_cnt pwm_running last_duty].
  set (ccr := wrap_u32 _ / 100).
  assert (0 <= ccr).
  { subst ccr. apply Z.div_pos; [|lia]. apply wrap_u32_range. }
  destruct (Z.ltb_spec (tim_arr (pwm_htim cfg)) ccr); repeat split; lia.
Qed.

Lemma apply_duty_value (cfg : PWM_cfg_t) (d : Z) :
  0 <= tim_arr (pwm_htim cfg) <= 65535 -> 0 <= d <= 255 ->
  tim_ccr (pwm_htim (apply_duty_at_current_frequency cfg d)) =
    Z.min (tim_arr (pwm_htim cfg))
          ((tim_arr (pwm_htim cfg) + 1) * Z.min d 100 / 100).
Proof.
  intros Harr Hd. unfold apply_duty_at_current_frequency.
  cbn [pwm_htim tim_ccr].
  set (arr := tim_arr (pwm_htim cfg)) in *.
  assert (Hdc : wrap_u8 (clamp_u32 d 0 100) = Z.min d 100).
  { unfold clamp_u32, wrap_u8.
    destruct (Z.ltb_spec d 0); [lia|].
    destruct (Z.ltb_spec 100 d); rewrite Z.mod_small by lia; lia. }
  rewrite Hdc. unfold wrap_u32.
  rewrite (Z.mod_small (arr + 1)) by lia.
  rewrite (Z.mod_small ((arr + 1) * Z.min d 100)) by nia.
  destruct (Z.ltb_spec arr ((arr + 1) * Z.min d 100 / 100)); lia.
Qed.

(** X11: [PWM_Set] with non-zero frequency and duty (limits above 0)
    leaves the PWM running with the period register between 1 and 65535,
    the counter at 0 and the compare value
    [min (ARR, (ARR + 1) * min (duty, 100) / 100)], so never above the
    period register; a duty of 100 or more gives [CCR = ARR].  With a duty
    or a frequency of 0 it is [PWM_Off]. *)
Theorem PWM_Set_registers (cfg : PWM_cfg_t) (freq duty : Z) :
  0 < freq < 4294967296 -> 0 < duty <= 255 ->
  0 < pwm_min_freq_hz cfg -> 0 < pwm_max_freq_hz cfg ->
  let cfg' := PWM_Set cfg freq duty in
  let t := pwm_htim cfg' in
  pwm_running cfg' = true /\ last_duty cfg' = duty /\
  1 <= tim_arr t <= 65535 /\ tim_cnt t = 0 /\
  tim_ccr t = Z.min (tim_arr t) ((tim_arr t + 1) * Z.min duty 100 / 100) /\
  0 <= tim_ccr t <= tim_arr t /\
  (100 <= duty -> tim_ccr t = tim_arr t) /\
  PWM_Set cfg freq 0 = PWM_Off cfg /\ PWM_Set cfg 0 duty = PWM_Off cfg.
Proof.
  intros Hf Hd Hmin Hmax. cbv zeta. unfold PWM_Set.
  destruct (Z.eqb_spec duty 0); [lia|]. destruct (Z.eqb_spec freq 0); [lia|].
  cbn [orb].
  set (c1 := PWM_SetFreq cfg freq).
  assert (H1 : 1 <= tim_arr (pwm_htim c1) <= 65535 /\
               tim_cnt (pwm_htim c1) = 0 /\ pwm_setup_done c1 = true).
  { subst c1. unfold PWM_SetFreq, PWM_Init.
    destruct cfg as [[arr cnt ccr on] tf mn mx sd ps ld].
    cbn [pwm_setup_done pwm_htim pwm_tick_freq_hz pwm_min_freq_hz
         pwm_max_freq_hz pwm_running last_duty tim_ccr tim_pwm_on tim_arr
         tim_cnt].
    destruct sd;
      cbn [pwm_setup_done pwm_htim pwm_tick_freq_hz pwm_min_freq_hz
           pwm_max_freq_hz pwm_running last_duty tim_ccr tim_pwm_on tim_arr
           tim_cnt];
      match goal with
      | |- context [clamp_u32 ?a 1 65535] =>
          pose proof (clamp_u32_bounds a 1 65535 ltac:(lia));
          set (A := clamp_u32 a 1 65535) in *
      end;
      match goal with
      | |- context [if ?c then _ else _] => destruct c
      end;
      rewrite ?(proj1 (proj2 (apply_duty_bounds _ _ _)));
      try (pose proof (apply_duty_bounds
                         (mkPWM_cfg (mkTIM A 0 ccr on) tf mn mx true ps ld) ld
                         ltac:(cbn; lia)) as (_ & Ha & Hc & _);
           rewrite Ha, Hc);
      cbn; repeat split; lia. }
  destruct H1 as (Harr & Hcnt & Hsd).
  unfold PWM_SetDuty. rewrite Hsd.
  destruct (Z.eqb_spec duty 0); [lia|].
  set (c2 := mkPWM_cfg _ _ _ _ _ true duty).
  assert (Harr2 : tim_arr (pwm_htim c2) = tim_arr (pwm_htim c1)).
  { subst c2. cbn [pwm_htim]. destruct (pwm_running c1); reflexivity. }
  assert (Hcnt2 : tim_cnt (pwm_htim c2) = 0).
  { subst c2. cbn [pwm_htim]. destruct (pwm_running c1); cbn; exact Hcnt. }
  pose proof (apply_duty_bounds c2 duty ltac:(lia)) as (Hb & Ha & Hc & Hr & Hl).
  pose proof (apply_duty_value c2 duty ltac:(lia) ltac:(lia)) as Hv.
  cbv zeta in Hb, Ha, Hc, Hr, Hl.
  rewrite Ha, Hc, Hr, Hl, Hv, Harr2, Hcnt2.
  set (arr := tim_arr (pwm_htim c1)) in *.
  assert (Hfull : 100 <= duty -> Z.min arr ((arr + 1) * Z.min duty 100 / 100) = arr).
  { intros H100. rewrite (Z.min_r duty 100) by lia.
    rewrite Z.div_mul by lia. lia. }
  assert (0 <= (arr + 1) * Z.min duty 100 / 100).
  { apply Z.div_pos; nia. }
  repeat split; try lia; try reflexivity; try exact Hfull.
Qed.

Lemma PWM_Set_registers_witness :
  tim_ccr (pwm_htim (PWM_Set (mkPWM_cfg (mkTIM 0 0 0 false) 1000000 1 100000
                                        false false 0) 1000 100)) = 999.
Proof.
  destruct (PWM_Set_registers
              (mkPWM_cfg (mkTIM 0 0 0 false) 1000000 1 100000 false false 0)
              1000 100) as (_ & _ & _ & _ & _ & _ & Hfull & _);
    try (simpl; lia).
  rewrite Hfull by lia. vm_compute. reflexivity.
Defined.

Ltac pwm_norm :=
  cbv beta iota zeta delta
    [PWM_SetFreq PWM_SetDuty PWM_Init apply_duty_at_current_frequency
     pwm_htim pwm_tick_freq_hz pwm_min_freq_hz pwm_max_freq_hz
     pwm_setup_done pwm_running last_duty tim_arr tim_cnt tim_ccr tim_pwm_on
     andb].

(** X12: with a non-zero duty, setting the duty and then the frequency
    gives the same state as setting the frequency and then the duty: the
    duty is re-applied at the new period. *)
Theorem PWM_SetFreq_SetDuty_commute (cfg : PWM_cfg_t) (freq duty : Z) :
  0 < duty ->
  PWM_SetFreq (PWM_SetDuty cfg duty) freq
    = PWM_SetDuty (PWM_SetFreq cfg freq) duty.
Proof.
  intros Hd.
  assert (Hz : (duty =? 0) = false) by (apply Z.eqb_neq; lia).
  assert (Hp : (0 <? duty) = true) by (apply Z.ltb_lt; lia).
  destruct cfg as [[arr cnt ccr on] tf mn mx sd ps ld].
  destruct sd, ps; pwm_norm; rewrite ?Hz; pwm_norm; rewrite ?Hp; pwm_norm;
    try reflexivity;
    destruct (0 <? ld); pwm_norm; rewrite ?Hz; pwm_norm; reflexivity.
Qed.

Lemma PWM_SetFreq_SetDuty_commute_witness :
  let cfg := mkPWM_cfg (mkTIM 99 7 3 false) 1000000 1 100000 true false 0 in
  PWM_SetFreq (PWM_SetDuty cfg 30) 2000 =
  PWM_SetDuty (PWM_SetFreq cfg 2000) 30.
Proof.
  apply (PWM_SetFreq_SetDuty_commute
           (mkPWM_cfg (mkTIM 99 7 3 false) 1000000 1 100000 true false 0)
           2000 30).
  lia.
Defined.

(** X13: [PWM_SetTicks] with on and off times between 1 and 65535 whose
    sum is at most 65536 programs the period [on + off - 1] and the
    compare value [on - 1], restarts the counter, leaves the PWM running
    and records the duty [100 * on / (on + off)]; with an on time of 0 it
    is [PWM_Off]. *)
Theorem PWM_SetTicks_exact (cfg : PWM_cfg_t) (on_ticks off_ticks : Z) :
  1 <= on_ticks <= 65535 -> 1 <= off_ticks <= 65535 ->
  on_ticks + off_ticks <= 65536 ->
  let cfg' := PWM_SetTicks cfg on_ticks off_ticks in
  let t := pwm_htim cfg' in
  tim_arr t = on_ticks + off_ticks - 1 /\ tim_ccr t = on_ticks - 1 /\
  tim_cnt t = 0 /\ pwm_running cfg' = true /\
  last_duty cfg' = 100 * on_ticks / (on_ticks + off_ticks) /\
  tim_ccr t <= tim_arr t /\
  (pwm_setup_done cfg = true -> PWM_SetTicks cfg 0 off_ticks = PWM_Off cfg).
Proof.
  intros Hon Hoff Hsum. cbv zeta. unfold PWM_SetTicks.
  destruct (Z.eqb_spec on_ticks 0); [lia|].
  assert (Hc1 : clamp_u32 on_ticks 1 65535 = on_ticks).
  { unfold clamp_u32. destruct (Z.ltb_spec on_ticks 1); [lia|].
    destruct (Z.ltb_spec 65535 on_ticks); lia. }
  assert (Hc2 : clamp_u32 off_ticks 1 65535 = off_ticks).
  { unfold clamp_u32. destruct (Z.ltb_spec off_ticks 1); [lia|].
    destruct (Z.ltb_spec 65535 off_ticks); lia. }
  rewrite Hc1, Hc2. cbn [pwm_htim tim_arr tim_ccr tim_cnt pwm_running last_duty].
  unfold wrap_u32.
  rewrite (Z.mod_small (on_ticks + off_ticks)) by lia.
  rewrite (Z.mod_small (on_ticks + off_ticks - 1)) by lia.
  rewrite (Z.mod_small (on_ticks - 1)) by lia.
  rewrite (Z.mod_small (100 * on_ticks)) by lia.
  assert (Harr : clamp_u32 (on_ticks + off_ticks - 1) 1 65535
                 = on_ticks + off_ticks - 1).
  { unfold clamp_u32.
    destruct (Z.ltb_spec (on_ticks + off_ticks - 1) 1); [lia|].
    destruct (Z.ltb_spec 65535 (on_ticks + off_ticks - 1)); lia. }
  rewrite Harr.
  assert (Hccr : clamp_u32 (on_ticks - 1) 0 (on_ticks + off_ticks - 1)
                 = on_ticks - 1).
  { unfold clamp_u32. destruct (Z.ltb_spec (on_ticks - 1) 0); [lia|].
    destruct (Z.ltb_spec (on_ticks + off_ticks - 1) (on_ticks - 1)); lia. }
  rewrite Hccr.
  assert (Hduty : 0 <= 100 * on_ticks / (on_ticks + off_ticks) <= 100).
  { split; [apply Z.div_pos; lia|].
    apply Z.div_le_upper_bound; lia. }
  assert (Hld : wrap_u8 (clamp_u32 (100 * on_ticks / (on_ticks + off_ticks)) 0 100)
                = 100 * on_ticks / (on_ticks + off_ticks)).
  { unfold clamp_u32, wrap_u8.
    destruct (Z.ltb_spec (100 * on_ticks / (on_ticks + off_ticks)) 0); [lia|].
    destruct (Z.ltb_spec 100 (100 * on_ticks / (on_ticks + off_ticks))); [lia|].
    apply Z.mod_small. lia. }
  rewrite Hld. repeat split; try lia.
  intros Hsd. rewrite Hsd. reflexivity.
Qed.

Lemma PWM_SetTicks_exact_witness :
  tim_arr (pwm_htim (PWM_SetTicks
                       (mkPWM_cfg (mkTIM 0 0 0 false) 1000000 1 100000
                                  false false 0) 300 700)) = 999.
Proof.
  apply (PWM_SetTicks_exact
           (mkPWM_cfg (mkTIM 0 0 0 false) 1000000 1 100000 false false 0)
           300 700); lia.
Defined.

(** ** Ball.c *)

(** X14: [Ball_Init] with a size of 0 to 240 puts the ball inside the
    screen, at the same distance from the left and top edges, with a right
    (bottom) margin equal to the left (top) one or one pixel larger, and
    with equal velocity components. *)
Theorem Ball_Init_centred (size : Z) (speed : spec_float) :
  0 <= size <= 240 ->
  let b := Ball_Init size speed in
  ball_size b = size /\ ball_x b = ball_y b /\
  0 <= ball_x b /\ ball_x b + size <= SCREEN_WIDTH /\
  0 <= (SCREEN_WIDTH - (ball_x b + size)) - ball_x b <= 1 /\
  vec_x (ball_velocity b) = vec_y (ball_velocity b).
Proof.
  intros Hs. cbv zeta. unfold Ball_Init, SCREEN_WIDTH, SCREEN_HEIGHT.
  cbn [ball_size ball_x ball_y ball_velocity vec_x vec_y].
  assert (Hq : 0 <= Z.quot (240 - size) 2 <= 120 /\
               0 <= 240 - size - 2 * Z.quot (240 - size) 2 <= 1).
  { Z.to_euclidean_division_equations. lia. }
  rewrite wrap_i16_id by (unfold in_i16; lia).
  repeat split; lia.
Qed.

Lemma Ball_Init_centred_witness : ball_x (Ball_Init 7 (f32_of_Z 8)) = 116.
Proof.
  destruct (Ball_Init_centred 7 (f32_of_Z 8)) as (_ & _ & _ & _ & _ & _);
    [lia|]. reflexivity.
Defined.

Lemma digits2_pos_bound (m : positive) :
  Z.pos m < 2 ^ Z.pos (digits2_pos m).
Proof.
  induction m as [p IH|p IH|]; cbn [digits2_pos].
  - rewrite Pos2Z.inj_succ, Z.pow_succ_r by lia. lia.
  - rewrite Pos2Z.inj_succ, Z.pow_succ_r by lia. lia.
  - reflexivity.
Qed.

Lemma f32_valid_mantissa (s : bool) (m : positive) (e : Z) :
  f32_valid (S754_finite s m e) = true -> Z.pos m < 2 ^ 24.
Proof.
  unfold f32_valid, valid_binary, bounded, canonical_mantissa, fexp,
    f32_prec, f32_emax.
  intros H. apply andb_true_iff in H as [H _].
  apply Z.eqb_eq in H.
  assert (Hd : Z.pos (digits2_pos m) <= 24) by lia.
  pose proof (digits2_pos_bound m) as Hb.
  assert (2 ^ Z.pos (digits2_pos m) <= 2 ^ 24)
    by (apply Z.pow_le_mono_r; lia).
  lia.
Qed.

Lemma f32_trunc_below_one (v : spec_float) :
  f32_valid v = true -> f32_lt (SFabs v) (f32_of_Z 1) = true ->
  f32_trunc v = 0.
Proof.
  change (f32_of_Z 1) with (S754_finite false 8388608 (-23)).
  intros Hv Hlt. destruct v as [s|s| |s m e].
  { reflexivity. }
  { exfalso. cbv in Hlt. discriminate. }
  { exfalso. cbv in Hlt. discriminate. }
  pose proof (f32_valid_mantissa s m e Hv) as Hm.
  unfold f32_lt, SFltb, SFabs, SFcompare in Hlt.
  change (2 ^ 24) with 16777216 in Hm.
  assert (He : e < -23 \/ (e = -23 /\ Z.pos m < 8388608)).
  { destruct (Z.compare_spec e (-23)) as [->|Hl|Hg].
    - right. split; [reflexivity|].
      rewrite Pos.compare_cont_spec in Hlt.
      destruct (Pos.compare_spec m 8388608%positive) as [Heq|Hless|Hgt];
        cbn [Pos.switch_Eq] in Hlt; try discriminate.
      exact Hless.
    - left. exact Hl.
    - discriminate. }
  unfold f32_trunc.
  destruct (Z.leb_spec 0 e); [lia|].
  assert (Hdiv : Z.pos m / 2 ^ (- e) = 0).
  { apply Z.div_small. split; [lia|].
    destruct He as [He|[-> Hm']]; [|exact Hm'].
    assert (2 ^ 24 <= 2 ^ (- e)) by (apply Z.pow_le_mono_r; lia).
    change (2 ^ 24) with 16777216 in *. lia. }
  rewrite Hdiv. destruct s; reflexivity.
Qed.

(** X15: a velocity component of magnitude below 1 (a canonical binary32
    value) is truncated to 0 pixels: a ball whose two components are below
    1 in magnitude is not moved by [Ball_Update], however often it runs. *)
Theorem Ball_Update_subpixel (b : Ball_t) (n : nat) :
  in_i16 (ball_x b) -> in_i16 (ball_y b) ->
  f32_valid (vec_x (ball_velocity b)) = true ->
  f32_valid (vec_y (ball_velocity b)) = true ->
  f32_lt (SFabs (vec_x (ball_velocity b))) (f32_of_Z 1) = true ->
  f32_lt (SFabs (vec_y (ball_velocity b))) (f32_of_Z 1) = true ->
  Nat.iter n Ball_Update b = b.
Proof.
  intros Hx Hy Hvx Hvy Hlx Hly.
  assert (Hone : Ball_Update b = b).
  { unfold Ball_Update, f32_to_i16.
    rewrite (f32_trunc_below_one _ Hvx Hlx), (f32_trunc_below_one _ Hvy Hly).
    change (wrap_i16 0) with 0. rewrite !Z.add_0_r.
    rewrite !wrap_i16_id by assumption. destruct b; reflexivity. }
  induction n as [|k IH]; [reflexivity|].
  simpl. rewrite IH. exact Hone.
Qed.

Lemma Ball_Update_subpixel_witness :
  Nat.iter 10 Ball_Update (Ball_Init 6 (f32_of_Z 1)) = Ball_Init 6 (f32_of_Z 1).
Proof.
  apply (Ball_Update_subpixel (Ball_Init 6 (f32_of_Z 1)) 10);
    vm_compute; first [reflexivity | split; discriminate].
Defined.

(** ** Joystick.c *)

Lemma SFcompare_opp (a b : spec_float) :
  SFcompare (SFopp a) (SFopp b) = SFcompare b a.
Proof.
  destruct a as [sa|sa| |sa ma ea], b as [sb|sb| |sb mb eb]; simpl;
    try reflexivity;
    try (destruct sa; reflexivity); try (destruct sb; reflexivity);
    try (destruct sa, sb; reflexivity).
  destruct sa, sb; simpl; try reflexivity;
    rewrite (Z.compare_antisym ea eb); destruct (ea ?= eb); simpl;
    try reflexivity;
    first [ rewrite (Pos.compare_cont_antisym ma mb Eq)
          | rewrite (Pos.compare_cont_antisym mb ma Eq) ];
    reflexivity.
Qed.

Lemma f32_lt_opp (a b : spec_float) :
  f32_lt (f32_neg a) (f32_neg b) = f32_lt b a.
Proof. unfold f32_lt, f32_neg, SFltb. rewrite SFcompare_opp. reflexivity. Qed.

(** X16: a negative angle, in particular the sentinel -1, gives CENTRE
    whatever the magnitude; with a magnitude of at least 0.05, every angle
    of 337.5 or more (also 360 and beyond) gives N and a NaN angle gives
    NW; a NaN magnitude is treated as a deflection. *)
Theorem GetDirection_edges (a m : spec_float) :
  (f32_lt a (f32_of_Z 0) = true -> Joystick_GetDirection a m = CENTRE) /\
  Joystick_GetDirection (f32_of_Z (-1)) m = CENTRE /\
  (f32_ge m (f32_lit 5 100) = true ->
   (f32_ge a (f32_lit 3375 10) = true -> Joystick_GetDirection a m = N) /\
   Joystick_GetDirection S754_nan m = NW) /\
  (f32_lt a (f32_of_Z 0) = false ->
   Joystick_GetDirection a S754_nan <> CENTRE).
Proof.
  split; [|split; [|split]].
  - intros Ha. unfold Joystick_GetDirection. rewrite Ha. reflexivity.
  - reflexivity.
  - intros Hm. split.
    + intros Ha.
      assert (Hpos : f32_lt a (f32_of_Z 0) = false).
      { unfold f32_ge, f32_lt, SFleb, SFltb in *.
        destruct a as [s|s| |s ma ea]; try discriminate; try reflexivity.
        - destruct s; [discriminate|reflexivity].
        - destruct s; [discriminate|reflexivity]. }
      rewrite (GetDirection_deflected m Hm a Hpos), Ha. reflexivity.
    + rewrite (GetDirection_deflected m Hm S754_nan eq_refl). reflexivity.
  - intros Ha. unfold Joystick_GetDirection. rewrite Ha.
    change (f32_lt S754_nan (f32_lit 5 100)) with false. cbn [orb].
    repeat match goal with
           | |- context [if ?c then _ else _] => destruct c
           end; discriminate.
Qed.

Lemma GetDirection_edges_witness :
  Joystick_GetDirection (f32_of_Z 400) (f32_of_Z 1) = N.
Proof.
  destruct (GetDirection_edges (f32_of_Z 400) (f32_of_Z 1))
    as (_ & _ & H & _).
  destruct H as (HN & _); [vm_compute; reflexivity|].
  apply HN. vm_compute. reflexivity.
Defined.

Lemma clamp_unit (r : spec_float) :
  let c := if f32_lt (f32_of_Z 1) r then f32_of_Z 1 else r in
  let c := if f32_lt c (f32_of_Z (-1)) then f32_of_Z (-1) else c in
  f32_lt (f32_of_Z 1) c = false /\ f32_lt c (f32_of_Z (-1)) = false.
Proof.
  cbv zeta. destruct (f32_lt (f32_of_Z 1) r) eqn:H1.
  - split; reflexivity.
  - destruct (f32_lt r (f32_of_Z (-1))) eqn:H2.
    + split; reflexivity.
    + split; assumption.
Qed.

Lemma all_from_spec (f : Z -> bool) (n : nat) (z : Z) :
  all_from f n z = true -> forall k, z <= k < z + Z.of_nat n -> f k = true.
Proof.
  revert z. induction n as [|n IH]; intros z H k Hk; [lia|].
  cbn [all_from] in H. apply andb_true_iff in H as [Hz Hrest].
  destruct (Z.eq_dec k z) as [->|Hne]; [exact Hz|].
  apply (IH (z + 1) Hrest). lia.
Qed.

(** X17: no component of [Joystick_GetCoord] is above 1 or below -1; with
    centres in the range of the 12-bit ADC a zero offset gives [(+0, -0)];
    with a zero centre (there is no guard) a zero offset gives NaN and a
    non-zero offset of the ADC's range saturates at 1 or -1. *)
Theorem GetCoord_range (x y center_x center_y : Z) :
  let v := Joystick_GetCoord x y center_x center_y in
  (f32_lt (f32_of_Z 1) (vec_x v) = false /\
   f32_lt (vec_x v) (f32_of_Z (-1)) = false /\
   f32_lt (f32_of_Z 1) (vec_y v) = false /\
   f32_lt (vec_y v) (f32_of_Z (-1)) = false) /\
  (1 <= center_x <= JOYSTICK_MAX_VALUE ->
   1 <= center_y <= JOYSTICK_MAX_VALUE ->
   Joystick_GetCoord 0 0 center_x center_y
     = mkVector2D (S754_zero false) (S754_zero true)) /\
  (- JOYSTICK_MAX_VALUE <= x <= JOYSTICK_MAX_VALUE ->
   let r := vec_x (Joystick_GetCoord x 0 0 0) in
   (x = 0 -> r = S754_nan) /\
   (0 < x -> SFcompare r (f32_of_Z 1) = Some Eq) /\
   (x < 0 -> SFcompare r (f32_of_Z (-1)) = Some Eq)).
Proof.
  cbv zeta. unfold JOYSTICK_MAX_VALUE. split; [|split].
  - unfold Joystick_GetCoord. cbn [vec_x vec_y].
    pose proof (clamp_unit (f32_div (f32_of_Z x) (f32_of_Z center_x)))
      as (Hx1 & Hx2).
    pose proof (clamp_unit (f32_div (f32_of_Z y) (f32_of_Z center_y)))
      as (Hy1 & Hy2).
    cbv zeta in Hx1, Hx2, Hy1, Hy2.
    split; [exact Hx1|]. split; [exact Hx2|].
    change (f32_of_Z 1) with (f32_neg (f32_of_Z (-1))) at 1.
    change (f32_of_Z (-1)) with (f32_neg (f32_of_Z 1)) at 6.
    rewrite !f32_lt_opp. split; assumption.
  - intros Hcx Hcy.
    assert (Hall : all_from rest_coord_ok (Z.to_nat 4095) 1 = true)
      by (vm_compute; reflexivity).
    assert (Hrest : forall c, 1 <= c <= 4095 ->
              f32_div (f32_of_Z 0) (f32_of_Z c) = S754_zero false).
    { intros c Hc.
      pose proof (all_from_spec _ _ _ Hall c ltac:(lia)) as H.
      clear Hall. unfold rest_coord_ok in H.
      destruct (f32_div (f32_of_Z 0) (f32_of_Z c)) as [[|]| | |];
        try discriminate H. reflexivity. }
    unfold Joystick_GetCoord. rewrite (Hrest _ Hcx), (Hrest _ Hcy).
    reflexivity.
  - intros Hx.
    assert (Hall : all_from zero_centre_ok (Z.to_nat 8191) (-4095) = true)
      by (vm_compute; reflexivity).
    pose proof (all_from_spec _ _ _ Hall x ltac:(lia)) as H.
    clear Hall. unfold zero_centre_ok in H. cbv zeta in H.
    repeat split.
    + intros ->. vm_compute. reflexivity.
    + intros Hp. destruct (Z.eqb_spec x 0); [lia|].
      destruct (Z.ltb_spec 0 x); [|lia].
      destruct (SFcompare _ _) as [[| |]|]; try discriminate H. reflexivity.
    + intros Hn. destruct (Z.eqb_spec x 0); [lia|].
      destruct (Z.ltb_spec 0 x); [lia|].
      destruct (SFcompare _ _) as [[| |]|]; try discriminate H. reflexivity.
Qed.

Lemma GetCoord_range_witness :
  Joystick_GetCoord 0 0 2048 2040
    = mkVector2D (S754_zero false) (S754_zero true).
Proof.
  destruct (GetCoord_range 0 0 2048 2040) as (_ & Hrest & _).
  apply Hrest; unfold JOYSTICK_MAX_VALUE; lia.
Defined.

(** ** Painting lists of pixels *)

Lemma Z_interval_In (a b z : Z) : In z (Z_interval a b) <-> a <= z <= b.
Proof.
  unfold Z_interval. rewrite in_map_iff. split.
  - intros (k & <- & Hk). apply in_seq in Hk. lia.
  - intros Hz. exists (Z.to_nat (z - a)). split; [lia|]. apply in_seq. lia.
Qed.

Lemma Z_range_In (n z : Z) : In z (Z_range n) <-> 0 <= z < n.
Proof.
  unfold Z_range. rewrite in_map_iff. split.
  - intros (k & <- & Hk). apply in_seq in Hk. lia.
  - intros Hz. exists (Z.to_nat z). split; [lia|]. apply in_seq. lia.
Qed.

Lemma fold_left_ext_in {A B : Type} (f g : A -> B -> A) (l : list B) (a : A) :
  (forall a b, In b l -> f a b = g a b) ->
  fold_left f l a = fold_left g l a.
Proof.
  revert a. induction l as [|b l IH]; intros a H; [reflexivity|].
  simpl. rewrite (H a b) by (left; reflexivity).
  apply IH. intros a' b' Hb. apply H. right. exact Hb.
Qed.

Lemma fold_left_id_in {A B : Type} (f : A -> B -> A) (l : list B) (a : A) :
  (forall a b, In b l -> f a b = a) -> fold_left f l a = a.
Proof.
  revert a. induction l as [|b l IH]; intros a H; [reflexivity|].
  simpl. rewrite (H a b) by (left; reflexivity).
  apply IH. intros a' b' Hb. apply H. right. exact Hb.
Qed.

Lemma paint_list_app (l1 l2 : list (Z * Z)) (c : Z) (s : LCD_t) :
  paint_list (l1 ++ l2) c s = paint_list l2 c (paint_list l1 c s).
Proof. unfold paint_list. apply fold_left_app. Qed.

Lemma paint_list_flat_map {B : Type} (g : B -> list (Z * Z)) (l : list B)
    (c : Z) (s : LCD_t) :
  fold_left (fun s b => paint_list (g b) c s) l s
    = paint_list (flat_map g l) c s.
Proof.
  revert s. induction l as [|b l IH]; intros s; [reflexivity|].
  simpl. rewrite paint_list_app. apply IH.
Qed.

Lemma row_in_dec (pts : list (Z * Z)) (r : Z) :
  {exists x, In (x, r) pts} + {forall x, ~ In (x, r) pts}.
Proof.
  induction pts as [|[px py] pts IH].
  - right. intros x [].
  - destruct IH as [IH|IH].
    + left. destruct IH as (x & Hx). exists x. right. exact Hx.
    + destruct (Z.eq_dec py r) as [->|Hne].
      * left. exists px. left. reflexivity.
      * right. intros x [Heq|Hin]; [congruence|exact (IH x Hin)].
Qed.

Lemma point_in_dec (pts : list (Z * Z)) (p : Z * Z) : {In p pts} + {~ In p pts}.
Proof.
  apply in_dec. intros [a b] [a' b'].
  destruct (Z.eq_dec a a'), (Z.eq_dec b b'); subst;
    [left; reflexivity | right; congruence ..].
Qed.

(** The state after a list of in-range [LCD_Set_Pixel] calls with one
    palette index. *)
Lemma paint_list_spec (c : Z) (pts : list (Z * Z)) (s : LCD_t) :
  0 <= c < 16 -> lcd_wf s ->
  (forall p, In p pts -> on_screen (fst p) (snd p)) ->
  painted_exactly (fun x y => In (x, y) pts) c s (paint_list pts c s).
Proof.
  intros Hc. revert s. induction pts as [|[px py] pts IH]; intros s Hwf Hpts.
  - unfold painted_exactly. simpl. repeat split; try assumption;
      try reflexivity; try (apply Hwf).
    + intros x y _ [].
    + intros r (x & []).
  - assert (Hp : on_screen px py) by (apply (Hpts (px, py)); left; reflexivity).
    destruct Hp as (Hpx & Hpy).
    set (s1 := LCD_Set_Pixel px py c s).
    assert (Hwf1 : lcd_wf s1) by (apply Set_Pixel_wf; assumption).
    destruct (Set_Pixel_cells s px py c Hwf Hpx Hpy Hc) as (Hcell1 & Hother1).
    cbv zeta in Hcell1, Hother1. fold s1 in Hcell1, Hother1.
    pose proof (Set_Pixel_in_range s px py c Hwf Hpx Hpy) as Heq.
    cbv zeta in Heq. fold s1 in Heq.
    assert (Hf1 : faults s1 = faults s) by (rewrite Heq; reflexivity).
    assert (Hm1 : colour_map s1 = colour_map s) by (rewrite Heq; reflexivity).
    assert (Ht1 : track_changes s1 = <[Z.to_nat py := 1]> (track_changes s))
      by (rewrite Heq; reflexivity).
    specialize (IH s1 Hwf1 ltac:(intros p Hin; apply Hpts; right; exact Hin)).
    destruct IH as (Hwf' & Hf' & Hm' & Hin' & Hout' & Hrow' & Hnorow').
    change (paint_list ((px, py) :: pts) c s) with (paint_list pts c s1).
    unfold painted_exactly.
    split; [exact Hwf'|]. split; [congruence|]. split; [congruence|].
    split; [|split; [|split]].
    + intros x y Hxy Hin.
      destruct (point_in_dec pts (x, y)) as [Hr|Hr]; [apply Hin'; assumption|].
      destruct Hin as [Heqp|Hr']; [|contradiction].
      injection Heqp as <- <-.
      rewrite (Hout' px py Hxy Hr). exact Hcell1.
    + intros x y Hxy Hnot.
      rewrite (Hout' x y Hxy) by (intros H; apply Hnot; right; exact H).
      apply Hother1; try apply Hxy.
      intros Heqp. apply Hnot. left. symmetry. exact Heqp.
    + intros r (x & Hin).
      destruct (row_in_dec pts (Z.of_nat r)) as [Hr|Hr]; [apply Hrow'; exact Hr|].
      destruct Hin as [Heqp|Hin]; [|exfalso; exact (Hr x Hin)].
      injection Heqp as <- Hy.
      rewrite (Hnorow' r Hr), Ht1, Hy, Nat2Z.id.
      apply list_lookup_insert_eq.
      destruct Hwf as (_ & Hrows & _). unfold ST7789V2_HEIGHT in *. lia.
    + intros r Hnot.
      rewrite (Hnorow' r) by (intros x Hin; apply (Hnot x); right; exact Hin).
      rewrite Ht1. apply list_lookup_insert_ne.
      intros Heqr. apply (Hnot px). left. f_equal.
      unfold ST7789V2_HEIGHT in *. lia.
Qed.

Lemma painted_exactly_ext (R R' : Z -> Z -> Prop) (c : Z) (s s' : LCD_t) :
  (forall x y, R x y <-> R' x y) ->
  painted_exactly R c s s' -> painted_exactly R' c s s'.
Proof.
  intros Hiff (Hwf & Hf & Hm & Hin & Hout & Hrow & Hnorow).
  unfold painted_exactly. repeat split; try assumption; try (apply Hwf).
  - intros x y Hxy HR. apply Hin; [exact Hxy | apply Hiff; exact HR].
  - intros x y Hxy HR. apply Hout; [exact Hxy|].
    intros H. apply HR. apply Hiff. exact H.
  - intros r (x & HR). apply Hrow. exists x. apply Hiff. exact HR.
  - intros r HR. apply Hnorow. intros x H. apply (HR x). apply Hiff. exact H.
Qed.

Lemma paint_list_within (R : Z -> Z -> Prop) (c : Z) (pts : list (Z * Z))
    (s : LCD_t) :
  0 <= c < 16 -> lcd_wf s ->
  (forall p, In p pts -> on_screen (fst p) (snd p) /\ R (fst p) (snd p)) ->
  painted_within R c s (paint_list pts c s).
Proof.
  intros Hc Hwf Hpts.
  destruct (paint_list_spec c pts s Hc Hwf
              ltac:(intros p Hp; apply (Hpts p Hp)))
    as (Hwf' & Hf & Hm & Hin & Hout & Hrow & Hnorow).
  unfold painted_within. repeat split; try assumption; try (apply Hwf').
  - intros x y Hxy. destruct (point_in_dec pts (x, y)) as [Hp|Hp].
    + right. split; [apply (Hpts (x, y) Hp) | apply Hin; assumption].
    + left. apply Hout; assumption.
  - intros r. destruct (row_in_dec pts (Z.of_nat r)) as [Hr|Hr].
    + right. split; [|apply Hrow; exact Hr].
      destruct Hr as (x & Hx). exists x. apply (Hpts (x, Z.of_nat r) Hx).
    + left. apply Hnorow. exact Hr.
Qed.

(** ** Lines along an axis *)

Lemma wrap_u16_id (z : Z) : 0 <= z < 65536 -> wrap_u16 z = z.
Proof. intros H. unfold wrap_u16. apply Z.mod_small. exact H. Qed.

Lemma fold_left_map_fun {A B C : Type} (f : A -> B -> A) (g : C -> B)
    (l : list C) (a : A) :
  fold_left f (map g l) a = fold_left (fun a x => f a (g x)) l a.
Proof.
  revert a. induction l as [|x l IH]; intros a; [reflexivity|].
  simpl. apply IH.
Qed.

Lemma Z_interval_single (a : Z) : Z_interval a a = [a].
Proof.
  unfold Z_interval. replace (a - a + 1) with 1 by lia.
  simpl. rewrite Z.add_0_r. reflexivity.
Qed.

Lemma Draw_Line_horizontal (xa xb y c : Z) (s : LCD_t) :
  on_screen xa y -> on_screen xb y ->
  LCD_Draw_Line xa y xb y c s =
    paint_list (map (fun x => (x, y)) (Z_interval (Z.min xa xb) (Z.max xa xb)))
               c s.
Proof.
  unfold on_screen, ST7789V2_WIDTH, ST7789V2_HEIGHT.
  intros (Hxa & Hy) (Hxb & _).
  unfold LCD_Draw_Line, paint_list. rewrite fold_left_map_fun.
  replace (y - y) with 0 by lia. change (wrap_i16 0) with 0.
  rewrite (wrap_i16_id (xb - xa)) by (unfold in_i16; lia).
  change (0 =? 0) with true. rewrite andb_true_r. change (Z.abs 0) with 0.
  destruct (Z.eqb_spec (xb - xa) 0) as [Heq|Hne].
  - assert (xb = xa) by lia. subst xb.
    rewrite Z.min_id, Z.max_id, Z_interval_single. reflexivity.
  - destruct (Z.ltb_spec 0 (Z.abs (xb - xa))); [|lia].
    destruct (Z.ltb_spec 0 (xb - xa)).
    + rewrite Z.min_l, Z.max_r by lia.
      apply fold_left_ext_in. intros a x Hx. apply Z_interval_In in Hx.
      cbn [fst snd]. rewrite Z.mul_0_l, Z.quot_0_l by lia.
      rewrite Z.add_0_r, !wrap_u16_id by lia. reflexivity.
    + rewrite Z.min_r, Z.max_l by lia.
      apply fold_left_ext_in. intros a x Hx. apply Z_interval_In in Hx.
      cbn [fst snd]. rewrite Z.mul_0_l, Z.quot_0_l by lia.
      rewrite Z.add_0_r, !wrap_u16_id by lia. reflexivity.
Qed.

Lemma Draw_Line_vertical (x ya yb c : Z) (s : LCD_t) :
  on_screen x ya -> on_screen x yb ->
  LCD_Draw_Line x ya x yb c s =
    paint_list (map (fun y => (x, y)) (Z_interval (Z.min ya yb) (Z.max ya yb)))
               c s.
Proof.
  unfold on_screen, ST7789V2_WIDTH, ST7789V2_HEIGHT.
  intros (Hx & Hya) (_ & Hyb).
  unfold LCD_Draw_Line, paint_list. rewrite fold_left_map_fun.
  replace (x - x) with 0 by lia. change (wrap_i16 0) with 0.
  rewrite (wrap_i16_id (yb - ya)) by (unfold in_i16; lia).
  change (0 =? 0) with true. cbn [andb]. change (Z.abs 0) with 0.
  destruct (Z.eqb_spec (yb - ya) 0) as [Heq|Hne].
  - assert (yb = ya) by lia. subst yb.
    rewrite Z.min_id, Z.max_id, Z_interval_single. reflexivity.
  - destruct (Z.ltb_spec (Z.abs (yb - ya)) 0); [lia|].
    destruct (Z.ltb_spec 0 (yb - ya)).
    + rewrite Z.min_l, Z.max_r by lia.
      apply fold_left_ext_in. intros a y Hy. apply Z_interval_In in Hy.
      cbn [fst snd]. rewrite Z.mul_0_l, Z.quot_0_l by lia.
      rewrite Z.add_0_r, !wrap_u16_id by lia. reflexivity.
    + rewrite Z.min_r, Z.max_l by lia.
      apply fold_left_ext_in. intros a y Hy. apply Z_interval_In in Hy.
      cbn [fst snd]. rewrite Z.mul_0_l, Z.quot_0_l by lia.
      rewrite Z.add_0_r, !wrap_u16_id by lia. reflexivity.
Qed.

(** X18: on a well-formed buffer, a line between two on-screen points of
    one row (one column), in either direction, sets exactly the pixels of
    the segment between them, both ends included, marks exactly that row
    (those rows) dirty and touches nothing else. *)
Theorem Draw_Line_along_axis (xa xb ya yb c : Z) (s : LCD_t) :
  lcd_wf s -> 0 <= c < 16 ->
  on_screen xa ya -> on_screen xb yb ->
  (ya = yb ->
   painted_exactly (fun x y => y = ya /\ Z.min xa xb <= x <= Z.max xa xb)
                   c s (LCD_Draw_Line xa ya xb yb c s)) /\
  (xa = xb ->
   painted_exactly (fun x y => x = xa /\ Z.min ya yb <= y <= Z.max ya yb)
                   c s (LCD_Draw_Line xa ya xb yb c s)).
Proof.
  intros Hwf Hc Ha Hb. split.
  - intros <-. rewrite (Draw_Line_horizontal xa xb ya c s Ha Hb).
    eapply painted_exactly_ext; [|apply paint_list_spec; try assumption].
    + intros x y. cbv beta. rewrite in_map_iff. split.
      * intros (x' & Heq & Hin). injection Heq as <- <-.
        apply Z_interval_In in Hin. split; [reflexivity|exact Hin].
      * intros (-> & Hin). exists x. split; [reflexivity|].
        apply Z_interval_In. exact Hin.
    + intros p Hp. apply in_map_iff in Hp as (x' & <- & Hin).
      apply Z_interval_In in Hin. cbn [fst snd].
      destruct Ha as (Hxa & Hya), Hb as (Hxb & _).
      split; [lia|exact Hya].
  - intros <-. rewrite (Draw_Line_vertical xa ya yb c s Ha Hb).
    eapply painted_exactly_ext; [|apply paint_list_spec; try assumption].
    + intros x y. cbv beta. rewrite in_map_iff. split.
      * intros (y' & Heq & Hin). injection Heq as <- <-.
        apply Z_interval_In in Hin. split; [reflexivity|exact Hin].
      * intros (-> & Hin). exists y. split; [reflexivity|].
        apply Z_interval_In. exact Hin.
    + intros p Hp. apply in_map_iff in Hp as (y' & <- & Hin).
      apply Z_interval_In in Hin. cbn [fst snd].
      destruct Ha as (Hxa & Hya), Hb as (_ & Hyb).
      split; [exact Hxa|lia].
Qed.

Lemma Draw_Line_along_axis_witness :
  refresh_cell (image_buffer (LCD_Draw_Line 9 3 2 3 7 lcd_blank)) 5 3 = 7.
Proof.
  destruct (Draw_Line_along_axis 9 2 3 3 7 lcd_blank lcd_blank_wf)
    as (Hrow & _);
    try (unfold on_screen, ST7789V2_WIDTH, ST7789V2_HEIGHT; lia).
  destruct (Hrow eq_refl) as (_ & _ & _ & Hin & _).
  apply Hin; [unfold on_screen, ST7789V2_WIDTH, ST7789V2_HEIGHT|]; lia.
Defined.

(** ** Rectangles *)

Lemma Draw_Rect_filled_points (x0 y0 width height c fill : Z) (s : LCD_t) :
  fill <> 0 ->
  0 <= x0 < ST7789V2_WIDTH -> 0 <= x0 + (width - 1) < ST7789V2_WIDTH ->
  0 <= y0 -> y0 + height <= ST7789V2_HEIGHT ->
  LCD_Draw_Rect x0 y0 width height c fill s =
    paint_list
      (flat_map (fun y => map (fun x => (x, y))
                              (Z_interval (Z.min x0 (x0 + (width - 1)))
                                          (Z.max x0 (x0 + (width - 1)))))
                (Z_interval y0 (y0 + height - 1)))
      c s.
Proof.
  unfold ST7789V2_WIDTH, ST7789V2_HEIGHT.
  intros Hfill Hx0 Hx1 Hy0 Hy1. unfold LCD_Draw_Rect.
  destruct (Z.eqb_spec fill 0); [contradiction|]. cbn [negb].
  rewrite <- paint_list_flat_map.
  apply fold_left_ext_in. intros a y Hy. apply Z_interval_In in Hy.
  rewrite !wrap_u16_id by lia.
  apply Draw_Line_horizontal;
    unfold on_screen, ST7789V2_WIDTH, ST7789V2_HEIGHT; lia.
Qed.

Lemma Draw_Rect_border_points (x0 y0 width height c : Z) (s : LCD_t) :
  0 <= x0 < ST7789V2_WIDTH -> 0 <= x0 + (width - 1) < ST7789V2_WIDTH ->
  0 <= y0 < ST7789V2_HEIGHT -> 0 <= y0 + (height - 1) < ST7789V2_HEIGHT ->
  let x1 := x0 + (width - 1) in
  let y1 := y0 + (height - 1) in
  LCD_Draw_Rect x0 y0 width height c 0 s =
    paint_list
      (map (fun x => (x, y0)) (Z_interval (Z.min x0 x1) (Z.max x0 x1)) ++
       map (fun x => (x, y1)) (Z_interval (Z.min x0 x1) (Z.max x0 x1)) ++
       map (fun y => (x0, y)) (Z_interval (Z.min y0 y1) (Z.max y0 y1)) ++
       map (fun y => (x1, y)) (Z_interval (Z.min y0 y1) (Z.max y0 y1)))
      c s.
Proof.
  unfold ST7789V2_WIDTH, ST7789V2_HEIGHT.
  intros Hx0 Hx1 Hy0 Hy1. cbv zeta. unfold LCD_Draw_Rect.
  change (0 =? 0) with true. cbn [negb].
  rewrite !wrap_u16_id by lia.
  rewrite !paint_list_app.
  rewrite !Draw_Line_horizontal, !Draw_Line_vertical
    by (unfold on_screen, ST7789V2_WIDTH, ST7789V2_HEIGHT; lia).
  reflexivity.
Qed.

Lemma Draw_Rect_filled_span (x0 y0 width height c fill : Z) (s : LCD_t) :
  lcd_wf s -> 0 <= c < 16 -> fill <> 0 ->
  0 <= x0 < ST7789V2_WIDTH -> 0 <= x0 + (width - 1) < ST7789V2_WIDTH ->
  0 <= y0 -> y0 + height <= ST7789V2_HEIGHT ->
  painted_exactly
    (fun x y => Z.min x0 (x0 + (width - 1)) <= x
                  <= Z.max x0 (x0 + (width - 1)) /\
                y0 <= y < y0 + height)
    c s (LCD_Draw_Rect x0 y0 width height c fill s).
Proof.
  intros Hwf Hc Hf Hx0 Hx1 Hy0 Hy1.
  rewrite (Draw_Rect_filled_points x0 y0 width height c fill s Hf Hx0 Hx1
             Hy0 Hy1).
  eapply painted_exactly_ext; [|apply paint_list_spec; try assumption].
  - intros x y. cbv beta. rewrite in_flat_map. split.
    + intros (y' & Hy' & Hin). apply in_map_iff in Hin as (x' & Heq & Hx').
      injection Heq as <- <-.
      apply Z_interval_In in Hy'. apply Z_interval_In in Hx'. lia.
    + intros (Hx & Hy). exists y. split; [apply Z_interval_In; lia|].
      apply in_map_iff. exists x. split; [reflexivity|].
      apply Z_interval_In. exact Hx.
  - intros p Hp. apply in_flat_map in Hp as (y' & Hy' & Hin).
    apply in_map_iff in Hin as (x' & <- & Hx').
    apply Z_interval_In in Hy'. apply Z_interval_In in Hx'.
    unfold on_screen, ST7789V2_WIDTH, ST7789V2_HEIGHT in *. cbn [fst snd].
    lia.
Qed.

(** X19: on a well-formed buffer and with the rectangle on screen, a
    filled [LCD_Draw_Rect] of width at least 1 sets exactly the pixels
    [x0 <= x < x0 + width], [y0 <= y < y0 + height] and an unfilled one
    (height at least 1) exactly the pixels on its four sides; exactly the
    rows involved are marked dirty.  A filled rectangle of width 0 is not
    empty: it sets the two columns [x0 - 1] and [x0]. *)
Theorem Draw_Rect_exact (x0 y0 width height c fill : Z) (s : LCD_t) :
  lcd_wf s -> 0 <= c < 16 ->
  0 <= x0 < ST7789V2_WIDTH -> 0 <= x0 + (width - 1) < ST7789V2_WIDTH ->
  0 <= y0 -> 0 <= height -> y0 + height <= ST7789V2_HEIGHT ->
  (fill <> 0 -> 1 <= width ->
   painted_exactly
     (fun x y => x0 <= x < x0 + width /\ y0 <= y < y0 + height)
     c s (LCD_Draw_Rect x0 y0 width height c fill s)) /\
  (fill <> 0 -> width = 0 ->
   painted_exactly
     (fun x y => x0 - 1 <= x <= x0 /\ y0 <= y < y0 + height)
     c s (LCD_Draw_Rect x0 y0 width height c fill s)) /\
  (1 <= width -> 1 <= height ->
   painted_exactly
     (fun x y => x0 <= x < x0 + width /\ y0 <= y < y0 + height /\
                 (x = x0 \/ x = x0 + width - 1 \/
                  y = y0 \/ y = y0 + height - 1))
     c s (LCD_Draw_Rect x0 y0 width height c 0 s)).
Proof.
  intros Hwf Hc Hx0 Hx1 Hy0 Hh Hy1.
  assert (Hfilled : forall fill', fill' <> 0 ->
    painted_exactly
      (fun x y => Z.min x0 (x0 + (width - 1)) <= x
                    <= Z.max x0 (x0 + (width - 1)) /\
                  y0 <= y < y0 + height)
      c s (LCD_Draw_Rect x0 y0 width height c fill' s)).
  { intros fill' Hf. apply Draw_Rect_filled_span; assumption. }
  split; [|split].
  - intros Hf Hw. eapply painted_exactly_ext; [|apply (Hfilled fill Hf)].
    intros x y. cbv beta. lia.
  - intros Hf Hw. eapply painted_exactly_ext; [|apply (Hfilled fill Hf)].
    intros x y. cbv beta. lia.
  - intros Hw Hh1.
    rewrite (Draw_Rect_border_points x0 y0 width height c s Hx0 Hx1)
      by (unfold ST7789V2_HEIGHT in *; lia).
    cbv zeta.
    eapply painted_exactly_ext; [|apply paint_list_spec; try assumption].
    + intros x y. cbv beta. rewrite !in_app_iff, !in_map_iff. split.
      * intros [H|[H|[H|H]]]; destruct H as (z & Heq & Hz);
          injection Heq as <- <-; apply Z_interval_In in Hz; lia.
      * intros (Hx & Hy & Hside).
        destruct (Z.eq_dec y y0) as [->|Hny].
        { left. exists x. split; [reflexivity|]. apply Z_interval_In. lia. }
        destruct (Z.eq_dec y (y0 + (height - 1))) as [->|Hny1].
        { right; left. exists x. split; [reflexivity|].
          apply Z_interval_In. lia. }
        destruct (Z.eq_dec x x0) as [->|Hnx].
        { right; right; left. exists y. split; [reflexivity|].
          apply Z_interval_In. lia. }
        right; right; right. exists y.
        split; [f_equal; lia|]. apply Z_interval_In. lia.
    + intros p Hp. rewrite !in_app_iff, !in_map_iff in Hp.
      unfold on_screen, ST7789V2_WIDTH, ST7789V2_HEIGHT in *.
      destruct Hp as [H|[H|[H|H]]]; destruct H as (z & <- & Hz);
        apply Z_interval_In in Hz; cbn [fst snd]; lia.
Qed.

Lemma Draw_Rect_exact_witness :
  refresh_cell (image_buffer (LCD_Draw_Rect 10 20 5 40 15 1 lcd_blank)) 14 59
    = 15.
Proof.
  destruct (Draw_Rect_exact 10 20 5 40 15 1 lcd_blank lcd_blank_wf)
    as (Hfill & _);
    try (unfold ST7789V2_WIDTH, ST7789V2_HEIGHT; lia).
  destruct (Hfill ltac:(discriminate) ltac:(lia)) as (_ & _ & _ & Hin & _).
  apply Hin; [unfold on_screen, ST7789V2_WIDTH, ST7789V2_HEIGHT|]; lia.
Defined.

(** X20: for a paddle that lies on the screen (width at least 1),
    [Paddle_Draw] sets to white (index 15) exactly the pixels of the
    paddle's bounding box, the box [Paddle_GetAABB] hands to the collision
    test, and marks exactly the paddle's rows dirty. *)
Theorem Paddle_Draw_exact (p : Paddle_t) (s : LCD_t) :
  lcd_wf s ->
  0 <= paddle_x p -> 1 <= paddle_width p ->
  paddle_x p + paddle_width p <= ST7789V2_WIDTH ->
  0 <= paddle_height p -> paddle_on_screen p ->
  painted_exactly
    (fun x y =>
       let b := Paddle_GetAABB p in
       box_x b <= x < box_x b + box_width b /\
       box_y b <= y < box_y b + box_height b)
    15 s (Paddle_Draw p s).
Proof.
  unfold paddle_on_screen, SCREEN_HEIGHT, ST7789V2_WIDTH.
  intros Hwf Hx Hw Hxw Hh (Hy & Hyh).
  unfold Paddle_Draw. rewrite !wrap_u16_id by lia.
  eapply painted_exactly_ext;
    [|apply (Draw_Rect_filled_span (paddle_x p) (paddle_y p) (paddle_width p)
               (paddle_height p) 15 1 s Hwf);
      try (unfold ST7789V2_WIDTH, ST7789V2_HEIGHT; lia); discriminate].
  intros x y. cbn. lia.
Qed.

Lemma Paddle_Draw_exact_witness :
  painted_exactly
    (fun x y => 10 <= x < 10 + 5 /\ 100 <= y < 100 + 40)
    15 lcd_blank (Paddle_Draw (Paddle_Init 10 100 5 40 6) lcd_blank).
Proof.
  apply (Paddle_Draw_exact (Paddle_Init 10 100 5 40 6) lcd_blank lcd_blank_wf);
    try (unfold ST7789V2_WIDTH; simpl; lia).
  unfold paddle_on_screen, SCREEN_HEIGHT. simpl. lia.
Defined.

(** ** Clearing and filling *)

Lemma buffer_stores_frame (v : Z) (idxs : list Z) (s : LCD_t) :
  (forall i, In i idxs -> 0 <= i < Z.of_nat (length (image_buffer s))) ->
  let s' := fold_left (fun s i => image_buffer_store i v s) idxs s in
  track_changes s' = track_changes s /\ colour_map s' = colour_map s /\
  faults s' = faults s /\
  length (image_buffer s') = length (image_buffer s) /\
  (forall n : nat, In (Z.of_nat n) idxs -> (n < length (image_buffer s))%nat ->
     image_buffer s' !! n = Some v) /\
  (forall n : nat, ~ In (Z.of_nat n) idxs ->
     image_buffer s' !! n = image_buffer s !! n).
Proof.
  revert s. induction idxs as [|i idxs IH]; intros s Hin; cbv zeta.
  - simpl. repeat split. intros n [].
  - simpl.
    assert (Hi : 0 <= i < Z.of_nat (length (image_buffer s)))
      by (apply Hin; left; reflexivity).
    set (s1 := image_buffer_store i v s).
    assert (Hs1 : s1 = mkLCD (<[Z.to_nat i := v]> (image_buffer s))
                             (track_changes s) (colour_map s) (faults s)).
    { subst s1. unfold image_buffer_store. rewrite in_bounds_true by exact Hi.
      reflexivity. }
    assert (Hlen : length (image_buffer s1) = length (image_buffer s)).
    { rewrite Hs1. cbn [image_buffer]. apply length_insert. }
    destruct (IH s1) as (Ht & Hc & Hf & Hl & Hset & Hkeep).
    { intros z Hz. rewrite Hlen. apply Hin. right. exact Hz. }
    rewrite Ht, Hc, Hf, Hl, Hlen. rewrite Hs1 at 1 2 3.
    cbn [track_changes colour_map faults].
    repeat split.
    + intros n Hn Hlt.
      destruct (in_dec Z.eq_dec (Z.of_nat n) idxs) as [Hin'|Hout].
      * apply Hset; [exact Hin' | rewrite Hlen; exact Hlt].
      * destruct Hn as [Hn|Hn]; [|contradiction].
        rewrite (Hkeep n Hout), Hs1. cbn [image_buffer]. subst i.
        rewrite Nat2Z.id. apply list_lookup_insert_eq. exact Hlt.
    + intros n Hn. rewrite Hkeep by (intros H; apply Hn; right; exact H).
      rewrite Hs1. cbn [image_buffer]. apply list_lookup_insert_ne.
      intros Heq. apply Hn. left. lia.
Qed.

Lemma mark_all_rows_frame (s : LCD_t) :
  Z.of_nat (length (track_changes s)) = ST7789V2_HEIGHT ->
  let s' := mark_all_rows s in
  image_buffer s' = image_buffer s /\ colour_map s' = colour_map s /\
  faults s' = faults s /\
  length (track_changes s') = length (track_changes s) /\
  (forall r : nat, Z.of_nat r < ST7789V2_HEIGHT ->
     track_changes s' !! r = Some 1).
Proof.
  intros Hrows. cbv zeta. unfold mark_all_rows.
  destruct (mark_rows_frame
              (map Z.of_nat (seq 0 (Z.to_nat ST7789V2_HEIGHT))) s)
    as (Hb & Hc & Hf & Hl & Hall).
  { intros y Hy. apply in_map_iff in Hy as (n & <- & Hn).
    apply in_seq in Hn. lia. }
  repeat split; try assumption.
  intros r Hr. apply Hall; [|lia].
  apply in_map_iff. exists r. split; [reflexivity|]. apply in_seq. lia.
Qed.

Lemma clear_words_as_bytes (v : Z) (words : list Z) (s : LCD_t) :
  fold_left (fun s i => image_buffer_store_word i v s) words s =
  fold_left (fun s i => image_buffer_store i v s)
            (flat_map (fun i => [4 * i; 4 * i + 1; 4 * i + 2; 4 * i + 3])
                      words) s.
Proof.
  revert s. induction words as [|i words IH]; intros s; [reflexivity|].
  simpl. rewrite <- IH. reflexivity.
Qed.

Lemma fill_byte_nibbles (c : Z) :
  0 <= c < 16 ->
  let v := wrap_u8 (Z.lor c (Z.shiftl c 4)) in
  0 <= v < 256 /\ Z.land v 0x0F = c /\ Z.shiftr v 4 = c.
Proof.
  intros Hc.
  pose proof (Z_range_forallb
                (fun c => let v := wrap_u8 (Z.lor c (Z.shiftl c 4)) in
                          (0 <=? v) && (v <? 256) && (Z.land v 0x0F =? c) &&
                          (Z.shiftr v 4 =? c))
                16 ltac:(vm_compute; reflexivity) c Hc) as H.
  cbv zeta in H. repeat (apply andb_true_iff in H; destruct H as [H ?]).
  cbv zeta. repeat split; lia.
Qed.

(** The state after every byte of the buffer was set to [v] and every row
    marked. *)
Lemma all_bytes_set (v : Z) (s s' : LCD_t) :
  lcd_wf s -> 0 <= v < 256 ->
  track_changes s' = track_changes (mark_all_rows s) ->
  colour_map s' = colour_map s -> faults s' = faults s ->
  length (image_buffer s') = length (image_buffer s) ->
  (forall n : nat, (n < length (image_buffer s))%nat ->
     image_buffer s' !! n = Some v) ->
  s' = mkLCD (replicate (Z.to_nat BUFFER_LENGTH) v)
             (replicate (Z.to_nat ST7789V2_HEIGHT) 1)
             (colour_map s) (faults s).
Proof.
  intros (Hbuf & Hrows & _) Hv Ht Hc Hf Hl Hall.
  destruct (mark_all_rows_frame s Hrows) as (_ & _ & _ & Hlr & Hmarked).
  destruct s' as [buf' rows' map' faults'].
  cbn [image_buffer track_changes colour_map faults] in *. subst map' faults'.
  f_equal.
  - apply list_eq. intros n.
    destruct (Nat.lt_ge_cases n (length (image_buffer s))) as [Hn|Hn].
    + rewrite (Hall n Hn). symmetry. apply lookup_replicate_2. lia.
    + rewrite (proj2 (lookup_ge_None buf' n)) by lia.
      symmetry. apply lookup_replicate_None. lia.
  - subst rows'. apply list_eq. intros n.
    destruct (Nat.lt_ge_cases n (length (track_changes s))) as [Hn|Hn].
    + rewrite Hmarked by lia. symmetry. apply lookup_replicate_2. lia.
    + rewrite (proj2 (lookup_ge_None _ n)) by lia.
      symmetry. apply lookup_replicate_None. lia.
Qed.

Lemma fill_all (v : Z) (idxs : list Z) (s : LCD_t) :
  lcd_wf s -> 0 <= v < 256 ->
  (forall i, In i idxs <-> 0 <= i < BUFFER_LENGTH) ->
  fold_left (fun s i => image_buffer_store i v s) idxs (mark_all_rows s) =
  mkLCD (replicate (Z.to_nat BUFFER_LENGTH) v)
        (replicate (Z.to_nat ST7789V2_HEIGHT) 1)
        (colour_map s) (faults s).
Proof.
  intros Hwf Hv Hidx.
  pose proof Hwf as (Hbuf & Hrows & _).
  destruct (mark_all_rows_frame s Hrows) as (Hmb & Hmc & Hmf & Hml & _).
  pose proof (buffer_stores_frame v idxs (mark_all_rows s)) as H.
  cbv zeta in H.
  set (s' := fold_left (fun s i => image_buffer_store i v s) idxs
                       (mark_all_rows s)) in *.
  destruct H as (Ht & Hcm & Hf & Hl & Hset & _).
  { intros i Hi. apply Hidx in Hi. rewrite Hmb, Hbuf. exact Hi. }
  apply (all_bytes_set v s s' Hwf Hv Ht).
  - rewrite Hcm. exact Hmc.
  - rewrite Hf. exact Hmf.
  - rewrite Hl, Hmb. reflexivity.
  - intros n Hn. apply Hset; [|rewrite Hmb; exact Hn].
    apply Hidx. rewrite <- Hbuf. lia.
Qed.

(** X21: on a buffer of the declared sizes, [LCD_Fill_Buffer] with a
    palette index [c] leaves every byte at [c * 17] and every row dirty, so
    every pixel reads [c], without touching the palette or anything
    outside the arrays; [LCD_clear], which zeroes the buffer word by word,
    gives the same state as [LCD_Fill_Buffer] with 0. *)
Theorem Fill_Buffer_and_clear (c : Z) (s : LCD_t) :
  lcd_wf s -> 0 <= c < 16 ->
  LCD_Fill_Buffer c s =
    mkLCD (replicate (Z.to_nat BUFFER_LENGTH) (c * 17))
          (replicate (Z.to_nat ST7789V2_HEIGHT) 1)
          (colour_map s) (faults s) /\
  (forall x y, on_screen x y ->
     refresh_cell (image_buffer (LCD_Fill_Buffer c s)) x y = c) /\
  LCD_clear s = LCD_Fill_Buffer 0 s.
Proof.
  intros Hwf Hc.
  destruct (fill_byte_nibbles c Hc) as (Hv & Hlo & Hhi).
  assert (Hval : wrap_u8 (Z.lor c (Z.shiftl c 4)) = c * 17).
  { pose proof (Z_range_forallb
                  (fun c => wrap_u8 (Z.lor c (Z.shiftl c 4)) =? c * 17)
                  16 ltac:(vm_compute; reflexivity) c Hc) as H.
    apply Z.eqb_eq in H. exact H. }
  assert (Hrange : forall i, In i (Z_range BUFFER_LENGTH) <->
                             0 <= i < BUFFER_LENGTH)
    by (intros i; apply Z_range_In).
  assert (Hfillc : LCD_Fill_Buffer c s =
            mkLCD (replicate (Z.to_nat BUFFER_LENGTH) (c * 17))
                  (replicate (Z.to_nat ST7789V2_HEIGHT) 1)
                  (colour_map s) (faults s)).
  { unfold LCD_Fill_Buffer. rewrite Hval.
    apply (fill_all (c * 17) _ s Hwf); [lia | exact Hrange]. }
  split; [exact Hfillc|]. split.
  - intros x y (Hx & Hy). rewrite Hfillc. cbn [image_buffer].
    unfold refresh_cell.
    rewrite lookup_replicate_2.
    2:{ unfold ST7789V2_WIDTH, ST7789V2_HEIGHT in *.
        change BUFFER_LENGTH with 28800.
        Z.to_euclidean_division_equations. lia. }
    cbn [default]. rewrite <- Hval.
    destruct (x mod 2 =? 0); assumption.
  - unfold LCD_clear. rewrite clear_words_as_bytes.
    transitivity (mkLCD (replicate (Z.to_nat BUFFER_LENGTH) 0)
                        (replicate (Z.to_nat ST7789V2_HEIGHT) 1)
                        (colour_map s) (faults s)).
    2:{ symmetry. unfold LCD_Fill_Buffer.
        change (wrap_u8 (Z.lor 0 (Z.shiftl 0 4))) with 0.
        apply (fill_all 0 _ s Hwf); [lia | exact Hrange]. }
    apply (fill_all 0 _ s Hwf); [lia|].
    intros i. rewrite in_flat_map. split.
    + intros (k & Hk & Hi). apply Z_range_In in Hk.
      change (Z.shiftr BUFFER_LENGTH 2) with 7200 in Hk.
      change BUFFER_LENGTH with 28800.
      cbn [In] in Hi. lia.
    + intros Hi. change BUFFER_LENGTH with 28800 in Hi.
      exists (i / 4). split.
      * apply Z_range_In. change (Z.shiftr BUFFER_LENGTH 2) with 7200.
        Z.to_euclidean_division_equations. lia.
      * cbn [In]. Z.to_euclidean_division_equations. lia.
Qed.

Lemma Fill_Buffer_and_clear_witness :
  lcd_wf lcd_blank /\ LCD_clear lcd_blank = LCD_Fill_Buffer 0 lcd_blank.
Proof.
  split; [exact lcd_blank_wf|].
  apply (Fill_Buffer_and_clear 0 lcd_blank lcd_blank_wf). lia.
Defined.


(** ** Circles *)

Lemma painted_within_refl (R : Z -> Z -> Prop) (c : Z) (s : LCD_t) :
  lcd_wf s -> painted_within R c s s.
Proof.
  intros Hwf. repeat split; try apply Hwf; intros; left; reflexivity.
Qed.

Lemma painted_within_trans (R : Z -> Z -> Prop) (c : Z) (s1 s2 s3 : LCD_t) :
  painted_within R c s1 s2 -> painted_within R c s2 s3 ->
  painted_within R c s1 s3.
Proof.
  intros (_ & Hf1 & Hc1 & Hp1 & Hr1) (Hwf & Hf2 & Hc2 & Hp2 & Hr2).
  split; [exact Hwf|]. split; [congruence|]. split; [congruence|]. split.
  - intros x y Hon.
    destruct (Hp2 x y Hon) as [H2 | H2]; [|right; exact H2].
    destruct (Hp1 x y Hon) as [H1 | (HR & H1)].
    + left. congruence.
    + right. split; [exact HR | congruence].
  - intros r.
    destruct (Hr2 r) as [H2 | H2]; [|right; exact H2].
    destruct (Hr1 r) as [H1 | (HR & H1)].
    + left. congruence.
    + right. split; [exact HR | congruence].
Qed.

Lemma painted_within_weaken (R R' : Z -> Z -> Prop) (c : Z) (s s' : LCD_t) :
  (forall x y, R x y -> R' x y) ->
  painted_within R c s s' -> painted_within R' c s s'.
Proof.
  intros Hsub (Hwf & Hf & Hc & Hp & Hr).
  repeat split; try assumption; try apply Hwf.
  - intros x y Hon. destruct (Hp x y Hon) as [H | (HR & H)];
      [left; exact H | right; split; [apply Hsub; exact HR | exact H]].
  - intros r. destruct (Hr r) as [H | ((x & HR) & H)];
      [left; exact H | right; split; [exists x; apply Hsub; exact HR | exact H]].
Qed.

Lemma painted_within_keeps (R : Z -> Z -> Prop) (c : Z) (s s' : LCD_t)
    (x y : Z) :
  painted_within R c s s' -> on_screen x y ->
  refresh_cell (image_buffer s) x y = c ->
  refresh_cell (image_buffer s') x y = c.
Proof.
  intros (_ & _ & _ & Hp & _) Hon Hc.
  destruct (Hp x y Hon) as [H | (_ & H)]; congruence.
Qed.

Lemma circle_body_as_points (x0 y0 c fill x y : Z) (s : LCD_t) :
  0 <= y <= x ->
  x <= x0 -> x0 + x < ST7789V2_WIDTH -> x <= y0 -> y0 + x < ST7789V2_HEIGHT ->
  circle_body x0 y0 c fill x y s
    = paint_list (circle_body_points x0 y0 fill x y) c s.
Proof.
  unfold ST7789V2_WIDTH, ST7789V2_HEIGHT. intros Hy Hx0 Hx1 Hy0 Hy1.
  unfold circle_body, circle_body_points.
  rewrite !wrap_u16_id by lia.
  destruct (fill =? 0).
  - unfold paint_list. cbn [fold_left fst snd]. reflexivity.
  - rewrite !paint_list_app.
    rewrite !Draw_Line_horizontal
      by (unfold on_screen, ST7789V2_WIDTH, ST7789V2_HEIGHT; lia).
    rewrite !Z.min_r, !Z.max_l by lia. reflexivity.
Qed.

Lemma circle_body_points_in (x0 y0 r fill x y : Z) (p : Z * Z) :
  0 <= y <= x ->
  x <= x0 -> x0 + x < ST7789V2_WIDTH -> x <= y0 -> y0 + x < ST7789V2_HEIGHT ->
  x * x + y * y <= r * r + r ->
  In p (circle_body_points x0 y0 fill x y) ->
  on_screen (fst p) (snd p) /\ in_disc x0 y0 r (fst p) (snd p).
Proof.
  unfold ST7789V2_WIDTH, ST7789V2_HEIGHT. intros Hy Hx0 Hx1 Hy0 Hy1 Hr.
  unfold circle_body_points, on_screen, in_disc, ST7789V2_WIDTH,
    ST7789V2_HEIGHT.
  destruct (fill =? 0).
  - cbn [In]. intros H.
    repeat (destruct H as [<- | H]; [cbn [fst snd]; split; [lia | nia]|]).
    destruct H.
  - rewrite !in_app_iff, !in_map_iff.
    intros [H | [H | [H | H]]]; destruct H as (t & <- & Ht);
      apply Z_interval_In in Ht; cbn [fst snd]; split; try lia; nia.
Qed.

Lemma circle_body_within (x0 y0 r c fill x y : Z) (s : LCD_t) :
  lcd_wf s -> 0 <= c < 16 ->
  0 <= y <= x ->
  x <= x0 -> x0 + x < ST7789V2_WIDTH -> x <= y0 -> y0 + x < ST7789V2_HEIGHT ->
  x * x + y * y <= r * r + r ->
  painted_within (in_disc x0 y0 r) c s (circle_body x0 y0 c fill x y s).
Proof.
  intros Hwf Hc Hy Hx0 Hx1 Hy0 Hy1 Hr.
  rewrite circle_body_as_points by assumption.
  apply paint_list_within; [exact Hc | exact Hwf |].
  intros p Hp. eapply circle_body_points_in; eassumption.
Qed.

(** The loop keeps [radiusError = x^2 + y^2 - r^2 + 2y - x + 1], and
    [radiusError <= 2y + 1] whenever it runs the body again. *)
Lemma circle_loop_within (x0 y0 r c fill : Z) :
  0 <= c < 16 ->
  0 <= r <= x0 -> x0 + r < ST7789V2_WIDTH ->
  r <= y0 -> y0 + r < ST7789V2_HEIGHT ->
  forall (fuel : nat) (x y radiusError : Z) (s : LCD_t),
    lcd_wf s -> 0 <= y -> x <= r ->
    radiusError = x * x + y * y - r * r + 2 * y - x + 1 ->
    (y <= x -> radiusError <= 2 * y + 1) ->
    painted_within (in_disc x0 y0 r) c s
      (circle_loop fuel x0 y0 c fill x y radiusError s).
Proof.
  intros Hc Hr0 Hr1 Hr2 Hr3.
  induction fuel as [|fuel IH]; intros x y e s Hwf Hy Hx He Hbound.
  - apply painted_within_refl. exact Hwf.
  - cbn [circle_loop].
    destruct (x <? y) eqn:Hxy; [apply painted_within_refl; exact Hwf|].
    apply Z.ltb_ge in Hxy. specialize (Hbound Hxy). cbv zeta.
    assert (Hbody : painted_within (in_disc x0 y0 r) c s
                      (circle_body x0 y0 c fill x y s)).
    { apply circle_body_within; try assumption; try lia; nia. }
    pose proof Hbody as (Hwf1 & _).
    destruct (e <? 0) eqn:Hneg.
    + apply Z.ltb_lt in Hneg.
      eapply painted_within_trans; [exact Hbody|].
      apply IH; try assumption; try lia.
    + apply Z.ltb_ge in Hneg.
      eapply painted_within_trans; [exact Hbody|].
      apply IH; try assumption; try lia.
Qed.

Lemma circle_loop_fuel (x0 y0 c fill : Z) (fuel k : nat) :
  forall (x y radiusError : Z) (s : LCD_t),
    x - y < Z.of_nat fuel ->
    circle_loop (fuel + k) x0 y0 c fill x y radiusError s
      = circle_loop fuel x0 y0 c fill x y radiusError s.
Proof.
  induction fuel as [|fuel IH]; intros x y e s Hfuel.
  - assert (Hxy : (x <? y) = true) by (apply Z.ltb_lt; lia).
    destruct k; cbn [Nat.add circle_loop]; [reflexivity|].
    rewrite Hxy. reflexivity.
  - cbn [Nat.add circle_loop].
    destruct (x <? y) eqn:Hxy; [reflexivity|].
    apply Z.ltb_ge in Hxy. cbv zeta.
    destruct (e <? 0); apply IH; lia.
Qed.

(** What the first pass of the loop sets is still set at the end. *)
Lemma circle_first_pass (x0 y0 r c fill : Z) (s : LCD_t) (x y : Z) :
  lcd_wf s -> 0 <= c < 16 ->
  0 <= r <= x0 -> x0 + r < ST7789V2_WIDTH ->
  r <= y0 -> y0 + r < ST7789V2_HEIGHT ->
  In (x, y) (circle_body_points x0 y0 fill r 0) ->
  refresh_cell (image_buffer (LCD_Draw_Circle x0 y0 r c fill s)) x y = c.
Proof.
  intros Hwf Hc Hr0 Hr1 Hr2 Hr3 Hin.
  unfold LCD_Draw_Circle. cbn [circle_loop].
  replace (r <? 0) with false by (symmetry; apply Z.ltb_ge; lia). cbv zeta.
  set (s1 := circle_body x0 y0 c fill r 0 s).
  assert (Hpts : forall p, In p (circle_body_points x0 y0 fill r 0) ->
            on_screen (fst p) (snd p) /\ in_disc x0 y0 r (fst p) (snd p)).
  { intros p Hp.
    eapply (circle_body_points_in x0 y0 r fill r 0 p); try eassumption; lia. }
  assert (Hs1 : painted_exactly
                  (fun x y => In (x, y) (circle_body_points x0 y0 fill r 0))
                  c s s1).
  { subst s1. rewrite circle_body_as_points by lia.
    apply paint_list_spec; [exact Hc | exact Hwf |].
    intros p Hp. apply Hpts. exact Hp. }
  destruct Hs1 as (Hwf1 & _ & _ & Hset & _).
  assert (Hon : on_screen x y) by (apply (Hpts (x, y)); exact Hin).
  assert (Hw : forall s2, painted_within (in_disc x0 y0 r) c s1 s2 ->
            refresh_cell (image_buffer s2) x y = c).
  { intros s2 H2. eapply painted_within_keeps; [exact H2 | exact Hon |].
    apply Hset; assumption. }
  destruct (1 - r <? 0) eqn:He; apply Hw.
  - apply Z.ltb_lt in He.
    apply circle_loop_within; try assumption; try lia.
  - apply Z.ltb_ge in He.
    apply circle_loop_within; try assumption; try lia.
Qed.

(** X22: for a circle that lies on the screen, [LCD_Draw_Circle] sets only
    pixels at most [sqrt (r^2 + r)] away from the centre, to the given
    colour, and touches nothing outside the two arrays; the four points at
    distance [r] on the axes are set, and for a filled circle so is the
    whole diameter on the centre row.  The loop ends by its own test: more
    than [r + 1] passes change nothing. *)
Theorem Draw_Circle_footprint (x0 y0 r c fill : Z) (s : LCD_t) :
  lcd_wf s -> 0 <= c < 16 ->
  0 <= r <= x0 -> x0 + r < ST7789V2_WIDTH ->
  r <= y0 -> y0 + r < ST7789V2_HEIGHT ->
  let s' := LCD_Draw_Circle x0 y0 r c fill s in
  painted_within (in_disc x0 y0 r) c s s' /\
  (refresh_cell (image_buffer s') (x0 + r) y0 = c /\
   refresh_cell (image_buffer s') (x0 - r) y0 = c /\
   refresh_cell (image_buffer s') x0 (y0 + r) = c /\
   refresh_cell (image_buffer s') x0 (y0 - r) = c) /\
  (fill <> 0 -> forall x, x0 - r <= x <= x0 + r ->
     refresh_cell (image_buffer s') x y0 = c) /\
  (forall k : nat,
     circle_loop (Datatypes.S (Z.to_nat r) + k) x0 y0 c fill r 0 (1 - r) s
       = s').
Proof.
  intros Hwf Hc Hr0 Hr1 Hr2 Hr3. cbv zeta.
  split; [|split; [|split]].
  - unfold LCD_Draw_Circle.
    apply circle_loop_within; try assumption; try lia.
  - assert (Hpts : forall x y,
              (x = x0 + r \/ x = x0 - r) /\ y = y0 \/
              x = x0 /\ (y = y0 + r \/ y = y0 - r) ->
              In (x, y) (circle_body_points x0 y0 fill r 0)).
    { intros x y Hxy. unfold circle_body_points. destruct (fill =? 0).
      - cbn [In].
        destruct Hxy as [([-> | ->] & ->) | (-> & [-> | ->])].
        + left. f_equal; lia.
        + right; left. f_equal; lia.
        + right; right; left. f_equal; lia.
        + right; right; right; right; left. f_equal; lia.
      - rewrite !in_app_iff, !in_map_iff.
        destruct Hxy as [(Hx & ->) | (-> & [-> | ->])].
        + left. exists x. split; [f_equal; lia|].
          apply Z_interval_In. lia.
        + right; left. exists x0. split; [f_equal; lia|].
          apply Z_interval_In. lia.
        + right; right; left. exists x0. split; [f_equal; lia|].
          apply Z_interval_In. lia. }
    repeat split; apply circle_first_pass; try assumption; apply Hpts; lia.
  - intros Hfill x Hx. apply circle_first_pass; try assumption.
    unfold circle_body_points.
    replace (fill =? 0) with false by (symmetry; apply Z.eqb_neq; exact Hfill).
    apply in_app_iff. left. apply in_map_iff. exists x.
    split; [f_equal; lia|]. apply Z_interval_In. lia.
  - intros k. unfold LCD_Draw_Circle. apply circle_loop_fuel. lia.
Qed.

Lemma Draw_Circle_footprint_witness :
  refresh_cell (image_buffer (LCD_Draw_Circle 120 120 5 15 1 lcd_blank))
               117 120 = 15.
Proof.
  destruct (Draw_Circle_footprint 120 120 5 15 1 lcd_blank lcd_blank_wf)
    as (_ & _ & Hrow & _); try (unfold ST7789V2_WIDTH, ST7789V2_HEIGHT; lia).
  apply Hrow; [discriminate | lia].
Defined.

Ltac screen_lia :=
  cbv delta [ST7789V2_WIDTH ST7789V2_HEIGHT] in *; lia.

Lemma in_disc_square (x0 y0 r x y : Z) :
  0 <= r -> in_disc x0 y0 r x y ->
  x0 - r <= x <= x0 + r /\ y0 - r <= y <= y0 + r.
Proof.
  unfold in_disc. intros Hr H.
  assert (Hsq : forall d e, 0 <= r -> d * d + e * e <= r * r + r ->
                            - r <= d <= r).
  { intros d e Hr' Hd. pose proof (Z.square_nonneg e).
    split.
    - destruct (Z_lt_le_dec d (- r)) as [Hlt|]; [exfalso; nia | assumption].
    - destruct (Z_lt_le_dec r d) as [Hlt|]; [exfalso; nia | assumption]. }
  pose proof (Hsq (x - x0) (y - y0) Hr H).
  pose proof (Hsq (y - y0) (x - x0) Hr ltac:(lia)). lia.
Qed.

(** ** Drawing the game *)

Lemma Ball_Draw_within (b : Ball_t) (s : LCD_t) :
  lcd_wf s -> 0 <= ball_size b ->
  0 <= ball_x b -> ball_x b + ball_size b < ST7789V2_WIDTH ->
  0 <= ball_y b -> ball_y b + ball_size b < ST7789V2_HEIGHT ->
  let r := Z.quot (ball_size b) 2 in
  painted_within (in_disc (ball_x b + r) (ball_y b + r) r) 15 s
                 (Ball_Draw b s) /\
  (forall x, ball_x b <= x <= ball_x b + 2 * r ->
     refresh_cell (image_buffer (Ball_Draw b s)) x (ball_y b + r) = 15).
Proof.
  unfold ST7789V2_WIDTH, ST7789V2_HEIGHT.
  intros Hwf Hsize Hx Hxs Hy Hys. cbv zeta.
  set (r := Z.quot (ball_size b) 2).
  assert (Hr : 0 <= r /\ 2 * r <= ball_size b)
    by (subst r; Z.to_euclidean_division_equations; lia).
  unfold Ball_Draw. fold r. rewrite !wrap_u16_id by lia.
  split.
  - unfold LCD_Draw_Circle.
    apply circle_loop_within; try assumption; screen_lia.
  - intros x Hxr.
    apply circle_first_pass; try assumption; try screen_lia.
    unfold circle_body_points. change (1 =? 0) with false.
    apply in_app_iff. left. apply in_map_iff. exists x.
    split; [f_equal; lia|]. apply Z_interval_In. lia.
Qed.

Lemma Paddle_Draw_within (p : Paddle_t) (s : LCD_t) :
  lcd_wf s ->
  0 <= paddle_x p -> 1 <= paddle_width p ->
  paddle_x p + paddle_width p <= ST7789V2_WIDTH ->
  0 <= paddle_height p -> paddle_on_screen p ->
  let in_paddle x y :=
    paddle_x p <= x < paddle_x p + paddle_width p /\
    paddle_y p <= y < paddle_y p + paddle_height p in
  painted_within in_paddle 15 s (Paddle_Draw p s) /\
  (forall x y, in_paddle x y ->
     refresh_cell (image_buffer (Paddle_Draw p s)) x y = 15).
Proof.
  unfold paddle_on_screen, SCREEN_HEIGHT, ST7789V2_WIDTH.
  intros Hwf Hpx Hpw Hpxw Hph (Hpy & Hpyh). cbv zeta.
  unfold Paddle_Draw. rewrite !wrap_u16_id by lia. split.
  - rewrite Draw_Rect_filled_points by (try screen_lia; discriminate).
    apply paint_list_within; [lia | exact Hwf |].
    intros q Hq. apply in_flat_map in Hq as (y & Hyi & Hq).
    apply in_map_iff in Hq as (x & <- & Hxi).
    apply Z_interval_In in Hyi. apply Z_interval_In in Hxi.
    unfold on_screen, ST7789V2_WIDTH, ST7789V2_HEIGHT.
    cbn [fst snd]. lia.
  - intros x y Hin.
    destruct (Draw_Rect_filled_span (paddle_x p) (paddle_y p)
                (paddle_width p) (paddle_height p) 15 1 s Hwf)
      as (_ & _ & _ & Hset & _); try screen_lia; try discriminate.
    apply Hset; [unfold on_screen; screen_lia | lia].
Qed.

Lemma PongEngine_Draw_within (e : PongEngine_t) (s : LCD_t) :
  lcd_wf s -> 0 <= ball_size (ball e) ->
  0 <= ball_x (ball e) ->
  ball_x (ball e) + ball_size (ball e) < ST7789V2_WIDTH ->
  0 <= ball_y (ball e) ->
  ball_y (ball e) + ball_size (ball e) < ST7789V2_HEIGHT ->
  0 <= paddle_x (paddle e) -> 1 <= paddle_width (paddle e) ->
  paddle_x (paddle e) + paddle_width (paddle e) <= ST7789V2_WIDTH ->
  0 <= paddle_height (paddle e) -> paddle_on_screen (paddle e) ->
  let r := Z.quot (ball_size (ball e)) 2 in
  painted_within
    (fun x y =>
       in_disc (ball_x (ball e) + r) (ball_y (ball e) + r) r x y \/
       (paddle_x (paddle e) <= x < paddle_x (paddle e) + paddle_width (paddle e)
        /\
        paddle_y (paddle e) <= y
          < paddle_y (paddle e) + paddle_height (paddle e)))
    15 s (PongEngine_Draw e s).
Proof.
  intros Hwf Hsize Hx Hxs Hy Hys Hpx Hpw Hpxw Hph Hpon. cbv zeta.
  unfold PongEngine_Draw.
  destruct (Ball_Draw_within (ball e) s Hwf Hsize Hx Hxs Hy Hys)
    as (Hball & _).
  pose proof Hball as (Hwf1 & _).
  destruct (Paddle_Draw_within (paddle e) (Ball_Draw (ball e) s)
              Hwf1 Hpx Hpw Hpxw Hph Hpon) as (Hpaddle & _).
  eapply painted_within_trans.
  - eapply painted_within_weaken; [|exact Hball].
    intros x y H. left. exact H.
  - eapply painted_within_weaken; [|exact Hpaddle].
    intros x y H. right. exact H.
Qed.

(** X23: a ball whose box is on the screen is drawn as a white disc
    around the middle of the box: only pixels of that disc change, all of
    them lie between the box's left and top edge and [2 * (size / 2)]
    pixels further, and the disc's middle row is white from edge to edge.
    For an even size that row ends one pixel right of the box that
    [Ball_GetAABB] reports. *)
Theorem Ball_Draw_footprint (b : Ball_t) (s : LCD_t) :
  lcd_wf s -> 0 <= ball_size b ->
  0 <= ball_x b -> ball_x b + ball_size b < ST7789V2_WIDTH ->
  0 <= ball_y b -> ball_y b + ball_size b < ST7789V2_HEIGHT ->
  let r := Z.quot (ball_size b) 2 in
  let box := Ball_GetAABB b in
  painted_within
    (fun x y => in_disc (box_x box + r) (box_y box + r) r x y /\
                box_x box <= x <= box_x box + 2 * r /\
                box_y box <= y <= box_y box + 2 * r)
    15 s (Ball_Draw b s) /\
  (forall x, box_x box <= x <= box_x box + 2 * r ->
     refresh_cell (image_buffer (Ball_Draw b s)) x (box_y box + r) = 15) /\
  (Z.even (ball_size b) = true ->
   refresh_cell (image_buffer (Ball_Draw b s))
                (box_x box + box_width box) (box_y box + r) = 15).
Proof.
  intros Hwf Hsize Hx Hxs Hy Hys. cbv zeta.
  cbn [Ball_GetAABB box_x box_y box_width].
  destruct (Ball_Draw_within b s Hwf Hsize Hx Hxs Hy Hys) as (Hdisc & Hrow).
  cbv zeta in Hdisc, Hrow.
  set (r := Z.quot (ball_size b) 2) in *.
  assert (Hr : 0 <= r /\ 2 * r <= ball_size b)
    by (subst r; Z.to_euclidean_division_equations; lia).
  split; [|split].
  - eapply painted_within_weaken; [|exact Hdisc].
    intros x y Hd. split; [exact Hd|].
    apply in_disc_square in Hd; lia.
  - exact Hrow.
  - intros Heven. apply Hrow.
    assert (ball_size b = 2 * r); [|lia].
    subst r. apply Z.even_spec in Heven as (k & ->).
    rewrite Z.mul_comm, Z.quot_mul by lia. lia.
Qed.

Lemma Ball_Draw_footprint_witness :
  refresh_cell
    (image_buffer
       (Ball_Draw (mkBall 100 50 10 (mkVector2D (f32_of_Z 0) (f32_of_Z 0)))
                  lcd_blank))
    (100 + 10) (50 + Z.quot 10 2) = 15.
Proof.
  pose proof (Ball_Draw_footprint
                (mkBall 100 50 10 (mkVector2D (f32_of_Z 0) (f32_of_Z 0)))
                lcd_blank lcd_blank_wf) as H.
  cbn [ball_x ball_y ball_size Ball_GetAABB box_x box_y box_width] in H.
  cbv delta [ST7789V2_WIDTH ST7789V2_HEIGHT] in H.
  specialize (H ltac:(lia) ltac:(lia) ltac:(lia) ltac:(lia) ltac:(lia)).
  cbv zeta in H. destruct H as (_ & _ & Hedge).
  apply Hedge. reflexivity.
Defined.

(** X24: when the ball's and the paddle's boxes are on the screen,
    [PongEngine_Draw] changes only pixels of the ball's disc or the
    paddle's box, all to white, and touches nothing outside the two
    arrays; every pixel of the paddle's box and the ball's middle row are
    white afterwards, wherever the two overlap. *)
Theorem PongEngine_Draw_footprint (e : PongEngine_t) (s : LCD_t) :
  lcd_wf s -> 0 <= ball_size (ball e) ->
  0 <= ball_x (ball e) ->
  ball_x (ball e) + ball_size (ball e) < ST7789V2_WIDTH ->
  0 <= ball_y (ball e) ->
  ball_y (ball e) + ball_size (ball e) < ST7789V2_HEIGHT ->
  0 <= paddle_x (paddle e) -> 1 <= paddle_width (paddle e) ->
  paddle_x (paddle e) + paddle_width (paddle e) <= ST7789V2_WIDTH ->
  0 <= paddle_height (paddle e) -> paddle_on_screen (paddle e) ->
  let r := Z.quot (ball_size (ball e)) 2 in
  let bb := Ball_GetAABB (ball e) in
  let pb := Paddle_GetAABB (paddle e) in
  let in_paddle x y :=
    box_x pb <= x < box_x pb + box_width pb /\
    box_y pb <= y < box_y pb + box_height pb in
  painted_within
    (fun x y => in_disc (box_x bb + r) (box_y bb + r) r x y \/ in_paddle x y)
    15 s (PongEngine_Draw e s) /\
  (forall x y, in_paddle x y ->
     refresh_cell (image_buffer (PongEngine_Draw e s)) x y = 15) /\
  (forall x, box_x bb <= x <= box_x bb + 2 * r ->
     refresh_cell (image_buffer (PongEngine_Draw e s)) x (box_y bb + r) = 15).
Proof.
  intros Hwf Hsize Hx Hxs Hy Hys Hpx Hpw Hpxw Hph Hpon. cbv zeta.
  cbn [Ball_GetAABB Paddle_GetAABB box_x box_y box_width box_height].
  split; [apply PongEngine_Draw_within; assumption|].
  unfold PongEngine_Draw.
  destruct (Ball_Draw_within (ball e) s Hwf Hsize Hx Hxs Hy Hys)
    as (Hball & Hrow).
  pose proof Hball as (Hwf1 & _).
  destruct (Paddle_Draw_within (paddle e) (Ball_Draw (ball e) s)
              Hwf1 Hpx Hpw Hpxw Hph Hpon) as (Hpaddle & Hbox).
  cbv zeta in Hrow, Hbox. split; [exact Hbox|].
  intros x Hxr. eapply painted_within_keeps; [exact Hpaddle | |].
  - assert (Hr : 0 <= Z.quot (ball_size (ball e)) 2 /\
                 2 * Z.quot (ball_size (ball e)) 2 <= ball_size (ball e))
      by (Z.to_euclidean_division_equations; lia).
    unfold on_screen. screen_lia.
  - apply Hrow. exact Hxr.
Qed.

Lemma PongEngine_Draw_footprint_witness :
  refresh_cell
    (image_buffer
       (PongEngine_Draw
          (mkEngine (mkBall 100 50 10 (mkVector2D (f32_of_Z 0) (f32_of_Z 0)))
                    (Paddle_Init 10 100 5 40 6) 4)
          lcd_blank))
    12 120 = 15.
Proof.
  pose proof (PongEngine_Draw_footprint
                (mkEngine
                   (mkBall 100 50 10 (mkVector2D (f32_of_Z 0) (f32_of_Z 0)))
                   (Paddle_Init 10 100 5 40 6) 4)
                lcd_blank lcd_blank_wf) as H.
  cbn [ball paddle ball_x ball_y ball_size Paddle_Init paddle_x paddle_y
       paddle_width paddle_height] in H.
  cbv delta [ST7789V2_WIDTH ST7789V2_HEIGHT] in H.
  specialize (H ltac:(lia) ltac:(lia) ltac:(lia) ltac:(lia) ltac:(lia)
                ltac:(lia) ltac:(lia) ltac:(lia) ltac:(lia)).
  assert (Hp : paddle_on_screen (mkPaddle 10 100 5 40 6 0)).
  { unfold paddle_on_screen, SCREEN_HEIGHT.
    cbn [paddle_y paddle_height]. lia. }
  specialize (H Hp). cbv zeta in H. destruct H as (_ & Hpad & _).
  apply Hpad.
  cbn [Paddle_GetAABB Paddle_Init paddle box_x box_y box_width box_height
       paddle_x paddle_y paddle_width paddle_height]. lia.
Defined.


(** ** Sprites *)

Lemma sprite_block_bound (a n scale j d : Z) :
  0 <= a -> 1 <= scale -> 0 <= j < n -> 0 <= d < scale ->
  a + n * scale <= 240 ->
  0 <= a + j * scale + d < 240 /\ 0 <= a + j * scale < 240.
Proof.
  intros Ha Hs Hj Hd Hn.
  assert ((j + 1) * scale <= n * scale)
    by (apply Z.mul_le_mono_nonneg_r; lia).
  assert (0 <= j * scale) by (apply Z.mul_nonneg_nonneg; lia).
  lia.
Qed.

Lemma Sprite_Colour_Scaled_points (x0 y0 nrows ncols : Z) (sprite : list Z)
    (c scale : Z) (s : LCD_t) :
  1 <= scale ->
  0 <= x0 -> x0 + ncols * scale <= ST7789V2_WIDTH ->
  0 <= y0 -> y0 + nrows * scale <= ST7789V2_HEIGHT ->
  LCD_Draw_Sprite_Colour_Scaled x0 y0 nrows ncols sprite c scale s
    = paint_list (sprite_points x0 y0 nrows ncols sprite scale) c s.
Proof.
  unfold ST7789V2_WIDTH, ST7789V2_HEIGHT. intros Hs Hx0 Hx1 Hy0 Hy1.
  unfold LCD_Draw_Sprite_Colour_Scaled, sprite_points.
  replace (scale =? 0) with false by (symmetry; apply Z.eqb_neq; lia).
  rewrite <- paint_list_flat_map. apply fold_left_ext_in.
  intros s1 i Hi. apply Z_range_In in Hi.
  rewrite <- paint_list_flat_map. apply fold_left_ext_in.
  intros s2 j Hj. apply Z_range_In in Hj. cbv zeta.
  destruct (negb (sprite_at sprite (i * ncols + j) =? 255)); [|reflexivity].
  rewrite <- paint_list_flat_map. apply fold_left_ext_in.
  intros s3 dy Hdy. apply Z_range_In in Hdy.
  unfold paint_list. rewrite fold_left_map_fun. apply fold_left_ext_in.
  intros s4 dx Hdx. apply Z_range_In in Hdx. cbn [fst snd].
  pose proof (sprite_block_bound x0 ncols scale j dx Hx0 Hs Hj Hdx Hx1).
  pose proof (sprite_block_bound y0 nrows scale i dy Hy0 Hs Hi Hdy Hy1).
  rewrite (wrap_u16_id (x0 + j * scale)), (wrap_u16_id (y0 + i * scale))
    by lia.
  rewrite !wrap_u16_id by lia. reflexivity.
Qed.

Lemma sprite_points_In (x0 y0 nrows ncols : Z) (sprite : list Z) (scale : Z)
    (x y : Z) :
  In (x, y) (sprite_points x0 y0 nrows ncols sprite scale) <->
  in_sprite x0 y0 nrows ncols sprite scale x y.
Proof.
  unfold sprite_points, in_sprite. rewrite in_flat_map. split.
  - intros (i & Hi & H). apply Z_range_In in Hi.
    apply in_flat_map in H as (j & Hj & H). apply Z_range_In in Hj.
    destruct (sprite_at sprite (i * ncols + j) =? 255) eqn:Hp;
      cbn [negb] in H; [destruct H|].
    apply Z.eqb_neq in Hp.
    apply in_flat_map in H as (dy & Hdy & H). apply Z_range_In in Hdy.
    apply in_map_iff in H as (dx & [= <- <-] & Hdx). apply Z_range_In in Hdx.
    exists i, j. repeat split; try assumption; lia.
  - intros (i & j & Hi & Hj & Hp & Hx & Hy).
    exists i. split; [apply Z_range_In; exact Hi|].
    apply in_flat_map. exists j. split; [apply Z_range_In; exact Hj|].
    replace (sprite_at sprite (i * ncols + j) =? 255) with false
      by (symmetry; apply Z.eqb_neq; exact Hp).
    cbn [negb]. apply in_flat_map. exists (y - (y0 + i * scale)).
    split; [apply Z_range_In; lia|].
    apply in_map_iff. exists (x - (x0 + j * scale)).
    split; [f_equal; lia | apply Z_range_In; lia].
Qed.

(** X25: a sprite drawn in one colour at scale [scale >= 1], all of it on
    the screen, sets exactly the [scale] by [scale] blocks of its entries
    other than 255 to that colour, marks exactly their rows dirty and
    touches nothing outside the two arrays; a sprite whose entries are all
    255 leaves the state as it was. *)
Theorem Draw_Sprite_Colour_Scaled_exact (x0 y0 nrows ncols : Z)
    (sprite : list Z) (c scale : Z) (s : LCD_t) :
  lcd_wf s -> 0 <= c < 16 -> 1 <= scale ->
  0 <= x0 -> x0 + ncols * scale <= ST7789V2_WIDTH ->
  0 <= y0 -> y0 + nrows * scale <= ST7789V2_HEIGHT ->
  painted_exactly (in_sprite x0 y0 nrows ncols sprite scale) c s
    (LCD_Draw_Sprite_Colour_Scaled x0 y0 nrows ncols sprite c scale s) /\
  ((forall i j, 0 <= i < nrows -> 0 <= j < ncols ->
      sprite_at sprite (i * ncols + j) = 255) ->
   LCD_Draw_Sprite_Colour_Scaled x0 y0 nrows ncols sprite c scale s = s).
Proof.
  intros Hwf Hc Hs Hx0 Hx1 Hy0 Hy1. split.
  - rewrite Sprite_Colour_Scaled_points by assumption.
    eapply painted_exactly_ext; [intros x y; apply sprite_points_In|].
    apply paint_list_spec; [exact Hc | exact Hwf |].
    intros [x y] Hin. apply sprite_points_In in Hin.
    destruct Hin as (i & j & Hi & Hj & _ & Hx & Hy).
    unfold on_screen, ST7789V2_WIDTH, ST7789V2_HEIGHT in *.
    cbn [fst snd].
    pose proof (sprite_block_bound x0 ncols scale j (x - (x0 + j * scale))
                  Hx0 Hs Hj ltac:(lia) Hx1).
    pose proof (sprite_block_bound y0 nrows scale i (y - (y0 + i * scale))
                  Hy0 Hs Hi ltac:(lia) Hy1).
    lia.
  - intros Hclear. unfold LCD_Draw_Sprite_Colour_Scaled.
    replace (scale =? 0) with false by (symmetry; apply Z.eqb_neq; lia).
    apply fold_left_id_in. intros s1 i Hi. apply Z_range_In in Hi.
    apply fold_left_id_in. intros s2 j Hj. apply Z_range_In in Hj.
    cbv zeta. rewrite (Hclear i j Hi Hj). reflexivity.
Qed.

Lemma Draw_Sprite_Colour_Scaled_exact_witness :
  painted_exactly (in_sprite 10 20 2 2 [255; 1; 1; 255] 3) 7 lcd_blank
    (LCD_Draw_Sprite_Colour_Scaled 10 20 2 2 [255; 1; 1; 255] 7 3 lcd_blank).
Proof.
  apply (Draw_Sprite_Colour_Scaled_exact 10 20 2 2 [255; 1; 1; 255] 7 3
           lcd_blank lcd_blank_wf);
    cbv delta [ST7789V2_WIDTH ST7789V2_HEIGHT]; lia.
Defined.

(** X26: the sprite functions agree with each other: at scale 1 the scaled
    single-colour version is [LCD_Draw_Sprite_Colour]; at scale 0 both
    scaled versions do nothing; and on a sprite whose entries are all 255
    none of the four changes the state, whatever the position. *)
Theorem Draw_Sprite_agreement (x0 y0 nrows ncols : Z) (sprite : list Z)
    (c scale : Z) (s : LCD_t) :
  LCD_Draw_Sprite_Colour_Scaled x0 y0 nrows ncols sprite c 1 s
    = LCD_Draw_Sprite_Colour x0 y0 nrows ncols sprite c s /\
  LCD_Draw_Sprite_Scaled x0 y0 nrows ncols sprite 0 s = s /\
  LCD_Draw_Sprite_Colour_Scaled x0 y0 nrows ncols sprite c 0 s = s /\
  ((forall i j, 0 <= i < nrows -> 0 <= j < ncols ->
      sprite_at sprite (i * ncols + j) = 255) ->
   LCD_Draw_Sprite x0 y0 nrows ncols sprite s = s /\
   LCD_Draw_Sprite_Scaled x0 y0 nrows ncols sprite scale s = s /\
   LCD_Draw_Sprite_Colour x0 y0 nrows ncols sprite c s = s /\
   LCD_Draw_Sprite_Colour_Scaled x0 y0 nrows ncols sprite c scale s = s).
Proof.
  split; [|split; [reflexivity | split; [reflexivity|]]].
  - unfold LCD_Draw_Sprite_Colour_Scaled, LCD_Draw_Sprite_Colour.
    change (1 =? 0) with false. cbv iota.
    apply fold_left_ext_in. intros s1 i _.
    apply fold_left_ext_in. intros s2 j _. cbv zeta.
    destruct (negb (sprite_at sprite (i * ncols + j) =? 255)); [|reflexivity].
    change (Z_range 1) with [0]. cbn [fold_left].
    rewrite !Z.add_0_r, !Z.mul_1_r.
    unfold wrap_u16. rewrite !Z.mod_mod by lia. reflexivity.
  - intros Hclear.
    assert (Hscaled : forall k,
              LCD_Draw_Sprite_Scaled x0 y0 nrows ncols sprite k s = s).
    { intros k. unfold LCD_Draw_Sprite_Scaled.
      destruct (k =? 0); [reflexivity|].
      apply fold_left_id_in. intros s1 i Hi. apply Z_range_In in Hi.
      apply fold_left_id_in. intros s2 j Hj. apply Z_range_In in Hj.
      cbv zeta. rewrite (Hclear i j Hi Hj). reflexivity. }
    split; [apply Hscaled | split; [apply Hscaled | split]].
    + unfold LCD_Draw_Sprite_Colour.
      apply fold_left_id_in. intros s1 i Hi. apply Z_range_In in Hi.
      apply fold_left_id_in. intros s2 j Hj. apply Z_range_In in Hj.
      cbv zeta. rewrite (Hclear i j Hi Hj). reflexivity.
    + unfold LCD_Draw_Sprite_Colour_Scaled.
      destruct (scale =? 0); [reflexivity|].
      apply fold_left_id_in. intros s1 i Hi. apply Z_range_In in Hi.
      apply fold_left_id_in. intros s2 j Hj. apply Z_range_In in Hj.
      cbv zeta. rewrite (Hclear i j Hi Hj). reflexivity.
Qed.

Lemma Draw_Sprite_agreement_witness :
  LCD_Draw_Sprite 238 239 1 2 [255; 255] lcd_blank = lcd_blank.
Proof.
  destruct (Draw_Sprite_agreement 238 239 1 2 [255; 255] 0 1 lcd_blank)
    as (_ & _ & _ & Hclear).
  apply Hclear. intros i j Hi Hj.
  assert (Hi0 : i = 0) by lia. assert (Hj0 : j = 0 \/ j = 1) by lia.
  subst i. destruct Hj0 as [-> | ->]; reflexivity.
Defined.


(** ** Text *)

Lemma land_bit_testbit (a j : Z) :
  0 <= j -> negb (Z.land a (Z.shiftl 1 j) =? 0) = Z.testbit a j.
Proof.
  intros Hj. rewrite Z.shiftl_1_l.
  destruct (Z.testbit a j) eqn:Hb.
  - apply negb_true_iff, Z.eqb_neq. intros H0.
    assert (Hbit : Z.testbit (Z.land a (2 ^ j)) j = true)
      by (rewrite Z.land_spec, Hb, Z.pow2_bits_true by lia; reflexivity).
    rewrite H0, Z.bits_0 in Hbit. discriminate.
  - apply negb_false_iff, Z.eqb_eq. apply Z.bits_inj'. intros n Hn.
    rewrite Z.land_spec, Z.bits_0.
    destruct (Z.eq_dec n j) as [-> | Hne].
    + rewrite Hb. reflexivity.
    + rewrite Z.pow2_bits_false by lia. apply andb_false_r.
Qed.

(** For the characters 32..127 every read stays inside the table. *)
Lemma font_at_table (flash : Z -> Z) (c i : Z) :
  32 <= c <= 127 -> 0 <= i < 5 ->
  exists b, font5x7_ !! Z.to_nat ((c - 32) * 5 + i) = Some b /\
            font_at flash ((c - 32) * 5 + i) = b.
Proof.
  intros Hc Hi. set (k := (c - 32) * 5 + i).
  assert (Hk : 0 <= k < 480) by (subst k; lia).
  assert (Hlen : length font5x7_ = 480%nat) by (vm_compute; reflexivity).
  destruct (lookup_lt_is_Some_2 font5x7_ (Z.to_nat k)) as (b & Hb);
    [rewrite Hlen; lia|].
  exists b. split; [exact Hb|].
  unfold font_at. rewrite Hb.
  replace (k <? 0) with false by (symmetry; apply Z.ltb_ge; lia).
  reflexivity.
Qed.

Lemma printChar_columns_points (flash : Z -> Z) (c x y colour : Z)
    (cols : list Z) (s : LCD_t) :
  (forall i, In i cols -> 0 <= x + i < ST7789V2_WIDTH) ->
  0 <= y -> y + 7 <= ST7789V2_HEIGHT ->
  printChar_columns flash cols c x y colour s =
  paint_list
    (flat_map (fun i =>
       flat_map (fun j =>
         if negb (Z.land (font_at flash ((c - 32) * 5 + i))
                         (Z.shiftl 1 j) =? 0)
         then [(x + i, y + j)] else [])
         (Z_range 7))
       cols)
    colour s.
Proof.
  unfold ST7789V2_WIDTH, ST7789V2_HEIGHT. intros Hcols Hy0 Hy1.
  revert s. induction cols as [|i cols IH]; intros s; [reflexivity|].
  cbn [printChar_columns flat_map]. cbv zeta.
  pose proof (Hcols i ltac:(left; reflexivity)) as Hi.
  replace (ST7789V2_WIDTH - 1 <? x + i) with false
    by (symmetry; apply Z.ltb_ge; unfold ST7789V2_WIDTH; lia).
  rewrite paint_list_app, <- IH
    by (intros k Hk; apply Hcols; right; exact Hk).
  f_equal. rewrite <- paint_list_flat_map. apply fold_left_ext_in.
  intros s1 j Hj. apply Z_range_In in Hj.
  destruct (negb (Z.land (font_at flash ((c - 32) * 5 + i))
                         (Z.shiftl 1 j) =? 0));
    [|reflexivity].
  unfold paint_list. cbn [fold_left fst snd].
  rewrite !wrap_u16_id by lia. reflexivity.
Qed.

Lemma glyph_points_In (flash : Z -> Z) (c x y px py : Z) :
  32 <= c <= 127 ->
  In (px, py) (glyph_points flash c x y) <-> in_glyph c x y px py.
Proof.
  intros Hc. unfold glyph_points, in_glyph. rewrite in_flat_map. split.
  - intros (i & Hi & H). apply Z_range_In in Hi.
    apply in_flat_map in H as (j & Hj & H). apply Z_range_In in Hj.
    rewrite land_bit_testbit in H by lia.
    destruct (font_at_table flash c i Hc Hi) as (b & Hb & Hfont).
    rewrite Hfont in H.
    destruct (Z.testbit b j) eqn:Hbit; [|destruct H].
    destruct H as [[= <- <-] | []].
    exists i, j, b. repeat split; try assumption; lia.
  - intros (i & j & b & Hi & Hj & -> & -> & Hb & Hbit).
    exists i. split; [apply Z_range_In; exact Hi|].
    apply in_flat_map. exists j. split; [apply Z_range_In; exact Hj|].
    destruct (font_at_table flash c i Hc Hi) as (b' & Hb' & Hfont).
    assert (Hbb : b' = b) by congruence. rewrite Hbb in Hfont.
    rewrite land_bit_testbit, Hfont, Hbit by lia. left. reflexivity.
Qed.

(** X27: a character [c] of the font's range 32..127 whose 5 by 7 cell is
    on the screen is drawn by setting exactly the pixels whose bit is set
    in its five font bytes (column [i] from byte [(c - 32) * 5 + i], row
    [j] from bit [j]), marking exactly their rows dirty, whatever lies
    next to the table in memory; at a position right of or below the
    screen [LCD_printChar] does nothing. *)
Theorem printChar_exact (flash : Z -> Z) (c x y colour : Z) (s : LCD_t) :
  32 <= c <= 127 ->
  lcd_wf s -> 0 <= colour < 16 ->
  (0 <= x -> x + 5 <= ST7789V2_WIDTH ->
   0 <= y -> y + 7 <= ST7789V2_HEIGHT ->
   painted_exactly (in_glyph c x y) colour s
                   (LCD_printChar flash c x y colour s)) /\
  (ST7789V2_WIDTH <= x \/ ST7789V2_HEIGHT <= y ->
   LCD_printChar flash c x y colour s = s).
Proof.
  intros Hchar Hwf Hc. split.
  - intros Hx0 Hx1 Hy0 Hy1. unfold LCD_printChar.
    replace (x <? ST7789V2_WIDTH) with true
      by (symmetry; apply Z.ltb_lt; unfold ST7789V2_WIDTH in *; lia).
    replace (y <? ST7789V2_HEIGHT) with true
      by (symmetry; apply Z.ltb_lt; unfold ST7789V2_HEIGHT in *; lia).
    cbn [andb].
    rewrite printChar_columns_points; try assumption.
    2:{ intros i Hi. apply Z_range_In in Hi.
        unfold ST7789V2_WIDTH in *. lia. }
    eapply painted_exactly_ext;
      [intros px py; apply (glyph_points_In flash); exact Hchar|].
    apply paint_list_spec; [exact Hc | exact Hwf |].
    intros [px py] Hin. apply (glyph_points_In flash c x y px py Hchar) in Hin.
    destruct Hin as (i & j & b & Hi & Hj & -> & -> & _).
    unfold on_screen, ST7789V2_WIDTH, ST7789V2_HEIGHT in *.
    cbn [fst snd]. lia.
  - intros Hout. unfold LCD_printChar.
    destruct Hout as [Hx | Hy].
    + replace (x <? ST7789V2_WIDTH) with false
        by (symmetry; apply Z.ltb_ge; exact Hx).
      reflexivity.
    + replace (y <? ST7789V2_HEIGHT) with false
        by (symmetry; apply Z.ltb_ge; exact Hy).
      rewrite andb_false_r. reflexivity.
Qed.

Lemma printChar_exact_witness :
  painted_exactly (in_glyph 65 10 20) 15 lcd_blank
                  (LCD_printChar (fun _ => 255) 65 10 20 15 lcd_blank).
Proof.
  destruct (printChar_exact (fun _ => 255) 65 10 20 15 lcd_blank)
    as (Hin & _); [lia | exact lcd_blank_wf | lia |].
  apply Hin; cbv delta [ST7789V2_WIDTH ST7789V2_HEIGHT]; lia.
Defined.





(** ** A frame: update, then draw *)

Lemma paddle_step_x (engine : PongEngine_t) (w : World) :
  let e' := eval (PongEngine_CheckPaddleCollision engine) w in
  e' = engine \/
  ball_x (ball e')
    = wrap_i16 (paddle_x (paddle engine) + paddle_width (paddle engine)).
Proof.
  destruct engine as [[bx by_ bs [vx vy]] p l].
  unfold PongEngine_CheckPaddleCollision. hal_unfold.
  match goal with |- context [if ?c then _ else _] => destruct c end;
    hal_unfold; [right | left]; reflexivity.
Qed.

(** Where [PongEngine_Update] leaves the ball and the paddle when the
    paddle stands far enough from the right wall for the ball to fit
    between them. *)
Lemma Update_geometry (engine : PongEngine_t) (input : UserInput)
    (w : World) :
  0 <= ball_size (ball engine) <= 198 ->
  paddle_sane (paddle engine) ->
  0 <= paddle_x (paddle engine) -> 0 <= paddle_width (paddle engine) ->
  paddle_x (paddle engine) + paddle_width (paddle engine)
    + ball_size (ball engine) < SCREEN_WIDTH ->
  let e' := snd (eval (PongEngine_Update engine input) w) in
  (0 <= ball_x (ball e') /\
   ball_x (ball e') + ball_size (ball e') < SCREEN_WIDTH /\
   0 < ball_y (ball e') /\
   ball_y (ball e') + ball_size (ball e') < SCREEN_HEIGHT) /\
  ball_size (ball e') = ball_size (ball engine) /\
  paddle_on_screen (paddle e') /\
  paddle_x (paddle e') = paddle_x (paddle engine) /\
  paddle_width (paddle e') = paddle_width (paddle engine) /\
  paddle_height (paddle e') = paddle_height (paddle engine).
Proof.
  intros Hsize Hsane Hpx Hpw Hfit. cbv zeta. rewrite Update_steps. cbn [snd].
  set (e1 := after_motion engine input).
  assert (Hs1 : ball_size (ball e1) = ball_size (ball engine)) by reflexivity.
  pose proof (wall_step_inside e1 w ltac:(rewrite Hs1; lia))
    as (Hy2 & Hyb2 & Hx2 & Hs2).
  pose proof (wall_step_frame e1 w) as (_ & Hp2 & _).
  cbv zeta in Hy2, Hyb2, Hx2, Hs2, Hp2.
  set (e2 := eval (PongEngine_CheckWallCollision e1) w) in *.
  set (w2 := exec (PongEngine_CheckWallCollision e1) w) in *.
  pose proof (paddle_step_ball e2 w2) as (Hy3 & Hs3 & Hp3).
  pose proof (paddle_step_x e2 w2) as Hx3.
  cbv zeta in Hy3, Hs3, Hp3, Hx3.
  set (e3 := eval (PongEngine_CheckPaddleCollision e2) w2) in *.
  set (w3 := exec (PongEngine_CheckPaddleCollision e2) w2) in *.
  pose proof (goal_step_paddle e3 w3) as (Hp4 & Hs4). cbv zeta in Hp4, Hs4.
  pose proof (Paddle_Update_frame (paddle engine) input)
    as (Hfx & Hfw & Hfh & Hfs & Hfc).
  pose proof (Paddle_Update_clamps (paddle engine) input Hsane) as Hon.
  change (paddle e1) with (Paddle_Update (paddle engine) input) in Hp2.
  assert (Hp3' : paddle_on_screen (paddle e3) /\
                 paddle_x (paddle e3) = paddle_x (paddle engine) /\
                 paddle_width (paddle e3) = paddle_width (paddle engine) /\
                 paddle_height (paddle e3) = paddle_height (paddle engine)).
  { destruct Hp3 as [-> | ->]; rewrite Hp2; (split; [exact Hon|]);
      unfold Paddle_AddScore; cbn [paddle_x paddle_width paddle_height];
      repeat split; assumption. }
  split; [|rewrite Hs4, Hs3, Hs2, Hs1, Hp4; split; [reflexivity | exact Hp3']].
  unfold SCREEN_HEIGHT, SCREEN_WIDTH in *.
  destruct (Z.lt_ge_cases (ball_x (ball e3)) 0) as [Hgoal|Hnogoal].
  - rewrite (goal_step_hit e3 w3 Hgoal). cbv zeta.
    cbn [ball ball_x ball_y ball_size paddle].
    pose proof (reset_offset_range (hal_rng w3 (rng_reads w3))) as Hdx.
    pose proof (reset_offset_range (hal_rng w3 (Datatypes.S (rng_reads w3))))
      as Hdy.
    set (dx := reset_offset _) in *. set (dy := reset_offset _) in *.
    rewrite Hs3, Hs2, Hs1. set (size := ball_size (ball engine)) in *.
    unfold SCREEN_HEIGHT, SCREEN_WIDTH.
    assert (Hc : 21 <= Z.quot (240 - size) 2 /\
                 Z.quot (240 - size) 2 + size <= 219).
    { Z.to_euclidean_division_equations. lia. }
    rewrite (wrap_i16_id (Z.quot (240 - size) 2)) by (unfold in_i16; lia).
    rewrite !wrap_i16_id by (unfold in_i16; lia).
    repeat split; lia.
  - unfold eval at 1 2 3 4 5 6. rewrite (goal_step_miss e3 w3 Hnogoal).
    cbn [fst]. rewrite Hy3, Hs3.
    split; [exact Hnogoal|]. split; [|split; [exact Hy2 | lia]].
    destruct Hx3 as [He | Hhit].
    + rewrite He. lia.
    + rewrite Hhit, Hp2, Hfx, Hfw, Hs2, Hs1.
      rewrite wrap_i16_id by (unfold in_i16; lia). lia.
Qed.

(** X29: a frame of the game never writes outside the framebuffer: for a
    paddle that fits the screen and leaves room for the ball on its right,
    and a ball of size at most 198, drawing the engine that
    [PongEngine_Update] returns (whatever the input, the timer and the
    random numbers) touches nothing outside the two arrays, keeps their
    sizes and sets pixels to white only. *)
Theorem Update_then_Draw_safe (engine : PongEngine_t) (input : UserInput)
    (w : World) (s : LCD_t) :
  lcd_wf s ->
  0 <= ball_size (ball engine) <= 198 ->
  paddle_sane (paddle engine) ->
  0 <= paddle_x (paddle engine) -> 1 <= paddle_width (paddle engine) ->
  paddle_x (paddle engine) + paddle_width (paddle engine)
    + ball_size (ball engine) < SCREEN_WIDTH ->
  let e' := snd (eval (PongEngine_Update engine input) w) in
  let s' := PongEngine_Draw e' s in
  lcd_wf s' /\ faults s' = faults s /\ colour_map s' = colour_map s /\
  (forall x y, on_screen x y ->
     refresh_cell (image_buffer s') x y = refresh_cell (image_buffer s) x y \/
     refresh_cell (image_buffer s') x y = 15).
Proof.
  intros Hwf Hsize Hsane Hpx Hpw Hfit. cbv zeta.
  destruct (Update_geometry engine input w Hsize Hsane Hpx ltac:(lia) Hfit)
    as ((Hbx & Hbxs & Hby & Hbys) & Hbs & Hpon & Hpx' & Hpw' & Hph').
  cbv zeta in Hbx, Hbxs, Hby, Hbys, Hbs, Hpon, Hpx', Hpw', Hph'.
  set (e' := snd (eval (PongEngine_Update engine input) w)) in *.
  unfold SCREEN_WIDTH, SCREEN_HEIGHT in *.
  destruct Hsane as (Hh & _).
  destruct (PongEngine_Draw_within e' s Hwf) as (Hwf' & Hf & Hc & Hpix & _);
    try screen_lia; [exact Hpon|].
  repeat split; try assumption; try apply Hwf'.
  intros x y Hon. destruct (Hpix x y Hon) as [Hsame | (_ & Hwhite)];
    [left; exact Hsame | right; exact Hwhite].
Qed.

Lemma Update_then_Draw_safe_witness :
  faults (PongEngine_Draw
            (snd (eval (PongEngine_Update engine_game_over idle) world_quiet))
            lcd_blank)
    = faults lcd_blank.
Proof.
  destruct (Update_then_Draw_safe engine_game_over idle world_quiet lcd_blank
              lcd_blank_wf) as (_ & Hf & _).
  - cbn [engine_game_over ball ball_size]. lia.
  - unfold paddle_sane, SCREEN_HEIGHT, engine_game_over, Paddle_Init.
    cbn [paddle paddle_y paddle_height paddle_speed]. lia.
  - cbn [engine_game_over paddle Paddle_Init paddle_x]. lia.
  - cbn [engine_game_over paddle Paddle_Init paddle_width]. lia.
  - unfold SCREEN_WIDTH.
    cbn [engine_game_over paddle Paddle_Init paddle_x paddle_width ball
         ball_size]. lia.
  - exact Hf.
Defined.
